(** * The plugin request shim of sqlc ([internal/cmd/shim.go])

    A shallow embedding of the translation layer that turns a compiled
    result (catalog and analysed queries) and the combined settings into
    the [CodeGenRequest] handed to a code-generation plugin, together
    with the properties of that translation.

    Conventions of the embedding.
    - A Go [string] is a [string] (a sequence of bytes), a [[]byte] a
      [list Byte.byte], a slice a [list] (a nil slice is the empty
      list), a [map[string]string] a [gmap string string].
    - A pointer that the code tests against [nil] is an [option]; a
      pointer that the code dereferences unconditionally is the value it
      points to.
    - Go's [int] is a [Z]; the conversion [int32(x)] wraps around, as
      the language defines it.
    - [panic(err)] is the [Panic] outcome: the functions that can reach
      it return an [outcome].

    A second embedding ([pluginOverrideM] to [codeGenRequestM]) keeps
    what the first one leaves out: the compiled model has its pointers,
    nil or not, a run panics where the program dereferences a nil
    pointer, and the messages are cells of a heap. It is shown to do
    what the first embedding does, and carries the properties that are
    about panics and about the identity of the messages. *)

From Stdlib Require Import ZArith Ascii String List Lia.
From Stdlib Require Strings.Byte.
From stdpp Require Import base option list strings gmap.

Import ListNotations.
Local Open Scope string_scope.
Local Open Scope list_scope.

(** ** Go primitives *)

(** Go's [error] values are carried as their message. *)
Definition error := string.

(** A call of a function with results [(T, error)]. *)
Inductive result (A : Type) : Type :=
| Ok (a : A)
| Err (e : error).
Arguments Ok {A} a.
Arguments Err {A} e.

(** The outcome of running a function that may [panic]. *)
Inductive outcome (A : Type) : Type :=
| Ret (a : A)
| Panic (e : error).
Arguments Ret {A} a.
Arguments Panic {A} e.

Definition obind {A B : Type} (m : outcome A) (k : A -> outcome B) : outcome B :=
  match m with
  | Ret a => k a
  | Panic e => Panic e
  end.

Notation "'let*' x ':=' m 'in' k" := (obind m (fun x => k))
  (at level 10, x name, m at level 100, k at level 200).

(** [v, err := f(); if err != nil { panic(err) }] *)
Definition must {A : Type} (r : result A) : outcome A :=
  match r with
  | Ok a => Ret a
  | Err e => Panic e
  end.

(** [int32(x)] for [x] of type [int]: the low 32 bits, read as a signed
    number. *)
Definition int32 (x : Z) : Z := ((x + 2 ^ 31) mod 2 ^ 32 - 2 ^ 31)%Z.

(** The values of Go's [int] on the 64-bit platforms. *)
Definition is_int (x : Z) : Prop := (- 2 ^ 63 <= x < 2 ^ 63)%Z.

(** [strings.Split(s, sep)] for a separator [sep] of one byte: the
    substrings of [s] between the occurrences of [sep]; a string with
    [n] occurrences has [n + 1] of them, and the empty string has the
    one empty substring. *)
Fixpoint Split (s : string) (sep : ascii) : list string :=
  match s with
  | EmptyString => [EmptyString]
  | String c rest =>
      if Ascii.eqb c sep then EmptyString :: Split rest sep
      else match Split rest sep with
           | [] => [String c EmptyString]
           | seg :: segs => String c seg :: segs
           end
  end.

(** [strings.Join(segs, sep)] for a separator of one byte. *)
Fixpoint Join (segs : list string) (sep : ascii) : string :=
  match segs with
  | [] => EmptyString
  | [seg] => seg
  | seg :: segs' => seg ++ String sep (Join segs' sep)
  end.

(** Whether the byte [sep] occurs in [s]. *)
Fixpoint contains (s : string) (sep : ascii) : bool :=
  match s with
  | EmptyString => false
  | String c rest => Ascii.eqb c sep || contains rest sep
  end.

(** ** The packages the shim reads from *)

Module ast.
Module TableName.
Record t : Type := mk { Catalog : string; Schema : string; Name : string }.
End TableName.
Module TypeName.
Record t : Type := mk { Catalog : string; Schema : string; Name : string }.
End TypeName.
End ast.

Module catalog.
Module Column.
Record t : Type := mk {
  Name : string;
  Type_ : ast.TypeName.t;
  IsNotNull : bool;
  IsUnsigned : bool;
  IsArray : bool;
  ArrayDims : Z;
  Comment : string;
  Length : option Z
}.
End Column.
Module Table.
Record t : Type := mk {
  Rel : ast.TableName.t;
  Columns : list Column.t;
  Comment : string
}.
End Table.
Module Enum.
Record t : Type := mk { Name : string; Vals : list string; Comment : string }.
End Enum.
Module CompositeType.
Record t : Type := mk { Name : string; Comment : string }.
End CompositeType.
(** The interface [catalog.Type]; [OtherType] stands for an
    implementation that is neither of the two the shim switches on. *)
Inductive Type_ : Type :=
| EnumType (e : Enum.t)
| CompositeTypeType (ct : CompositeType.t)
| OtherType.
Module Schema.
Record t : Type := mk {
  Name : string;
  Tables : list Table.t;
  Types : list Type_;
  Comment : string
}.
End Schema.
Module Catalog.
Record t : Type := mk {
  Comment : string;
  DefaultSchema : string;
  Name : string;
  Schemas : list Schema.t
}.
End Catalog.
End catalog.

Module compiler.
Module Column.
Record t : Type := mk {
  Name : string;
  OriginalName : string;
  DataType : string;
  NotNull : bool;
  Unsigned : bool;
  IsArray : bool;
  ArrayDims : Z;
  Comment : string;
  Length : option Z;
  IsNamedParam : bool;
  IsFuncCall : bool;
  IsSqlcSlice : bool;
  Type_ : option ast.TypeName.t;
  Table : option ast.TableName.t;
  EmbedTable : option ast.TableName.t
}.
End Column.
Module Parameter_.
Record t : Type := mk { Number : Z; Column : Column.t }.
End Parameter_.
Module Metadata.
Record t : Type := mk {
  Name : string;
  Cmd : string;
  Comments : list string;
  Filename : string
}.
End Metadata.
Module Query.
Record t : Type := mk {
  SQL : string;
  Metadata : Metadata.t;
  Columns : list Column.t;
  Params : list Parameter_.t;
  InsertIntoTable : option ast.TableName.t
}.
End Query.
Module Result.
Record t : Type := mk {
  Catalog : catalog.Catalog.t;
  Queries : list Query.t
}.
End Result.
End compiler.

Module goopts.
Module ParsedGoType.
Record t : Type := mk {
  ImportPath : string;
  Package : string;
  TypeName : string;
  BasicType : bool;
  StructTags : gmap string string
}.
End ParsedGoType.
End goopts.

(** The configuration; [Node] is the type [yaml.Node] of the options
    as the user wrote them. *)
Module config.
Module Override.
Record t : Type := mk {
  DBType : string;
  Nullable : bool;
  Unsigned : bool;
  Column : string;
  GoImportPath : string;
  GoPackage : string;
  GoTypeName : string;
  GoBasicType : bool;
  GoStructTags : gmap string string
}.
End Override.
Module PluginProcess.
Record t : Type := mk { Cmd : string }.
End PluginProcess.
Module PluginWASM.
Record t : Type := mk { URL : string; SHA256 : string }.
End PluginWASM.
Module Plugin.
Record t : Type := mk {
  Name : string;
  Env : list string;
  Process : option PluginProcess.t;
  WASM : option PluginWASM.t
}.
End Plugin.
Module Codegen.
Record t (Node : Type) : Type := mk {
  Out : string;
  Plugin : string;
  Options : Node
}.
Arguments mk {Node} _ _ _.
Arguments Out {Node} _.
Arguments Plugin {Node} _.
Arguments Options {Node} _.
End Codegen.
Module Config.
Record t : Type := mk { Version : string; Plugins : list Plugin.t }.
End Config.
Module SQL.
Record t : Type := mk {
  Engine : string;
  Schema : list string;
  Queries : list string
}.
End SQL.
Module CombinedSettings.
Record t (Node : Type) : Type := mk {
  Global : Config.t;
  Package : SQL.t;
  Rename : gmap string string;
  Overrides : list Override.t;
  Codegen : Codegen.t Node
}.
Arguments mk {Node} _ _ _ _ _.
Arguments Global {Node} _.
Arguments Package {Node} _.
Arguments Rename {Node} _.
Arguments Overrides {Node} _.
Arguments Codegen {Node} _.
End CombinedSettings.
End config.

(** ** The messages of the plugin interface

    The generated protobuf structures; a field of pointer type is an
    [option], [None] being the nil pointer. *)

Module plugin.
Module Identifier.
Record t : Type := mk { Catalog : string; Schema : string; Name : string }.
End Identifier.
Module Column.
Record t : Type := mk {
  Name : string;
  NotNull : bool;
  IsArray : bool;
  Comment : string;
  Length : Z;
  IsNamedParam : bool;
  IsFuncCall : bool;
  Table : option Identifier.t;
  Type_ : option Identifier.t;
  IsSqlcSlice : bool;
  EmbedTable : option Identifier.t;
  OriginalName : string;
  Unsigned : bool;
  ArrayDims : Z
}.
End Column.
Module Table.
Record t : Type := mk {
  Rel : option Identifier.t;
  Columns : list Column.t;
  Comment : string
}.
End Table.
Module Enum.
Record t : Type := mk { Name : string; Vals : list string; Comment : string }.
End Enum.
Module CompositeType.
Record t : Type := mk { Name : string; Comment : string }.
End CompositeType.
Module Schema.
Record t : Type := mk {
  Comment : string;
  Name : string;
  Tables : list Table.t;
  Enums : list Enum.t;
  CompositeTypes : list CompositeType.t
}.
End Schema.
Module Catalog.
Record t : Type := mk {
  Comment : string;
  DefaultSchema : string;
  Name : string;
  Schemas : list Schema.t
}.
End Catalog.
Module Override.
Record t : Type := mk {
  CodeType : list Byte.byte;
  DbType : string;
  Nullable : bool;
  Column : string;
  Table : option Identifier.t;
  ColumnName : string;
  Unsigned : bool
}.
End Override.
Module Codegen_Process.
Record t : Type := mk { Cmd : string }.
End Codegen_Process.
Module Codegen_WASM.
Record t : Type := mk { Url : string; Sha256 : string }.
End Codegen_WASM.
Module Codegen.
Record t : Type := mk {
  Out : string;
  Plugin : string;
  Options : list Byte.byte;
  Env : list string;
  Process : option Codegen_Process.t;
  Wasm : option Codegen_WASM.t
}.
End Codegen.
Module Settings.
Record t : Type := mk {
  Version : string;
  Engine : string;
  Schema : list string;
  Queries : list string;
  Rename : gmap string string;
  Overrides : list Override.t;
  Codegen : option Codegen.t
}.
End Settings.
Module Parameter_.
Record t : Type := mk { Number : Z; Column : option Column.t }.
End Parameter_.
Module Query.
Record t : Type := mk {
  Text : string;
  Name : string;
  Cmd : string;
  Columns : list Column.t;
  Params : list Parameter_.t;
  Comments : list string;
  Filename : string;
  InsertIntoTable : option Identifier.t
}.
End Query.
Module CodeGenRequest.
Record t : Type := mk {
  Settings : option Settings.t;
  Catalog : option Catalog.t;
  Queries : list Query.t;
  SqlcVersion : string
}.
End CodeGenRequest.
End plugin.

(** ** Loops that build a slice

    [var out []B; for _, x := range xs { out = append(out, f(x)) }] *)
Definition range_append {A B : Type} (f : A -> B) (xs : list A) : list B :=
  fold_left (fun out x => out ++ [f x]) xs [].

(** The same loop when [f] may panic: the first panic ends the run. *)
Fixpoint range_append_from {A B : Type} (f : A -> outcome B)
    (xs : list A) (out : list B) : outcome (list B) :=
  match xs with
  | [] => Ret out
  | x :: xs' => let* y := f x in range_append_from f xs' (out ++ [y])
  end.

(** ** The compiled model with its pointers

    The records above take every pointer that the shim dereferences
    without a test as the value it points to. The records of this
    module keep these pointers: a slice of pointers is a list of
    [option]s, [None] being nil, and a run of the shim on them panics
    where the program dereferences a nil pointer. The two structures
    that the shim reads through tested pointers or by value
    ([catalog.Column], [compiler.Column]) are the ones above. *)

Module ptr.
Module Table.
Record t : Type := mk {
  Rel : option ast.TableName.t;
  Columns : list (option catalog.Column.t);
  Comment : string
}.
End Table.
(** A value of the interface [catalog.Type]: a pointer to an enum or to
    a composite type, nil or not, or anything else, the nil interface
    included. *)
Inductive Type_ : Type :=
| EnumType (e : option catalog.Enum.t)
| CompositeTypeType (ct : option catalog.CompositeType.t)
| OtherType.
Module Schema.
Record t : Type := mk {
  Name : string;
  Tables : list (option Table.t);
  Types : list Type_;
  Comment : string
}.
End Schema.
Module Catalog.
Record t : Type := mk {
  Comment : string;
  DefaultSchema : string;
  Name : string;
  Schemas : list (option Schema.t)
}.
End Catalog.
Module Parameter_.
Record t : Type := mk { Number : Z; Column : option compiler.Column.t }.
End Parameter_.
Module Query.
Record t : Type := mk {
  SQL : string;
  Metadata : compiler.Metadata.t;
  Columns : list (option compiler.Column.t);
  Params : list Parameter_.t;
  InsertIntoTable : option ast.TableName.t
}.
End Query.
Module Result.
Record t : Type := mk {
  Catalog : option Catalog.t;
  Queries : list (option Query.t)
}.
End Result.
End ptr.

(** ** The heap of the messages

    The messages as the shim allocates them: a pointer is the address
    of a cell of the heap, [None] being nil, and a slice of pointers a
    list of addresses. *)

Definition addr := nat.

Module cell.
Module Column.
Record t : Type := mk {
  Name : string;
  NotNull : bool;
  IsArray : bool;
  Comment : string;
  Length : Z;
  IsNamedParam : bool;
  IsFuncCall : bool;
  Table : option addr;
  Type_ : option addr;
  IsSqlcSlice : bool;
  EmbedTable : option addr;
  OriginalName : string;
  Unsigned : bool;
  ArrayDims : Z
}.
End Column.
Module Table.
Record t : Type := mk {
  Rel : option addr;
  Columns : list addr;
  Comment : string
}.
End Table.
Module Schema.
Record t : Type := mk {
  Comment : string;
  Name : string;
  Tables : list addr;
  Enums : list addr;
  CompositeTypes : list addr
}.
End Schema.
Module Catalog.
Record t : Type := mk {
  Comment : string;
  DefaultSchema : string;
  Name : string;
  Schemas : list addr
}.
End Catalog.
Module Override.
Record t : Type := mk {
  CodeType : list Byte.byte;
  DbType : string;
  Nullable : bool;
  Column : string;
  Table : option addr;
  ColumnName : string;
  Unsigned : bool
}.
End Override.
Module Codegen.
Record t : Type := mk {
  Out : string;
  Plugin : string;
  Options : list Byte.byte;
  Env : list string;
  Process : option addr;
  Wasm : option addr
}.
End Codegen.
Module Settings.
Record t : Type := mk {
  Version : string;
  Engine : string;
  Schema : list string;
  Queries : list string;
  Rename : gmap string string;
  Overrides : list addr;
  Codegen : option addr
}.
End Settings.
Module Parameter_.
Record t : Type := mk { Number : Z; Column : option addr }.
End Parameter_.
Module Query.
Record t : Type := mk {
  Text : string;
  Name : string;
  Cmd : string;
  Columns : list addr;
  Params : list addr;
  Comments : list string;
  Filename : string;
  InsertIntoTable : option addr
}.
End Query.
Module CodeGenRequest.
Record t : Type := mk {
  Settings : option addr;
  Catalog : option addr;
  Queries : list addr;
  SqlcVersion : string
}.
End CodeGenRequest.
End cell.

(** What a cell of the heap holds. The messages without pointers are
    the ones of the module [plugin]. *)
Inductive object : Type :=
| OIdentifier (x : plugin.Identifier.t)
| OColumn (x : cell.Column.t)
| OTable (x : cell.Table.t)
| OEnum (x : plugin.Enum.t)
| OCompositeType (x : plugin.CompositeType.t)
| OSchema (x : cell.Schema.t)
| OCatalog (x : cell.Catalog.t)
| OOverride (x : cell.Override.t)
| OProcess (x : plugin.Codegen_Process.t)
| OWASM (x : plugin.Codegen_WASM.t)
| OCodegen (x : cell.Codegen.t)
| OSettings (x : cell.Settings.t)
| OParameter (x : cell.Parameter_.t)
| OQuery (x : cell.Query.t)
| ORequest (x : cell.CodeGenRequest.t).

(** The heap: the cell of the address [a] is the [a]-th of the list,
    and a new cell is put at its end. *)
Definition heap := list object.

(** A run of a function of the shim: from a heap it panics, or it
    returns a value and the heap that it leaves. *)
Definition M (A : Type) : Type := heap -> outcome (A * heap).

Definition mret {A : Type} (a : A) : M A := fun h => Ret (a, h).

Definition mbind {A B : Type} (m : M A) (k : A -> M B) : M B :=
  fun h =>
    match m h with
    | Ret (a, h') => k a h'
    | Panic e => Panic e
    end.

Notation "'run' x '<-' m ';' k" := (mbind m (fun x => k))
  (at level 10, x name, m at level 100, k at level 200).

(** [&T{...}]: a new cell. *)
Definition alloc (o : object) : M addr :=
  fun h => Ret (length h, h ++ [o]).

(** The error of the run time at a nil pointer. *)
Definition nil_dereference : error :=
  "runtime error: invalid memory address or nil pointer dereference".

(** [p.f] for a pointer [p] that the shim does not test. *)
Definition deref {A : Type} (p : option A) : M A :=
  fun h =>
    match p with
    | Some x => Ret (x, h)
    | None => Panic nil_dereference
    end.

(** [v, err := f(); if err != nil { panic(err) }] in a run. *)
Definition mustM {A : Type} (r : result A) : M A :=
  fun h =>
    match r with
    | Ok a => Ret (a, h)
    | Err e => Panic e
    end.

(** The error of an assignment through an address that does not hold
    the expected cell; no run of the shim comes to it. *)
Definition bad_address : error := "no such cell".

(** [cg.f = v] for a pointer [cg] to a Codegen target. *)
Definition assign_Codegen (a : addr) (f : cell.Codegen.t -> cell.Codegen.t)
  : M unit :=
  fun h =>
    match h !! a with
    | Some (OCodegen cg) => Ret (tt, <[a := OCodegen (f cg)]> h)
    | _ => Panic bad_address
    end.

(** [out.f = v] for a pointer [out] to a column. *)
Definition assign_Column (a : addr) (f : cell.Column.t -> cell.Column.t)
  : M unit :=
  fun h =>
    match h !! a with
    | Some (OColumn c) => Ret (tt, <[a := OColumn (f c)]> h)
    | _ => Panic bad_address
    end.

(** The loop that builds a slice of pointers. *)
Fixpoint range_appendM {A : Type} (f : A -> M addr) (xs : list A)
    (out : list addr) : M (list addr) :=
  match xs with
  | [] => mret out
  | x :: xs' => run a <- f x; range_appendM f xs' (out ++ [a])
  end.

(** ** Reading a message back from the heap

    The message that an address stands for: the cell with the messages
    that its pointers stand for in the place of the pointers. There is
    none when an address has no cell, or a cell of another type. *)

Fixpoint traverse {A B : Type} (f : A -> option B) (xs : list A)
  : option (list B) :=
  match xs with
  | [] => Some []
  | x :: xs' =>
      match f x, traverse f xs' with
      | Some y, Some ys => Some (y :: ys)
      | _, _ => None
      end
  end.

(** A pointer: nil stands for nil. *)
Definition load_ptr {V : Type} (load : heap -> addr -> option V) (h : heap)
    (p : option addr) : option (option V) :=
  match p with
  | None => Some None
  | Some a =>
      match load h a with
      | Some v => Some (Some v)
      | None => None
      end
  end.

Definition load_Identifier (h : heap) (a : addr) : option plugin.Identifier.t :=
  match h !! a with
  | Some (OIdentifier x) => Some x
  | _ => None
  end.

Definition load_Enum (h : heap) (a : addr) : option plugin.Enum.t :=
  match h !! a with
  | Some (OEnum x) => Some x
  | _ => None
  end.

Definition load_CompositeType (h : heap) (a : addr)
  : option plugin.CompositeType.t :=
  match h !! a with
  | Some (OCompositeType x) => Some x
  | _ => None
  end.

Definition load_Process (h : heap) (a : addr) : option plugin.Codegen_Process.t :=
  match h !! a with
  | Some (OProcess x) => Some x
  | _ => None
  end.

Definition load_WASM (h : heap) (a : addr) : option plugin.Codegen_WASM.t :=
  match h !! a with
  | Some (OWASM x) => Some x
  | _ => None
  end.

Definition load_Column (h : heap) (a : addr) : option plugin.Column.t :=
  match h !! a with
  | Some (OColumn c) =>
      match load_ptr load_Identifier h (cell.Column.Table c),
            load_ptr load_Identifier h (cell.Column.Type_ c),
            load_ptr load_Identifier h (cell.Column.EmbedTable c) with
      | Some table, Some type, Some embed =>
          Some {| plugin.Column.Name := cell.Column.Name c;
                  plugin.Column.NotNull := cell.Column.NotNull c;
                  plugin.Column.IsArray := cell.Column.IsArray c;
                  plugin.Column.Comment := cell.Column.Comment c;
                  plugin.Column.Length := cell.Column.Length c;
                  plugin.Column.IsNamedParam := cell.Column.IsNamedParam c;
                  plugin.Column.IsFuncCall := cell.Column.IsFuncCall c;
                  plugin.Column.Table := table;
                  plugin.Column.Type_ := type;
                  plugin.Column.IsSqlcSlice := cell.Column.IsSqlcSlice c;
                  plugin.Column.EmbedTable := embed;
                  plugin.Column.OriginalName := cell.Column.OriginalName c;
                  plugin.Column.Unsigned := cell.Column.Unsigned c;
                  plugin.Column.ArrayDims := cell.Column.ArrayDims c |}
      | _, _, _ => None
      end
  | _ => None
  end.

Definition load_Table (h : heap) (a : addr) : option plugin.Table.t :=
  match h !! a with
  | Some (OTable t) =>
      match load_ptr load_Identifier h (cell.Table.Rel t),
            traverse (load_Column h) (cell.Table.Columns t) with
      | Some rel, Some columns =>
          Some {| plugin.Table.Rel := rel;
                  plugin.Table.Columns := columns;
                  plugin.Table.Comment := cell.Table.Comment t |}
      | _, _ => None
      end
  | _ => None
  end.

Definition load_Schema (h : heap) (a : addr) : option plugin.Schema.t :=
  match h !! a with
  | Some (OSchema s) =>
      match traverse (load_Table h) (cell.Schema.Tables s),
            traverse (load_Enum h) (cell.Schema.Enums s),
            traverse (load_CompositeType h) (cell.Schema.CompositeTypes s) with
      | Some tables, Some enums, Some cts =>
          Some {| plugin.Schema.Comment := cell.Schema.Comment s;
                  plugin.Schema.Name := cell.Schema.Name s;
                  plugin.Schema.Tables := tables;
                  plugin.Schema.Enums := enums;
                  plugin.Schema.CompositeTypes := cts |}
      | _, _, _ => None
      end
  | _ => None
  end.

Definition load_Catalog (h : heap) (a : addr) : option plugin.Catalog.t :=
  match h !! a with
  | Some (OCatalog c) =>
      match traverse (load_Schema h) (cell.Catalog.Schemas c) with
      | Some schemas =>
          Some {| plugin.Catalog.Comment := cell.Catalog.Comment c;
                  plugin.Catalog.DefaultSchema := cell.Catalog.DefaultSchema c;
                  plugin.Catalog.Name := cell.Catalog.Name c;
                  plugin.Catalog.Schemas := schemas |}
      | None => None
      end
  | _ => None
  end.

Definition load_Override (h : heap) (a : addr) : option plugin.Override.t :=
  match h !! a with
  | Some (OOverride o) =>
      match load_ptr load_Identifier h (cell.Override.Table o) with
      | Some table =>
          Some {| plugin.Override.CodeType := cell.Override.CodeType o;
                  plugin.Override.DbType := cell.Override.DbType o;
                  plugin.Override.Nullable := cell.Override.Nullable o;
                  plugin.Override.Column := cell.Override.Column o;
                  plugin.Override.Table := table;
                  plugin.Override.ColumnName := cell.Override.ColumnName o;
                  plugin.Override.Unsigned := cell.Override.Unsigned o |}
      | None => None
      end
  | _ => None
  end.

Definition load_Codegen (h : heap) (a : addr) : option plugin.Codegen.t :=
  match h !! a with
  | Some (OCodegen cg) =>
      match load_ptr load_Process h (cell.Codegen.Process cg),
            load_ptr load_WASM h (cell.Codegen.Wasm cg) with
      | Some process, Some wasm =>
          Some {| plugin.Codegen.Out := cell.Codegen.Out cg;
                  plugin.Codegen.Plugin := cell.Codegen.Plugin cg;
                  plugin.Codegen.Options := cell.Codegen.Options cg;
                  plugin.Codegen.Env := cell.Codegen.Env cg;
                  plugin.Codegen.Process := process;
                  plugin.Codegen.Wasm := wasm |}
      | _, _ => None
      end
  | _ => None
  end.

Definition load_Settings (h : heap) (a : addr) : option plugin.Settings.t :=
  match h !! a with
  | Some (OSettings s) =>
      match traverse (load_Override h) (cell.Settings.Overrides s),
            load_ptr load_Codegen h (cell.Settings.Codegen s) with
      | Some overrides, Some codegen =>
          Some {| plugin.Settings.Version := cell.Settings.Version s;
                  plugin.Settings.Engine := cell.Settings.Engine s;
                  plugin.Settings.Schema := cell.Settings.Schema s;
                  plugin.Settings.Queries := cell.Settings.Queries s;
                  plugin.Settings.Rename := cell.Settings.Rename s;
                  plugin.Settings.Overrides := overrides;
                  plugin.Settings.Codegen := codegen |}
      | _, _ => None
      end
  | _ => None
  end.

Definition load_Parameter (h : heap) (a : addr) : option plugin.Parameter_.t :=
  match h !! a with
  | Some (OParameter p) =>
      match load_ptr load_Column h (cell.Parameter_.Column p) with
      | Some column =>
          Some {| plugin.Parameter_.Number := cell.Parameter_.Number p;
                  plugin.Parameter_.Column := column |}
      | None => None
      end
  | _ => None
  end.

Definition load_Query (h : heap) (a : addr) : option plugin.Query.t :=
  match h !! a with
  | Some (OQuery q) =>
      match traverse (load_Column h) (cell.Query.Columns q),
            traverse (load_Parameter h) (cell.Query.Params q),
            load_ptr load_Identifier h (cell.Query.InsertIntoTable q) with
      | Some columns, Some params, Some iit =>
          Some {| plugin.Query.Text := cell.Query.Text q;
                  plugin.Query.Name := cell.Query.Name q;
                  plugin.Query.Cmd := cell.Query.Cmd q;
                  plugin.Query.Columns := columns;
                  plugin.Query.Params := params;
                  plugin.Query.Comments := cell.Query.Comments q;
                  plugin.Query.Filename := cell.Query.Filename q;
                  plugin.Query.InsertIntoTable := iit |}
      | _, _, _ => None
      end
  | _ => None
  end.

Definition load_CodeGenRequest (h : heap) (a : addr)
  : option plugin.CodeGenRequest.t :=
  match h !! a with
  | Some (ORequest r) =>
      match load_ptr load_Settings h (cell.CodeGenRequest.Settings r),
            load_ptr load_Catalog h (cell.CodeGenRequest.Catalog r),
            traverse (load_Query h) (cell.CodeGenRequest.Queries r) with
      | Some settings, Some catalog, Some queries =>
          Some {| plugin.CodeGenRequest.Settings := settings;
                  plugin.CodeGenRequest.Catalog := catalog;
                  plugin.CodeGenRequest.Queries := queries;
                  plugin.CodeGenRequest.SqlcVersion :=
                    cell.CodeGenRequest.SqlcVersion r |}
      | _, _, _ => None
      end
  | _ => None
  end.

(** ** The compiled model without its pointers

    The compiled model of the records without pointers, when no
    pointer that the shim dereferences is nil. *)

Definition check_Table (t : option ptr.Table.t) : option catalog.Table.t :=
  match t with
  | Some t =>
      match ptr.Table.Rel t, traverse id (ptr.Table.Columns t) with
      | Some rel, Some columns =>
          Some {| catalog.Table.Rel := rel;
                  catalog.Table.Columns := columns;
                  catalog.Table.Comment := ptr.Table.Comment t |}
      | _, _ => None
      end
  | None => None
  end.

Definition check_Type (typ : ptr.Type_) : option catalog.Type_ :=
  match typ with
  | ptr.EnumType (Some e) => Some (catalog.EnumType e)
  | ptr.CompositeTypeType (Some ct) => Some (catalog.CompositeTypeType ct)
  | ptr.OtherType => Some catalog.OtherType
  | _ => None
  end.

Definition check_Schema (s : option ptr.Schema.t) : option catalog.Schema.t :=
  match s with
  | Some s =>
      match traverse check_Table (ptr.Schema.Tables s),
            traverse check_Type (ptr.Schema.Types s) with
      | Some tables, Some types =>
          Some {| catalog.Schema.Name := ptr.Schema.Name s;
                  catalog.Schema.Tables := tables;
                  catalog.Schema.Types := types;
                  catalog.Schema.Comment := ptr.Schema.Comment s |}
      | _, _ => None
      end
  | None => None
  end.

Definition check_Catalog (c : option ptr.Catalog.t) : option catalog.Catalog.t :=
  match c with
  | Some c =>
      match traverse check_Schema (ptr.Catalog.Schemas c) with
      | Some schemas =>
          Some {| catalog.Catalog.Comment := ptr.Catalog.Comment c;
                  catalog.Catalog.DefaultSchema := ptr.Catalog.DefaultSchema c;
                  catalog.Catalog.Name := ptr.Catalog.Name c;
                  catalog.Catalog.Schemas := schemas |}
      | None => None
      end
  | None => None
  end.

Definition check_Parameter (p : ptr.Parameter_.t) : option compiler.Parameter_.t :=
  match ptr.Parameter_.Column p with
  | Some c =>
      Some {| compiler.Parameter_.Number := ptr.Parameter_.Number p;
              compiler.Parameter_.Column := c |}
  | None => None
  end.

Definition check_Query (q : option ptr.Query.t) : option compiler.Query.t :=
  match q with
  | Some q =>
      match traverse id (ptr.Query.Columns q),
            traverse check_Parameter (ptr.Query.Params q) with
      | Some columns, Some params =>
          Some {| compiler.Query.SQL := ptr.Query.SQL q;
                  compiler.Query.Metadata := ptr.Query.Metadata q;
                  compiler.Query.Columns := columns;
                  compiler.Query.Params := params;
                  compiler.Query.InsertIntoTable := ptr.Query.InsertIntoTable q |}
      | _, _ => None
      end
  | None => None
  end.

Definition check_Result (r : option ptr.Result.t) : option compiler.Result.t :=
  match r with
  | Some r =>
      match check_Catalog (ptr.Result.Catalog r),
            traverse check_Query (ptr.Result.Queries r) with
      | Some c, Some queries =>
          Some {| compiler.Result.Catalog := c;
                  compiler.Result.Queries := queries |}
      | _, _ => None
      end
  | None => None
  end.

(** The compiled model with every pointer set. *)

Definition point_Table (t : catalog.Table.t) : option ptr.Table.t :=
  Some {| ptr.Table.Rel := Some (catalog.Table.Rel t);
          ptr.Table.Columns := map Some (catalog.Table.Columns t);
          ptr.Table.Comment := catalog.Table.Comment t |}.

Definition point_Type (typ : catalog.Type_) : ptr.Type_ :=
  match typ with
  | catalog.EnumType e => ptr.EnumType (Some e)
  | catalog.CompositeTypeType ct => ptr.CompositeTypeType (Some ct)
  | catalog.OtherType => ptr.OtherType
  end.

Definition point_Schema (s : catalog.Schema.t) : option ptr.Schema.t :=
  Some {| ptr.Schema.Name := catalog.Schema.Name s;
          ptr.Schema.Tables := map point_Table (catalog.Schema.Tables s);
          ptr.Schema.Types := map point_Type (catalog.Schema.Types s);
          ptr.Schema.Comment := catalog.Schema.Comment s |}.

Definition point_Catalog (c : catalog.Catalog.t) : option ptr.Catalog.t :=
  Some {| ptr.Catalog.Comment := catalog.Catalog.Comment c;
          ptr.Catalog.DefaultSchema := catalog.Catalog.DefaultSchema c;
          ptr.Catalog.Name := catalog.Catalog.Name c;
          ptr.Catalog.Schemas := map point_Schema (catalog.Catalog.Schemas c) |}.

Definition point_Parameter (p : compiler.Parameter_.t) : ptr.Parameter_.t :=
  {| ptr.Parameter_.Number := compiler.Parameter_.Number p;
     ptr.Parameter_.Column := Some (compiler.Parameter_.Column p) |}.

Definition point_Query (q : compiler.Query.t) : option ptr.Query.t :=
  Some {| ptr.Query.SQL := compiler.Query.SQL q;
          ptr.Query.Metadata := compiler.Query.Metadata q;
          ptr.Query.Columns := map Some (compiler.Query.Columns q);
          ptr.Query.Params := map point_Parameter (compiler.Query.Params q);
          ptr.Query.InsertIntoTable := compiler.Query.InsertIntoTable q |}.

Definition point_Result (r : compiler.Result.t) : option ptr.Result.t :=
  Some {| ptr.Result.Catalog := point_Catalog (compiler.Result.Catalog r);
          ptr.Result.Queries := map point_Query (compiler.Result.Queries r) |}.

(** ** Sample inputs *)

(** Serialisers that always succeed, for the sample runs. *)
Definition sample_YAMLtoJSON (n : list Byte.byte) : result (list Byte.byte) := Ok n.

Definition sample_Marshal (g : goopts.ParsedGoType.t) : result (list Byte.byte) :=
  Ok (list_byte_of_string (goopts.ParsedGoType.TypeName g)).

Definition sample_process_plugin : config.Plugin.t :=
  {| config.Plugin.Name := "gen-py";
     config.Plugin.Env := ["PATH"];
     config.Plugin.Process := Some {| config.PluginProcess.Cmd := "sqlc-gen-py" |};
     config.Plugin.WASM := None |}.

Definition sample_wasm_plugin : config.Plugin.t :=
  {| config.Plugin.Name := "gen-py";
     config.Plugin.Env := ["HOME"];
     config.Plugin.Process := None;
     config.Plugin.WASM :=
       Some {| config.PluginWASM.URL := "https://example.org/gen.wasm";
               config.PluginWASM.SHA256 := "abc" |} |}.

(** A registry entry that declares neither a process nor a module. *)
Definition sample_bare_plugin : config.Plugin.t :=
  {| config.Plugin.Name := "gen-kt";
     config.Plugin.Env := ["PATH"];
     config.Plugin.Process := None;
     config.Plugin.WASM := None |}.

(** A registry entry that declares both. *)
Definition sample_double_plugin : config.Plugin.t :=
  {| config.Plugin.Name := "gen-rs";
     config.Plugin.Env := [];
     config.Plugin.Process := Some {| config.PluginProcess.Cmd := "sqlc-gen-rs" |};
     config.Plugin.WASM :=
       Some {| config.PluginWASM.URL := "https://example.org/rs.wasm";
               config.PluginWASM.SHA256 := "def" |} |}.

Definition sample_override (column : string) : config.Override.t :=
  {| config.Override.DBType := "uuid";
     config.Override.Nullable := false;
     config.Override.Unsigned := false;
     config.Override.Column := column;
     config.Override.GoImportPath := "github.com/google/uuid";
     config.Override.GoPackage := "uuid";
     config.Override.GoTypeName := "UUID";
     config.Override.GoBasicType := false;
     config.Override.GoStructTags := {[ "json" := "id" ]} |}.

Definition sample_settings (plugins : list config.Plugin.t) (name : string)
  : config.CombinedSettings.t (list Byte.byte) :=
  {| config.CombinedSettings.Global :=
       {| config.Config.Version := "2"; config.Config.Plugins := plugins |};
     config.CombinedSettings.Package :=
       {| config.SQL.Engine := "postgresql";
          config.SQL.Schema := ["schema.sql"];
          config.SQL.Queries := ["query.sql"] |};
     config.CombinedSettings.Rename := {[ "id" := "ID" ]};
     config.CombinedSettings.Overrides :=
       [sample_override "orders.id"; sample_override "mydb.public.orders.id"];
     config.CombinedSettings.Codegen :=
       {| config.Codegen.Out := "gen";
          config.Codegen.Plugin := name;
          config.Codegen.Options := [] |} |}.

(** The registry of the samples: the name [gen-py] is declared twice,
    [gen-kt] without a way of running it, [gen-rs] with two. *)
Definition sample_registry : list config.Plugin.t :=
  [sample_bare_plugin; sample_process_plugin; sample_wasm_plugin;
   sample_double_plugin].

Definition sample_py_settings : config.CombinedSettings.t (list Byte.byte) :=
  sample_settings sample_registry "gen-py".

Definition sample_kt_settings : config.CombinedSettings.t (list Byte.byte) :=
  sample_settings sample_registry "gen-kt".

Definition sample_rs_settings : config.CombinedSettings.t (list Byte.byte) :=
  sample_settings sample_registry "gen-rs".

Definition sample_go_settings : config.CombinedSettings.t (list Byte.byte) :=
  sample_settings sample_registry "golang".

(** A serialiser that fails, to run the abort path. *)
Definition failing_Marshal (g : goopts.ParsedGoType.t) : result (list Byte.byte) :=
  Err "json: unsupported type".

Definition sample_type (name : string) : ast.TypeName.t :=
  {| ast.TypeName.Catalog := ""; ast.TypeName.Schema := "pg_catalog";
     ast.TypeName.Name := name |}.

Definition sample_rel (name : string) : ast.TableName.t :=
  {| ast.TableName.Catalog := ""; ast.TableName.Schema := "public";
     ast.TableName.Name := name |}.

Definition sample_catalog_column (name : string) (len : option Z) : catalog.Column.t :=
  {| catalog.Column.Name := name;
     catalog.Column.Type_ := sample_type "varchar";
     catalog.Column.IsNotNull := true;
     catalog.Column.IsUnsigned := false;
     catalog.Column.IsArray := false;
     catalog.Column.ArrayDims := 0;
     catalog.Column.Comment := "";
     catalog.Column.Length := len |}.

Definition sample_table : catalog.Table.t :=
  {| catalog.Table.Rel := sample_rel "orders";
     catalog.Table.Columns :=
       [sample_catalog_column "id" None; sample_catalog_column "ref" (Some 12%Z)];
     catalog.Table.Comment := "" |}.

Definition sample_catalog : catalog.Catalog.t :=
  {| catalog.Catalog.Comment := "";
     catalog.Catalog.DefaultSchema := "public";
     catalog.Catalog.Name := "";
     catalog.Catalog.Schemas :=
       [ {| catalog.Schema.Name := "public";
            catalog.Schema.Tables := [sample_table];
            catalog.Schema.Types :=
              [catalog.EnumType
                 {| catalog.Enum.Name := "status";
                    catalog.Enum.Vals := ["open"; "closed"];
                    catalog.Enum.Comment := "" |};
               catalog.OtherType];
            catalog.Schema.Comment := "" |} ] |}.

Definition sample_query_column (name : string) (len : option Z)
    (ty : option ast.TypeName.t) : compiler.Column.t :=
  {| compiler.Column.Name := name;
     compiler.Column.OriginalName := name;
     compiler.Column.DataType := "any";
     compiler.Column.NotNull := true;
     compiler.Column.Unsigned := false;
     compiler.Column.IsArray := false;
     compiler.Column.ArrayDims := 0;
     compiler.Column.Comment := "";
     compiler.Column.Length := len;
     compiler.Column.IsNamedParam := false;
     compiler.Column.IsFuncCall := false;
     compiler.Column.IsSqlcSlice := false;
     compiler.Column.Type_ := ty;
     compiler.Column.Table := Some (sample_rel "orders");
     compiler.Column.EmbedTable := None |}.

Definition sample_query (name : string) (target : option ast.TableName.t)
  : compiler.Query.t :=
  {| compiler.Query.SQL := "INSERT INTO orders (id) VALUES ($1) RETURNING id";
     compiler.Query.Metadata :=
       {| compiler.Metadata.Name := name;
          compiler.Metadata.Cmd := ":one";
          compiler.Metadata.Comments := [];
          compiler.Metadata.Filename := "query.sql" |};
     compiler.Query.Columns :=
       [sample_query_column "id" None (Some (sample_type "uuid"))];
     compiler.Query.Params :=
       [ {| compiler.Parameter_.Number := 1;
            compiler.Parameter_.Column := sample_query_column "id" (Some 0%Z) None |} ];
     compiler.Query.InsertIntoTable := target |}.

Definition sample_result : compiler.Result.t :=
  {| compiler.Result.Catalog := sample_catalog;
     compiler.Result.Queries :=
       [sample_query "CreateOrder" (Some (sample_rel "orders"));
        sample_query "GetOrder" None] |}.

(** An override of a type that the serialiser below refuses. *)
Definition sample_refused_override : config.Override.t :=
  {| config.Override.DBType := "jsonb";
     config.Override.Nullable := true;
     config.Override.Unsigned := false;
     config.Override.Column := "";
     config.Override.GoImportPath := "";
     config.Override.GoPackage := "";
     config.Override.GoTypeName := "chan int";
     config.Override.GoBasicType := true;
     config.Override.GoStructTags := ∅ |}.

(** A serialiser that succeeds on the type [UUID] only. *)
Definition picky_Marshal (g : goopts.ParsedGoType.t) : result (list Byte.byte) :=
  if String.eqb (goopts.ParsedGoType.TypeName g) "UUID"
  then Ok (list_byte_of_string "UUID")
  else Err "json: unsupported type".

(** A conversion of the options that fails. *)
Definition failing_YAMLtoJSON (n : list Byte.byte) : result (list Byte.byte) :=
  Err "yaml: unmarshal errors".

(** Settings whose second override is refused by [picky_Marshal]. *)
Definition sample_refused_settings : config.CombinedSettings.t (list Byte.byte) :=
  {| config.CombinedSettings.Global :=
       {| config.Config.Version := "2"; config.Config.Plugins := sample_registry |};
     config.CombinedSettings.Package :=
       {| config.SQL.Engine := "postgresql";
          config.SQL.Schema := ["schema.sql"];
          config.SQL.Queries := ["query.sql"] |};
     config.CombinedSettings.Rename := ∅;
     config.CombinedSettings.Overrides :=
       [sample_override "orders.id"; sample_refused_override;
        sample_override "public.orders.id"];
     config.CombinedSettings.Codegen :=
       {| config.Codegen.Out := "gen";
          config.Codegen.Plugin := "gen-py";
          config.Codegen.Options := [] |} |}.

(** Two registries without a repeated name, with the same entries. *)
Definition sample_unique_registry : list config.Plugin.t :=
  [sample_bare_plugin; sample_process_plugin; sample_double_plugin].

Definition sample_swapped_registry : list config.Plugin.t :=
  [sample_process_plugin; sample_bare_plugin; sample_double_plugin].

(** A compiled result with the default schema of the samples, and
    nothing else. *)
Definition sample_bare_result : compiler.Result.t :=
  {| compiler.Result.Catalog :=
       {| catalog.Catalog.Comment := "";
          catalog.Catalog.DefaultSchema := "public";
          catalog.Catalog.Name := "";
          catalog.Catalog.Schemas := [] |};
     compiler.Result.Queries := [] |}.

(** The query column of the column [ref] of the sample table. *)
Definition sample_ref_column : compiler.Column.t :=
  {| compiler.Column.Name := "ref";
     compiler.Column.OriginalName := "";
     compiler.Column.DataType := "varchar";
     compiler.Column.NotNull := true;
     compiler.Column.Unsigned := false;
     compiler.Column.IsArray := false;
     compiler.Column.ArrayDims := 0;
     compiler.Column.Comment := "";
     compiler.Column.Length := Some 12%Z;
     compiler.Column.IsNamedParam := false;
     compiler.Column.IsFuncCall := false;
     compiler.Column.IsSqlcSlice := false;
     compiler.Column.Type_ := Some (sample_type "varchar");
     compiler.Column.Table := Some (sample_rel "orders");
     compiler.Column.EmbedTable := None |}.

(** A compiled result whose catalog is nil. *)
Definition sample_nil_catalog : option ptr.Result.t :=
  Some {| ptr.Result.Catalog := None; ptr.Result.Queries := [] |}.

(** The sample result with a nil column in the table of its catalog. *)
Definition sample_nil_column : option ptr.Result.t :=
  Some {| ptr.Result.Catalog :=
            Some {| ptr.Catalog.Comment := "";
                    ptr.Catalog.DefaultSchema := "public";
                    ptr.Catalog.Name := "";
                    ptr.Catalog.Schemas :=
                      [Some {| ptr.Schema.Name := "public";
                               ptr.Schema.Tables :=
                                 [Some {| ptr.Table.Rel := Some (sample_rel "orders");
                                          ptr.Table.Columns :=
                                            [Some (sample_catalog_column "id" None);
                                             None];
                                          ptr.Table.Comment := "" |}];
                               ptr.Schema.Types := [];
                               ptr.Schema.Comment := "" |}] |};
          ptr.Result.Queries := [] |}.

(** ** The shim *)

Section Shim.

(** [yaml.Node], and the two serialisers and the version constant that
    the shim takes from other packages: [convert.YAMLtoJSON],
    [json.Marshal] at a [*goopts.ParsedGoType], and [info.Version]. *)
Variable Node : Type.
Variable YAMLtoJSON : Node -> result (list Byte.byte).
Variable json_Marshal : goopts.ParsedGoType.t -> result (list Byte.byte).
Variable info_Version : string.

Definition pluginGoType (o : config.Override.t) : goopts.ParsedGoType.t :=
  {| goopts.ParsedGoType.ImportPath := config.Override.GoImportPath o;
     goopts.ParsedGoType.Package := config.Override.GoPackage o;
     goopts.ParsedGoType.TypeName := config.Override.GoTypeName o;
     goopts.ParsedGoType.BasicType := config.Override.GoBasicType o;
     goopts.ParsedGoType.StructTags := config.Override.GoStructTags o |}.

(** [colParts[i]], used only below [len(colParts)]. *)
Definition index (colParts : list string) (i : nat) : string :=
  nth i colParts "".

Definition pluginOverride (r : compiler.Result.t) (o : config.Override.t)
  : outcome plugin.Override.t :=
  let column := "" in
  let table := plugin.Identifier.mk "" "" "" in
  let '(table, column) :=
    if negb (String.eqb (config.Override.Column o) "") then
      let colParts := Split (config.Override.Column o) "." in
      match length colParts with
      | 2%nat =>
          (plugin.Identifier.mk
             (plugin.Identifier.Catalog table)
             (catalog.Catalog.DefaultSchema (compiler.Result.Catalog r))
             (index colParts 0),
           index colParts 1)
      | 3%nat =>
          (plugin.Identifier.mk
             (plugin.Identifier.Catalog table)
             (index colParts 0)
             (index colParts 1),
           index colParts 2)
      | 4%nat =>
          (plugin.Identifier.mk
             (index colParts 0)
             (index colParts 1)
             (index colParts 2),
           index colParts 3)
      | _ => (table, column)
      end
    else (table, column) in
  let* goTypeJSON := must (json_Marshal (pluginGoType o)) in
  Ret {| plugin.Override.CodeType := goTypeJSON;
         plugin.Override.DbType := config.Override.DBType o;
         plugin.Override.Nullable := config.Override.Nullable o;
         plugin.Override.Unsigned := config.Override.Unsigned o;
         plugin.Override.Column := config.Override.Column o;
         plugin.Override.ColumnName := column;
         plugin.Override.Table := Some table |}.

Definition pluginProcess (p : config.Plugin.t) : option plugin.Codegen_Process.t :=
  match config.Plugin.Process p with
  | Some proc =>
      Some {| plugin.Codegen_Process.Cmd := config.PluginProcess.Cmd proc |}
  | None => None
  end.

Definition pluginWASM (p : config.Plugin.t) : option plugin.Codegen_WASM.t :=
  match config.Plugin.WASM p with
  | Some w =>
      Some {| plugin.Codegen_WASM.Url := config.PluginWASM.URL w;
              plugin.Codegen_WASM.Sha256 := config.PluginWASM.SHA256 w |}
  | None => None
  end.

(** The scan of [cs.Global.Plugins] in [pluginCodegen]: it returns at
    the first entry of the requested name, and falls out of the loop
    with [cg] as it was built when there is none. *)
Fixpoint pluginCodegen_scan (plugins : list config.Plugin.t)
    (s : config.Codegen.t Node) (cg : plugin.Codegen.t) : plugin.Codegen.t :=
  match plugins with
  | [] => cg
  | p :: plugins' =>
      if String.eqb (config.Plugin.Name p) (config.Codegen.Plugin s) then
        {| plugin.Codegen.Out := plugin.Codegen.Out cg;
           plugin.Codegen.Plugin := plugin.Codegen.Plugin cg;
           plugin.Codegen.Options := plugin.Codegen.Options cg;
           plugin.Codegen.Env := config.Plugin.Env p;
           plugin.Codegen.Process := pluginProcess p;
           plugin.Codegen.Wasm := pluginWASM p |}
      else pluginCodegen_scan plugins' s cg
  end.

Definition pluginCodegen (cs : config.CombinedSettings.t Node)
    (s : config.Codegen.t Node) : outcome plugin.Codegen.t :=
  let* opts := must (YAMLtoJSON (config.Codegen.Options s)) in
  let cg := {| plugin.Codegen.Out := config.Codegen.Out s;
               plugin.Codegen.Plugin := config.Codegen.Plugin s;
               plugin.Codegen.Options := opts;
               plugin.Codegen.Env := [];
               plugin.Codegen.Process := None;
               plugin.Codegen.Wasm := None |} in
  Ret (pluginCodegen_scan
         (config.Config.Plugins (config.CombinedSettings.Global cs)) s cg).

Definition pluginSettings (r : compiler.Result.t)
    (cs : config.CombinedSettings.t Node) : outcome plugin.Settings.t :=
  let* overrides :=
    range_append_from (pluginOverride r) (config.CombinedSettings.Overrides cs) [] in
  let* codegen := pluginCodegen cs (config.CombinedSettings.Codegen cs) in
  Ret {| plugin.Settings.Version :=
           config.Config.Version (config.CombinedSettings.Global cs);
         plugin.Settings.Engine :=
           config.SQL.Engine (config.CombinedSettings.Package cs);
         plugin.Settings.Schema :=
           config.SQL.Schema (config.CombinedSettings.Package cs);
         plugin.Settings.Queries :=
           config.SQL.Queries (config.CombinedSettings.Package cs);
         plugin.Settings.Overrides := overrides;
         plugin.Settings.Rename := config.CombinedSettings.Rename cs;
         plugin.Settings.Codegen := Some codegen |}.

(** The element that the innermost loop of [pluginCatalog] appends for
    the column [c] of the table [t]. *)
Definition pluginCatalog_column (t : catalog.Table.t) (c : catalog.Column.t)
  : plugin.Column.t :=
  let l := (-1)%Z in
  let l := match catalog.Column.Length c with
           | Some n => n
           | None => l
           end in
  {| plugin.Column.Name := catalog.Column.Name c;
     plugin.Column.Type_ :=
       Some {| plugin.Identifier.Catalog :=
                 ast.TypeName.Catalog (catalog.Column.Type_ c);
               plugin.Identifier.Schema :=
                 ast.TypeName.Schema (catalog.Column.Type_ c);
               plugin.Identifier.Name :=
                 ast.TypeName.Name (catalog.Column.Type_ c) |};
     plugin.Column.Comment := catalog.Column.Comment c;
     plugin.Column.NotNull := catalog.Column.IsNotNull c;
     plugin.Column.Unsigned := catalog.Column.IsUnsigned c;
     plugin.Column.IsArray := catalog.Column.IsArray c;
     plugin.Column.ArrayDims := int32 (catalog.Column.ArrayDims c);
     plugin.Column.Length := int32 l;
     plugin.Column.Table :=
       Some {| plugin.Identifier.Catalog :=
                 ast.TableName.Catalog (catalog.Table.Rel t);
               plugin.Identifier.Schema :=
                 ast.TableName.Schema (catalog.Table.Rel t);
               plugin.Identifier.Name :=
                 ast.TableName.Name (catalog.Table.Rel t) |};
     plugin.Column.OriginalName := "";
     plugin.Column.IsNamedParam := false;
     plugin.Column.IsFuncCall := false;
     plugin.Column.IsSqlcSlice := false;
     plugin.Column.EmbedTable := None |}.

(** The element that the loop over [s.Tables] appends for [t]. *)
Definition pluginCatalog_table (t : catalog.Table.t) : plugin.Table.t :=
  let columns := range_append (pluginCatalog_column t) (catalog.Table.Columns t) in
  {| plugin.Table.Rel :=
       Some {| plugin.Identifier.Catalog :=
                 ast.TableName.Catalog (catalog.Table.Rel t);
               plugin.Identifier.Schema :=
                 ast.TableName.Schema (catalog.Table.Rel t);
               plugin.Identifier.Name :=
                 ast.TableName.Name (catalog.Table.Rel t) |};
     plugin.Table.Columns := columns;
     plugin.Table.Comment := catalog.Table.Comment t |}.

(** The loop over [s.Types]: a type switch with two cases and no
    default, each case appending to its own slice. *)
Definition pluginCatalog_types (types : list catalog.Type_)
  : list plugin.Enum.t * list plugin.CompositeType.t :=
  fold_left
    (fun '(enums, cts) typ =>
       match typ with
       | catalog.EnumType typ =>
           (enums ++ [ {| plugin.Enum.Name := catalog.Enum.Name typ;
                          plugin.Enum.Comment := catalog.Enum.Comment typ;
                          plugin.Enum.Vals := catalog.Enum.Vals typ |} ],
            cts)
       | catalog.CompositeTypeType typ =>
           (enums,
            cts ++ [ {| plugin.CompositeType.Name := catalog.CompositeType.Name typ;
                        plugin.CompositeType.Comment :=
                          catalog.CompositeType.Comment typ |} ])
       | catalog.OtherType => (enums, cts)
       end)
    types ([], []).

(** The element that the loop over [c.Schemas] appends for [s]. *)
Definition pluginCatalog_schema (s : catalog.Schema.t) : plugin.Schema.t :=
  let '(enums, cts) := pluginCatalog_types (catalog.Schema.Types s) in
  let tables := range_append pluginCatalog_table (catalog.Schema.Tables s) in
  {| plugin.Schema.Comment := catalog.Schema.Comment s;
     plugin.Schema.Name := catalog.Schema.Name s;
     plugin.Schema.Tables := tables;
     plugin.Schema.Enums := enums;
     plugin.Schema.CompositeTypes := cts |}.

Definition pluginCatalog (c : catalog.Catalog.t) : plugin.Catalog.t :=
  let schemas := range_append pluginCatalog_schema (catalog.Catalog.Schemas c) in
  {| plugin.Catalog.Name := catalog.Catalog.Name c;
     plugin.Catalog.DefaultSchema := catalog.Catalog.DefaultSchema c;
     plugin.Catalog.Comment := catalog.Catalog.Comment c;
     plugin.Catalog.Schemas := schemas |}.

(** [&plugin.Identifier{Catalog: n.Catalog, Schema: n.Schema, Name: n.Name}]
    for a table name [n]. *)
Definition tableIdentifier (n : ast.TableName.t) : plugin.Identifier.t :=
  {| plugin.Identifier.Catalog := ast.TableName.Catalog n;
     plugin.Identifier.Schema := ast.TableName.Schema n;
     plugin.Identifier.Name := ast.TableName.Name n |}.

Definition pluginQueryColumn (c : compiler.Column.t) : plugin.Column.t :=
  let l := (-1)%Z in
  let l := match compiler.Column.Length c with
           | Some n => n
           | None => l
           end in
  let out_Type :=
    match compiler.Column.Type_ c with
    | Some ty =>
        Some {| plugin.Identifier.Catalog := ast.TypeName.Catalog ty;
                plugin.Identifier.Schema := ast.TypeName.Schema ty;
                plugin.Identifier.Name := ast.TypeName.Name ty |}
    | None =>
        Some {| plugin.Identifier.Catalog := "";
                plugin.Identifier.Schema := "";
                plugin.Identifier.Name := compiler.Column.DataType c |}
    end in
  let out_Table :=
    match compiler.Column.Table c with
    | Some n => Some (tableIdentifier n)
    | None => None
    end in
  let out_EmbedTable :=
    match compiler.Column.EmbedTable c with
    | Some n => Some (tableIdentifier n)
    | None => None
    end in
  {| plugin.Column.Name := compiler.Column.Name c;
     plugin.Column.OriginalName := compiler.Column.OriginalName c;
     plugin.Column.Comment := compiler.Column.Comment c;
     plugin.Column.NotNull := compiler.Column.NotNull c;
     plugin.Column.Unsigned := compiler.Column.Unsigned c;
     plugin.Column.IsArray := compiler.Column.IsArray c;
     plugin.Column.ArrayDims := int32 (compiler.Column.ArrayDims c);
     plugin.Column.Length := int32 l;
     plugin.Column.IsNamedParam := compiler.Column.IsNamedParam c;
     plugin.Column.IsFuncCall := compiler.Column.IsFuncCall c;
     plugin.Column.IsSqlcSlice := compiler.Column.IsSqlcSlice c;
     plugin.Column.Type_ := out_Type;
     plugin.Column.Table := out_Table;
     plugin.Column.EmbedTable := out_EmbedTable |}.

Definition pluginQueryParam (p : compiler.Parameter_.t) : plugin.Parameter_.t :=
  {| plugin.Parameter_.Number := int32 (compiler.Parameter_.Number p);
     plugin.Parameter_.Column :=
       Some (pluginQueryColumn (compiler.Parameter_.Column p)) |}.

(** The element that the loop of [pluginQueries] appends for [q]. *)
Definition pluginQueries_query (q : compiler.Query.t) : plugin.Query.t :=
  let columns := range_append pluginQueryColumn (compiler.Query.Columns q) in
  let params := range_append pluginQueryParam (compiler.Query.Params q) in
  let iit :=
    match compiler.Query.InsertIntoTable q with
    | Some n => Some (tableIdentifier n)
    | None => None
    end in
  {| plugin.Query.Name := compiler.Metadata.Name (compiler.Query.Metadata q);
     plugin.Query.Cmd := compiler.Metadata.Cmd (compiler.Query.Metadata q);
     plugin.Query.Text := compiler.Query.SQL q;
     plugin.Query.Comments := compiler.Metadata.Comments (compiler.Query.Metadata q);
     plugin.Query.Columns := columns;
     plugin.Query.Params := params;
     plugin.Query.Filename := compiler.Metadata.Filename (compiler.Query.Metadata q);
     plugin.Query.InsertIntoTable := iit |}.

Definition pluginQueries (r : compiler.Result.t) : list plugin.Query.t :=
  range_append pluginQueries_query (compiler.Result.Queries r).

Definition codeGenRequest (r : compiler.Result.t)
    (settings : config.CombinedSettings.t Node) : outcome plugin.CodeGenRequest.t :=
  let* s := pluginSettings r settings in
  Ret {| plugin.CodeGenRequest.Settings := Some s;
         plugin.CodeGenRequest.Catalog :=
           Some (pluginCatalog (compiler.Result.Catalog r));
         plugin.CodeGenRequest.Queries := pluginQueries r;
         plugin.CodeGenRequest.SqlcVersion := info_Version |}.


(** ** The shim on the heap

    The functions of the shim once more, on the compiled model with its
    pointers and with the messages allocated on the heap. A run panics
    where the function above panics and where the program dereferences
    a nil pointer; it returns the address of the message. A local
    variable of a structure type is a value until its address is
    taken; an assignment through a pointer changes the cell. *)

Definition pluginOverrideM (r : option ptr.Result.t) (o : config.Override.t)
  : M addr :=
  let column := "" in
  let table := plugin.Identifier.mk "" "" "" in
  run resolved <-
    (if negb (String.eqb (config.Override.Column o) "") then
       let colParts := Split (config.Override.Column o) "." in
       match length colParts with
       | 2%nat =>
           run r' <- deref r;
           run c <- deref (ptr.Result.Catalog r');
           mret (plugin.Identifier.mk
                   (plugin.Identifier.Catalog table)
                   (ptr.Catalog.DefaultSchema c)
                   (index colParts 0),
                 index colParts 1)
       | 3%nat =>
           mret (plugin.Identifier.mk
                   (plugin.Identifier.Catalog table)
                   (index colParts 0)
                   (index colParts 1),
                 index colParts 2)
       | 4%nat =>
           mret (plugin.Identifier.mk
                   (index colParts 0)
                   (index colParts 1)
                   (index colParts 2),
                 index colParts 3)
       | _ => mret (table, column)
       end
     else mret (table, column));
  run goTypeJSON <- mustM (json_Marshal (pluginGoType o));
  run table' <- alloc (OIdentifier (fst resolved));
  alloc (OOverride
           {| cell.Override.CodeType := goTypeJSON;
              cell.Override.DbType := config.Override.DBType o;
              cell.Override.Nullable := config.Override.Nullable o;
              cell.Override.Unsigned := config.Override.Unsigned o;
              cell.Override.Column := config.Override.Column o;
              cell.Override.ColumnName := snd resolved;
              cell.Override.Table := Some table' |}).

Definition pluginProcessM (p : config.Plugin.t) : M (option addr) :=
  match config.Plugin.Process p with
  | Some proc =>
      run a <- alloc (OProcess
                        {| plugin.Codegen_Process.Cmd :=
                             config.PluginProcess.Cmd proc |});
      mret (Some a)
  | None => mret None
  end.

Definition pluginWASMM (p : config.Plugin.t) : M (option addr) :=
  match config.Plugin.WASM p with
  | Some w =>
      run a <- alloc (OWASM
                        {| plugin.Codegen_WASM.Url := config.PluginWASM.URL w;
                           plugin.Codegen_WASM.Sha256 := config.PluginWASM.SHA256 w |});
      mret (Some a)
  | None => mret None
  end.

Definition set_Env (env : list string) (cg : cell.Codegen.t) : cell.Codegen.t :=
  {| cell.Codegen.Out := cell.Codegen.Out cg;
     cell.Codegen.Plugin := cell.Codegen.Plugin cg;
     cell.Codegen.Options := cell.Codegen.Options cg;
     cell.Codegen.Env := env;
     cell.Codegen.Process := cell.Codegen.Process cg;
     cell.Codegen.Wasm := cell.Codegen.Wasm cg |}.

Definition set_Process (p : option addr) (cg : cell.Codegen.t) : cell.Codegen.t :=
  {| cell.Codegen.Out := cell.Codegen.Out cg;
     cell.Codegen.Plugin := cell.Codegen.Plugin cg;
     cell.Codegen.Options := cell.Codegen.Options cg;
     cell.Codegen.Env := cell.Codegen.Env cg;
     cell.Codegen.Process := p;
     cell.Codegen.Wasm := cell.Codegen.Wasm cg |}.

Definition set_Wasm (p : option addr) (cg : cell.Codegen.t) : cell.Codegen.t :=
  {| cell.Codegen.Out := cell.Codegen.Out cg;
     cell.Codegen.Plugin := cell.Codegen.Plugin cg;
     cell.Codegen.Options := cell.Codegen.Options cg;
     cell.Codegen.Env := cell.Codegen.Env cg;
     cell.Codegen.Process := cell.Codegen.Process cg;
     cell.Codegen.Wasm := p |}.

Fixpoint pluginCodegen_scanM (plugins : list config.Plugin.t)
    (s : config.Codegen.t Node) (cg : addr) : M addr :=
  match plugins with
  | [] => mret cg
  | p :: plugins' =>
      if String.eqb (config.Plugin.Name p) (config.Codegen.Plugin s) then
        run _ <- assign_Codegen cg (set_Env (config.Plugin.Env p));
        run process <- pluginProcessM p;
        run _ <- assign_Codegen cg (set_Process process);
        run wasm <- pluginWASMM p;
        run _ <- assign_Codegen cg (set_Wasm wasm);
        mret cg
      else pluginCodegen_scanM plugins' s cg
  end.

Definition pluginCodegenM (cs : config.CombinedSettings.t Node)
    (s : config.Codegen.t Node) : M addr :=
  run opts <- mustM (YAMLtoJSON (config.Codegen.Options s));
  run cg <- alloc (OCodegen
                     {| cell.Codegen.Out := config.Codegen.Out s;
                        cell.Codegen.Plugin := config.Codegen.Plugin s;
                        cell.Codegen.Options := opts;
                        cell.Codegen.Env := [];
                        cell.Codegen.Process := None;
                        cell.Codegen.Wasm := None |});
  pluginCodegen_scanM
    (config.Config.Plugins (config.CombinedSettings.Global cs)) s cg.

Definition pluginSettingsM (r : option ptr.Result.t)
    (cs : config.CombinedSettings.t Node) : M addr :=
  run overrides <-
    range_appendM (pluginOverrideM r) (config.CombinedSettings.Overrides cs) [];
  run codegen <- pluginCodegenM cs (config.CombinedSettings.Codegen cs);
  alloc (OSettings
           {| cell.Settings.Version :=
                config.Config.Version (config.CombinedSettings.Global cs);
              cell.Settings.Engine :=
                config.SQL.Engine (config.CombinedSettings.Package cs);
              cell.Settings.Schema :=
                config.SQL.Schema (config.CombinedSettings.Package cs);
              cell.Settings.Queries :=
                config.SQL.Queries (config.CombinedSettings.Package cs);
              cell.Settings.Overrides := overrides;
              cell.Settings.Rename := config.CombinedSettings.Rename cs;
              cell.Settings.Codegen := Some codegen |}).

(** The body of the innermost loop of [pluginCatalog]. *)
Definition pluginCatalog_columnM (t : ptr.Table.t) (c : option catalog.Column.t)
  : M addr :=
  run c <- deref c;
  let l := (-1)%Z in
  let l := match catalog.Column.Length c with
           | Some n => n
           | None => l
           end in
  run type <- alloc (OIdentifier
                       {| plugin.Identifier.Catalog :=
                            ast.TypeName.Catalog (catalog.Column.Type_ c);
                          plugin.Identifier.Schema :=
                            ast.TypeName.Schema (catalog.Column.Type_ c);
                          plugin.Identifier.Name :=
                            ast.TypeName.Name (catalog.Column.Type_ c) |});
  run rel <- deref (ptr.Table.Rel t);
  run table <- alloc (OIdentifier
                        {| plugin.Identifier.Catalog := ast.TableName.Catalog rel;
                           plugin.Identifier.Schema := ast.TableName.Schema rel;
                           plugin.Identifier.Name := ast.TableName.Name rel |});
  alloc (OColumn
           {| cell.Column.Name := catalog.Column.Name c;
              cell.Column.Type_ := Some type;
              cell.Column.Comment := catalog.Column.Comment c;
              cell.Column.NotNull := catalog.Column.IsNotNull c;
              cell.Column.Unsigned := catalog.Column.IsUnsigned c;
              cell.Column.IsArray := catalog.Column.IsArray c;
              cell.Column.ArrayDims := int32 (catalog.Column.ArrayDims c);
              cell.Column.Length := int32 l;
              cell.Column.Table := Some table;
              cell.Column.OriginalName := "";
              cell.Column.IsNamedParam := false;
              cell.Column.IsFuncCall := false;
              cell.Column.IsSqlcSlice := false;
              cell.Column.EmbedTable := None |}).

(** The body of the loop over [s.Tables]. *)
Definition pluginCatalog_tableM (t : option ptr.Table.t) : M addr :=
  run t <- deref t;
  run columns <- range_appendM (pluginCatalog_columnM t) (ptr.Table.Columns t) [];
  run rel <- deref (ptr.Table.Rel t);
  run rel' <- alloc (OIdentifier
                       {| plugin.Identifier.Catalog := ast.TableName.Catalog rel;
                          plugin.Identifier.Schema := ast.TableName.Schema rel;
                          plugin.Identifier.Name := ast.TableName.Name rel |});
  alloc (OTable
           {| cell.Table.Rel := Some rel';
              cell.Table.Columns := columns;
              cell.Table.Comment := ptr.Table.Comment t |}).

(** The loop over [s.Types], from the two slices built so far. *)
Fixpoint pluginCatalog_typesM (types : list ptr.Type_)
    (enums cts : list addr) : M (list addr * list addr) :=
  match types with
  | [] => mret (enums, cts)
  | ptr.EnumType typ :: types' =>
      run typ <- deref typ;
      run a <- alloc (OEnum
                        {| plugin.Enum.Name := catalog.Enum.Name typ;
                           plugin.Enum.Comment := catalog.Enum.Comment typ;
                           plugin.Enum.Vals := catalog.Enum.Vals typ |});
      pluginCatalog_typesM types' (enums ++ [a]) cts
  | ptr.CompositeTypeType typ :: types' =>
      run typ <- deref typ;
      run a <- alloc (OCompositeType
                        {| plugin.CompositeType.Name := catalog.CompositeType.Name typ;
                           plugin.CompositeType.Comment :=
                             catalog.CompositeType.Comment typ |});
      pluginCatalog_typesM types' enums (cts ++ [a])
  | ptr.OtherType :: types' => pluginCatalog_typesM types' enums cts
  end.

(** The body of the loop over [c.Schemas]. *)
Definition pluginCatalog_schemaM (s : option ptr.Schema.t) : M addr :=
  run s <- deref s;
  run types <- pluginCatalog_typesM (ptr.Schema.Types s) [] [];
  run tables <- range_appendM pluginCatalog_tableM (ptr.Schema.Tables s) [];
  alloc (OSchema
           {| cell.Schema.Comment := ptr.Schema.Comment s;
              cell.Schema.Name := ptr.Schema.Name s;
              cell.Schema.Tables := tables;
              cell.Schema.Enums := fst types;
              cell.Schema.CompositeTypes := snd types |}).

Definition pluginCatalogM (c : option ptr.Catalog.t) : M addr :=
  run c <- deref c;
  run schemas <- range_appendM pluginCatalog_schemaM (ptr.Catalog.Schemas c) [];
  alloc (OCatalog
           {| cell.Catalog.Name := ptr.Catalog.Name c;
              cell.Catalog.DefaultSchema := ptr.Catalog.DefaultSchema c;
              cell.Catalog.Comment := ptr.Catalog.Comment c;
              cell.Catalog.Schemas := schemas |}).

Definition set_Type (p : option addr) (c : cell.Column.t) : cell.Column.t :=
  {| cell.Column.Name := cell.Column.Name c;
     cell.Column.NotNull := cell.Column.NotNull c;
     cell.Column.IsArray := cell.Column.IsArray c;
     cell.Column.Comment := cell.Column.Comment c;
     cell.Column.Length := cell.Column.Length c;
     cell.Column.IsNamedParam := cell.Column.IsNamedParam c;
     cell.Column.IsFuncCall := cell.Column.IsFuncCall c;
     cell.Column.Table := cell.Column.Table c;
     cell.Column.Type_ := p;
     cell.Column.IsSqlcSlice := cell.Column.IsSqlcSlice c;
     cell.Column.EmbedTable := cell.Column.EmbedTable c;
     cell.Column.OriginalName := cell.Column.OriginalName c;
     cell.Column.Unsigned := cell.Column.Unsigned c;
     cell.Column.ArrayDims := cell.Column.ArrayDims c |}.

Definition set_Table (p : option addr) (c : cell.Column.t) : cell.Column.t :=
  {| cell.Column.Name := cell.Column.Name c;
     cell.Column.NotNull := cell.Column.NotNull c;
     cell.Column.IsArray := cell.Column.IsArray c;
     cell.Column.Comment := cell.Column.Comment c;
     cell.Column.Length := cell.Column.Length c;
     cell.Column.IsNamedParam := cell.Column.IsNamedParam c;
     cell.Column.IsFuncCall := cell.Column.IsFuncCall c;
     cell.Column.Table := p;
     cell.Column.Type_ := cell.Column.Type_ c;
     cell.Column.IsSqlcSlice := cell.Column.IsSqlcSlice c;
     cell.Column.EmbedTable := cell.Column.EmbedTable c;
     cell.Column.OriginalName := cell.Column.OriginalName c;
     cell.Column.Unsigned := cell.Column.Unsigned c;
     cell.Column.ArrayDims := cell.Column.ArrayDims c |}.

Definition set_EmbedTable (p : option addr) (c : cell.Column.t) : cell.Column.t :=
  {| cell.Column.Name := cell.Column.Name c;
     cell.Column.NotNull := cell.Column.NotNull c;
     cell.Column.IsArray := cell.Column.IsArray c;
     cell.Column.Comment := cell.Column.Comment c;
     cell.Column.Length := cell.Column.Length c;
     cell.Column.IsNamedParam := cell.Column.IsNamedParam c;
     cell.Column.IsFuncCall := cell.Column.IsFuncCall c;
     cell.Column.Table := cell.Column.Table c;
     cell.Column.Type_ := cell.Column.Type_ c;
     cell.Column.IsSqlcSlice := cell.Column.IsSqlcSlice c;
     cell.Column.EmbedTable := p;
     cell.Column.OriginalName := cell.Column.OriginalName c;
     cell.Column.Unsigned := cell.Column.Unsigned c;
     cell.Column.ArrayDims := cell.Column.ArrayDims c |}.

Definition pluginQueryColumnM (c : option compiler.Column.t) : M addr :=
  run c <- deref c;
  let l := (-1)%Z in
  let l := match compiler.Column.Length c with
           | Some n => n
           | None => l
           end in
  run out <- alloc (OColumn
                      {| cell.Column.Name := compiler.Column.Name c;
                         cell.Column.OriginalName := compiler.Column.OriginalName c;
                         cell.Column.Comment := compiler.Column.Comment c;
                         cell.Column.NotNull := compiler.Column.NotNull c;
                         cell.Column.Unsigned := compiler.Column.Unsigned c;
                         cell.Column.IsArray := compiler.Column.IsArray c;
                         cell.Column.ArrayDims := int32 (compiler.Column.ArrayDims c);
                         cell.Column.Length := int32 l;
                         cell.Column.IsNamedParam := compiler.Column.IsNamedParam c;
                         cell.Column.IsFuncCall := compiler.Column.IsFuncCall c;
                         cell.Column.IsSqlcSlice := compiler.Column.IsSqlcSlice c;
                         cell.Column.Type_ := None;
                         cell.Column.Table := None;
                         cell.Column.EmbedTable := None |});
  run _ <-
    match compiler.Column.Type_ c with
    | Some ty =>
        run a <- alloc (OIdentifier
                          {| plugin.Identifier.Catalog := ast.TypeName.Catalog ty;
                             plugin.Identifier.Schema := ast.TypeName.Schema ty;
                             plugin.Identifier.Name := ast.TypeName.Name ty |});
        assign_Column out (set_Type (Some a))
    | None =>
        run a <- alloc (OIdentifier
                          {| plugin.Identifier.Catalog := "";
                             plugin.Identifier.Schema := "";
                             plugin.Identifier.Name := compiler.Column.DataType c |});
        assign_Column out (set_Type (Some a))
    end;
  run _ <-
    match compiler.Column.Table c with
    | Some n =>
        run a <- alloc (OIdentifier (tableIdentifier n));
        assign_Column out (set_Table (Some a))
    | None => mret tt
    end;
  run _ <-
    match compiler.Column.EmbedTable c with
    | Some n =>
        run a <- alloc (OIdentifier (tableIdentifier n));
        assign_Column out (set_EmbedTable (Some a))
    | None => mret tt
    end;
  mret out.

Definition pluginQueryParamM (p : ptr.Parameter_.t) : M addr :=
  let number := int32 (ptr.Parameter_.Number p) in
  run column <- pluginQueryColumnM (ptr.Parameter_.Column p);
  alloc (OParameter
           {| cell.Parameter_.Number := number;
              cell.Parameter_.Column := Some column |}).

(** The body of the loop of [pluginQueries]. *)
Definition pluginQueries_queryM (q : option ptr.Query.t) : M addr :=
  run q <- deref q;
  run columns <- range_appendM pluginQueryColumnM (ptr.Query.Columns q) [];
  run params <- range_appendM pluginQueryParamM (ptr.Query.Params q) [];
  run iit <-
    match ptr.Query.InsertIntoTable q with
    | Some n =>
        run a <- alloc (OIdentifier (tableIdentifier n));
        mret (Some a)
    | None => mret None
    end;
  alloc (OQuery
           {| cell.Query.Name := compiler.Metadata.Name (ptr.Query.Metadata q);
              cell.Query.Cmd := compiler.Metadata.Cmd (ptr.Query.Metadata q);
              cell.Query.Text := ptr.Query.SQL q;
              cell.Query.Comments :=
                compiler.Metadata.Comments (ptr.Query.Metadata q);
              cell.Query.Columns := columns;
              cell.Query.Params := params;
              cell.Query.Filename :=
                compiler.Metadata.Filename (ptr.Query.Metadata q);
              cell.Query.InsertIntoTable := iit |}).

Definition pluginQueriesM (r : option ptr.Result.t) : M (list addr) :=
  run r <- deref r;
  range_appendM pluginQueries_queryM (ptr.Result.Queries r) [].

Definition codeGenRequestM (r : option ptr.Result.t)
    (settings : config.CombinedSettings.t Node) : M addr :=
  run s <- pluginSettingsM r settings;
  run r' <- deref r;
  run c <- pluginCatalogM (ptr.Result.Catalog r');
  run queries <- pluginQueriesM r;
  alloc (ORequest
           {| cell.CodeGenRequest.Settings := Some s;
              cell.CodeGenRequest.Catalog := Some c;
              cell.CodeGenRequest.Queries := queries;
              cell.CodeGenRequest.SqlcVersion := info_Version |}).

(** ** Vocabulary of the properties *)

(** One and only one of the two execution descriptors of a Codegen
    target is populated. *)
Definition exactly_one_descriptor (cg : plugin.Codegen.t) : Prop :=
  (is_Some (plugin.Codegen.Process cg) /\ plugin.Codegen.Wasm cg = None) \/
  (plugin.Codegen.Process cg = None /\ is_Some (plugin.Codegen.Wasm cg)).

(** A registry entry declares one and only one way of running it. *)
Definition declares_exactly_one (p : config.Plugin.t) : Prop :=
  (is_Some (config.Plugin.Process p) /\ config.Plugin.WASM p = None) \/
  (config.Plugin.Process p = None /\ is_Some (config.Plugin.WASM p)).

(** The registry entry [q] does not have the name that [s] requests. *)
Definition other_name (s : config.Codegen.t Node) (q : config.Plugin.t) : Prop :=
  config.Plugin.Name q <> config.Codegen.Plugin s.

(** The values that [int32] keeps. *)
Definition in_int32 (x : Z) : Prop := (- 2 ^ 31 <= x < 2 ^ 31)%Z.

(** The descriptor of the override [o] serialises. *)
Definition serialises (o : config.Override.t) : Prop :=
  exists code, json_Marshal (pluginGoType o) = Ok code.

(** The enum that the type switch of [pluginCatalog] appends for [typ],
    when [typ] is an enum. *)
Definition enum_of_type (typ : catalog.Type_) : option plugin.Enum.t :=
  match typ with
  | catalog.EnumType e =>
      Some {| plugin.Enum.Name := catalog.Enum.Name e;
              plugin.Enum.Comment := catalog.Enum.Comment e;
              plugin.Enum.Vals := catalog.Enum.Vals e |}
  | _ => None
  end.

(** The composite type that it appends, when [typ] is one. *)
Definition composite_of_type (typ : catalog.Type_) : option plugin.CompositeType.t :=
  match typ with
  | catalog.CompositeTypeType ct =>
      Some {| plugin.CompositeType.Name := catalog.CompositeType.Name ct;
              plugin.CompositeType.Comment := catalog.CompositeType.Comment ct |}
  | _ => None
  end.

(** The query column [qc] describes the column [c] of the table [t] of
    the catalog: the same name, type, flags and length, the table as
    its owner, and nothing that only a query column has. *)
Definition describes (qc : compiler.Column.t) (t : catalog.Table.t)
    (c : catalog.Column.t) : Prop :=
  compiler.Column.Name qc = catalog.Column.Name c /\
  compiler.Column.Type_ qc = Some (catalog.Column.Type_ c) /\
  compiler.Column.Comment qc = catalog.Column.Comment c /\
  compiler.Column.NotNull qc = catalog.Column.IsNotNull c /\
  compiler.Column.Unsigned qc = catalog.Column.IsUnsigned c /\
  compiler.Column.IsArray qc = catalog.Column.IsArray c /\
  compiler.Column.ArrayDims qc = catalog.Column.ArrayDims c /\
  compiler.Column.Length qc = catalog.Column.Length c /\
  compiler.Column.Table qc = Some (catalog.Table.Rel t) /\
  compiler.Column.OriginalName qc = "" /\
  compiler.Column.IsNamedParam qc = false /\
  compiler.Column.IsFuncCall qc = false /\
  compiler.Column.IsSqlcSlice qc = false /\
  compiler.Column.EmbedTable qc = None.

(** The heap grows at its end: a message that is read in a heap is
    read in every heap that extends it. *)
Definition stable {V : Type} (load : heap -> addr -> option V) : Prop :=
  forall h k a v, load h a = Some v -> load (h ++ k) a = Some v.

(** The messages of a slice of pointers. *)
Definition load_list {V : Type} (load : heap -> addr -> option V) (h : heap)
    (l : list addr) : option (list V) :=
  traverse (load h) l.

(** The messages of the two slices of the loop over the types. *)
Definition load_types (h : heap) (l : list addr * list addr)
  : option (list plugin.Enum.t * list plugin.CompositeType.t) :=
  match load_list load_Enum h (fst l), load_list load_CompositeType h (snd l) with
  | Some enums, Some cts => Some (enums, cts)
  | _, _ => None
  end.

(** A value that is no pointer is read as it is. *)
Definition load_value {V : Type} (h : heap) (v : V) : option V := Some v.

(** From the heap [h], the run [m] does what the function without a
    heap does with the outcome [p]: it panics with the same error, or
    it returns, in a heap that extends [h], the address of the message
    that the function returns. *)
Definition sim_at {A V : Type} (load : heap -> A -> option V) (m : M A)
    (p : outcome V) (h : heap) : Prop :=
  match p with
  | Ret v => exists a k, m h = Ret (a, h ++ k) /\ load (h ++ k) a = Some v
  | Panic e => m h = Panic e
  end.

Definition simulates {A V : Type} (load : heap -> A -> option V) (m : M A)
    (p : outcome V) : Prop :=
  forall h, sim_at load m p h.

(** The run panics from every heap. *)
Definition panics {A : Type} (m : M A) : Prop :=
  forall h, exists e, m h = Panic e.

(** The run on a compiled model with its pointers: it does what the
    function does on the model without pointers when there is one, and
    panics when a pointer that it dereferences is nil. *)
Definition simulates_checked {A V : Type} (load : heap -> A -> option V)
    (m : M A) (p : option V) : Prop :=
  match p with
  | Some v => simulates load m (Ret v)
  | None => panics m
  end.

(** The same for a run that returns an address, which is moreover the
    address of a cell that the heap [h] does not have. *)
Definition sim_fresh_at {V : Type} (load : heap -> addr -> option V)
    (m : M addr) (p : outcome V) (h : heap) : Prop :=
  match p with
  | Ret v =>
      exists a k,
        m h = Ret (a, h ++ k) /\ load (h ++ k) a = Some v /\
        (length h <= a)%nat
  | Panic e => m h = Panic e
  end.

(** ** Properties of the primitives *)

Lemma fold_left_snoc {A B : Type} (f : A -> B) (xs : list A) (out : list B) :
  fold_left (fun out x => out ++ [f x]) xs out = out ++ (f <$> xs).
Proof.
  revert out. induction xs as [|x xs IH]; intros out; simpl.
  - by rewrite app_nil_r.
  - rewrite IH, <- app_assoc. reflexivity.
Qed.

Lemma range_append_fmap {A B : Type} (f : A -> B) (xs : list A) :
  range_append f xs = f <$> xs.
Proof. unfold range_append. by rewrite fold_left_snoc. Qed.

Lemma range_append_length {A B : Type} (f : A -> B) (xs : list A) :
  length (range_append f xs) = length xs.
Proof. rewrite range_append_fmap. apply length_fmap. Qed.

Lemma range_append_lookup {A B : Type} (f : A -> B) (xs : list A) (i : nat) :
  range_append f xs !! i = f <$> (xs !! i).
Proof. rewrite range_append_fmap. apply list_lookup_fmap. Qed.

Lemma range_append_elem_of {A B : Type} (f : A -> B) (xs : list A) (y : B) :
  y ∈ range_append f xs -> exists x, y = f x /\ x ∈ xs.
Proof. rewrite range_append_fmap. apply list_elem_of_fmap. Qed.

(** The loop with a body that may panic returns when every element is
    translated, and then it is the plain loop. *)
Lemma range_append_from_Ret {A B : Type} (f : A -> outcome B) (g : A -> B)
    (xs : list A) (out : list B) :
  (forall x, x ∈ xs -> f x = Ret (g x)) ->
  range_append_from f xs out = Ret (out ++ (g <$> xs)).
Proof.
  revert out. induction xs as [|x xs IH]; intros out Hf; simpl.
  - by rewrite app_nil_r.
  - rewrite (Hf x) by apply list_elem_of_here. simpl.
    rewrite IH, <- app_assoc; [reflexivity|].
    intros y Hy. apply Hf. by apply list_elem_of_further.
Qed.

(** It panics as soon as one element does. *)
Lemma range_append_from_Panic {A B : Type} (f : A -> outcome B)
    (xs : list A) (out : list B) (x : A) (e : error) :
  x ∈ xs -> f x = Panic e ->
  exists e', range_append_from f xs out = Panic e'.
Proof.
  revert out. induction xs as [|y xs IH]; intros out Hx Hf.
  - by apply elem_of_nil in Hx.
  - simpl. destruct (f y) as [b|e0] eqn:Hy; simpl.
    + apply elem_of_cons in Hx as [->|Hx]; [congruence|]. by apply IH.
    + by exists e0.
Qed.

(** [strings.Split] on the inputs of the documentation of the shim. *)
Example Split_two : Split "orders.id" "." = ["orders"; "id"].
Proof. reflexivity. Qed.

Example Split_four :
  Split "mydb.public.orders.id" "." = ["mydb"; "public"; "orders"; "id"].
Proof. reflexivity. Qed.

Example Split_none : Split "orders" "." = ["orders"].
Proof. reflexivity. Qed.

Example Split_adjacent : Split "a..b." "." = ["a"; ""; "b"; ""].
Proof. reflexivity. Qed.

Lemma Split_nonempty (s : string) (sep : ascii) : Split s sep <> [].
Proof.
  induction s as [|c s IH]; simpl; [done|].
  destruct (Ascii.eqb c sep); [done|].
  by destruct (Split s sep).
Qed.

(** Joining the segments with the separator gives the string back. *)
Lemma Join_Split (s : string) (sep : ascii) : Join (Split s sep) sep = s.
Proof.
  induction s as [|c s IH]; simpl; [done|].
  destruct (Ascii.eqb c sep) eqn:Hc.
  - apply Ascii.eqb_eq in Hc as ->.
    pose proof (Split_nonempty s sep) as Hne.
    destruct (Split s sep) as [|seg segs]; [done|].
    change (Join (EmptyString :: seg :: segs) sep)
      with (String sep (Join (seg :: segs) sep)).
    by rewrite IH.
  - pose proof (Split_nonempty s sep) as Hne.
    destruct (Split s sep) as [|seg segs]; [done|].
    destruct segs as [|seg' segs]; simpl in *; by rewrite <- IH.
Qed.

(** No segment contains the separator. *)
Lemma Split_segments (s : string) (sep : ascii) :
  Forall (fun seg => contains seg sep = false) (Split s sep).
Proof.
  induction s as [|c s IH]; simpl.
  - by constructor.
  - destruct (Ascii.eqb c sep) eqn:Hc.
    + by constructor.
    + destruct (Split s sep) as [|seg segs]; [by repeat constructor; simpl; rewrite Hc|].
      inversion IH; subst. constructor; [|done]. simpl. by rewrite Hc.
Qed.

Lemma int32_id (x : Z) : (- 2 ^ 31 <= x < 2 ^ 31)%Z -> int32 x = x.
Proof. intros H. unfold int32. rewrite Z.mod_small; lia. Qed.

Lemma int32_range (x : Z) : (- 2 ^ 31 <= int32 x < 2 ^ 31)%Z.
Proof.
  unfold int32. pose proof (Z.mod_pos_bound (x + 2 ^ 31) (2 ^ 32)). lia.
Qed.

(** ** The Codegen target *)

Lemma pluginProcess_is_Some (p : config.Plugin.t) :
  is_Some (pluginProcess p) <-> is_Some (config.Plugin.Process p).
Proof.
  unfold pluginProcess. destruct (config.Plugin.Process p); split; intros [x Hx];
    first [discriminate | by exists x | eauto].
Qed.

Lemma pluginWASM_is_Some (p : config.Plugin.t) :
  is_Some (pluginWASM p) <-> is_Some (config.Plugin.WASM p).
Proof.
  unfold pluginWASM. destruct (config.Plugin.WASM p); split; intros [x Hx];
    first [discriminate | by exists x | eauto].
Qed.

Lemma pluginProcess_None (p : config.Plugin.t) :
  pluginProcess p = None <-> config.Plugin.Process p = None.
Proof. unfold pluginProcess. by destruct (config.Plugin.Process p). Qed.

Lemma pluginWASM_None (p : config.Plugin.t) :
  pluginWASM p = None <-> config.Plugin.WASM p = None.
Proof. unfold pluginWASM. by destruct (config.Plugin.WASM p). Qed.

(** The scan stops at the first entry of the requested name. *)
Lemma pluginCodegen_scan_first (pre post : list config.Plugin.t)
    (p : config.Plugin.t) (s : config.Codegen.t Node) (cg : plugin.Codegen.t) :
  Forall (other_name s) pre ->
  config.Plugin.Name p = config.Codegen.Plugin s ->
  pluginCodegen_scan (pre ++ p :: post) s cg =
    {| plugin.Codegen.Out := plugin.Codegen.Out cg;
       plugin.Codegen.Plugin := plugin.Codegen.Plugin cg;
       plugin.Codegen.Options := plugin.Codegen.Options cg;
       plugin.Codegen.Env := config.Plugin.Env p;
       plugin.Codegen.Process := pluginProcess p;
       plugin.Codegen.Wasm := pluginWASM p |}.
Proof.
  intros Hpre Hp. induction Hpre as [|q pre Hq _ IH]; simpl.
  - apply String.eqb_eq in Hp. by rewrite Hp.
  - apply String.eqb_neq in Hq. by rewrite Hq.
Qed.

(** Without an entry of the requested name it changes nothing. *)
Lemma pluginCodegen_scan_none (plugins : list config.Plugin.t)
    (s : config.Codegen.t Node) (cg : plugin.Codegen.t) :
  Forall (other_name s) plugins -> pluginCodegen_scan plugins s cg = cg.
Proof.
  induction 1 as [|q plugins Hq _ IH]; simpl; [done|].
  apply String.eqb_neq in Hq. by rewrite Hq.
Qed.

(** C1 (as amended). When the options convert, and the registry has an
    entry of the requested plugin name, the Codegen target copies the
    environment of the first such entry; its subprocess descriptor is
    populated exactly when that entry declares a process, and its
    module descriptor exactly when that entry declares a WASM module, so
    exactly one of the two is populated exactly when the entry declares
    exactly one. When no entry has the requested name, the target has
    the output directory, the plugin name and the options, and neither
    descriptor (nor an environment). *)
Theorem pluginCodegen_target (cs : config.CombinedSettings.t Node)
    (s : config.Codegen.t Node) (opts : list Byte.byte) :
  YAMLtoJSON (config.Codegen.Options s) = Ok opts ->
  (forall pre p post,
      config.Config.Plugins (config.CombinedSettings.Global cs) = pre ++ p :: post ->
      Forall (other_name s) pre ->
      config.Plugin.Name p = config.Codegen.Plugin s ->
      exists cg,
        pluginCodegen cs s = Ret cg /\
        plugin.Codegen.Env cg = config.Plugin.Env p /\
        (is_Some (plugin.Codegen.Process cg) <-> is_Some (config.Plugin.Process p)) /\
        (is_Some (plugin.Codegen.Wasm cg) <-> is_Some (config.Plugin.WASM p)) /\
        (exactly_one_descriptor cg <-> declares_exactly_one p)) /\
  (Forall (other_name s) (config.Config.Plugins (config.CombinedSettings.Global cs)) ->
   pluginCodegen cs s =
     Ret {| plugin.Codegen.Out := config.Codegen.Out s;
            plugin.Codegen.Plugin := config.Codegen.Plugin s;
            plugin.Codegen.Options := opts;
            plugin.Codegen.Env := [];
            plugin.Codegen.Process := None;
            plugin.Codegen.Wasm := None |}).
Proof.
  intros Hopts. unfold pluginCodegen. rewrite Hopts. simpl. split.
  - intros pre p post Hreg Hpre Hp. rewrite Hreg.
    rewrite (pluginCodegen_scan_first pre post p s _ Hpre Hp).
    eexists. split; [reflexivity|]. simpl.
    split; [reflexivity|].
    split; [apply pluginProcess_is_Some|].
    split; [apply pluginWASM_is_Some|].
    unfold exactly_one_descriptor, declares_exactly_one. simpl.
    rewrite pluginProcess_is_Some, pluginWASM_is_Some,
      pluginProcess_None, pluginWASM_None. reflexivity.
  - intros Hnone. by rewrite pluginCodegen_scan_none.
Qed.

(** C10. When the options convert, the Codegen target is resolved from
    the first registry entry of the requested plugin name: its
    environment and its descriptors are those of that entry, and the
    entries after it, duplicates of the name included, do not influence
    the result. *)
Theorem pluginCodegen_first_match (cs cs' : config.CombinedSettings.t Node)
    (s : config.Codegen.t Node) (opts : list Byte.byte)
    (pre post post' : list config.Plugin.t) (p : config.Plugin.t) :
  YAMLtoJSON (config.Codegen.Options s) = Ok opts ->
  Forall (other_name s) pre ->
  config.Plugin.Name p = config.Codegen.Plugin s ->
  config.Config.Plugins (config.CombinedSettings.Global cs) = pre ++ p :: post ->
  config.Config.Plugins (config.CombinedSettings.Global cs') = pre ++ p :: post' ->
  pluginCodegen cs s =
    Ret {| plugin.Codegen.Out := config.Codegen.Out s;
           plugin.Codegen.Plugin := config.Codegen.Plugin s;
           plugin.Codegen.Options := opts;
           plugin.Codegen.Env := config.Plugin.Env p;
           plugin.Codegen.Process := pluginProcess p;
           plugin.Codegen.Wasm := pluginWASM p |} /\
  pluginCodegen cs' s = pluginCodegen cs s.
Proof.
  intros Hopts Hpre Hp Hreg Hreg'. unfold pluginCodegen.
  rewrite Hopts, Hreg, Hreg'. simpl.
  by rewrite !(pluginCodegen_scan_first pre _ p s _ Hpre Hp).
Qed.

(** ** Overrides *)

Lemma Split_empty (sep : ascii) : Split "" sep = [""].
Proof. reflexivity. Qed.

(** C2. When the type descriptor serialises, the override is returned,
    and its table identifier and column name follow the number of
    segments of the dotted column path: two segments are table and
    column, the schema being the default schema of the catalog; three
    are schema, table and column; four are catalog, schema, table and
    column; with any other number of segments the column name and all
    fields of the table identifier are empty. *)
Theorem pluginOverride_column_path (r : compiler.Result.t)
    (o : config.Override.t) (code : list Byte.byte) :
  json_Marshal (pluginGoType o) = Ok code ->
  exists ov,
    pluginOverride r o = Ret ov /\
    (forall t c,
        Split (config.Override.Column o) "." = [t; c] ->
        plugin.Override.Table ov =
          Some (plugin.Identifier.mk ""
                  (catalog.Catalog.DefaultSchema (compiler.Result.Catalog r)) t) /\
        plugin.Override.ColumnName ov = c) /\
    (forall s t c,
        Split (config.Override.Column o) "." = [s; t; c] ->
        plugin.Override.Table ov = Some (plugin.Identifier.mk "" s t) /\
        plugin.Override.ColumnName ov = c) /\
    (forall d s t c,
        Split (config.Override.Column o) "." = [d; s; t; c] ->
        plugin.Override.Table ov = Some (plugin.Identifier.mk d s t) /\
        plugin.Override.ColumnName ov = c) /\
    (length (Split (config.Override.Column o) ".") <> 2%nat ->
     length (Split (config.Override.Column o) ".") <> 3%nat ->
     length (Split (config.Override.Column o) ".") <> 4%nat ->
     plugin.Override.Table ov = Some (plugin.Identifier.mk "" "" "") /\
     plugin.Override.ColumnName ov = "").
Proof.
  intros Hm. unfold pluginOverride. rewrite Hm.
  destruct (String.eqb (config.Override.Column o) "") eqn:Hcol; simpl.
  - apply String.eqb_eq in Hcol. rewrite Hcol, Split_empty.
    eexists. split; [reflexivity|]. simpl.
    repeat split; intros; done.
  - destruct (Split (config.Override.Column o) ".")
      as [|a [|b [|c [|d [|e l]]]]] eqn:Hs; simpl;
      (eexists; split; [reflexivity|]); simpl;
      repeat split; intros; simplify_eq; done.
Qed.

(** When the descriptor serialises the override is returned, with the
    descriptor and the fields of the configured override in it. *)
Lemma pluginOverride_Ok (r : compiler.Result.t) (o : config.Override.t)
    (code : list Byte.byte) :
  json_Marshal (pluginGoType o) = Ok code ->
  exists table column,
    pluginOverride r o =
      Ret {| plugin.Override.CodeType := code;
             plugin.Override.DbType := config.Override.DBType o;
             plugin.Override.Nullable := config.Override.Nullable o;
             plugin.Override.Unsigned := config.Override.Unsigned o;
             plugin.Override.Column := config.Override.Column o;
             plugin.Override.ColumnName := column;
             plugin.Override.Table := Some table |}.
Proof.
  intros Hm. unfold pluginOverride. rewrite Hm.
  destruct (if negb (String.eqb (config.Override.Column o) "") then _ else _)
    as [table column].
  by exists table, column.
Qed.

(** When it does not, the translation panics with the error. *)
Lemma pluginOverride_Err (r : compiler.Result.t) (o : config.Override.t)
    (e : error) :
  json_Marshal (pluginGoType o) = Err e -> pluginOverride r o = Panic e.
Proof.
  intros Hm. unfold pluginOverride. rewrite Hm.
  by destruct (if negb (String.eqb (config.Override.Column o) "") then _ else _).
Qed.

Lemma pluginSettings_Panic (r : compiler.Result.t)
    (cs : config.CombinedSettings.t Node) (o : config.Override.t) (e : error) :
  o ∈ config.CombinedSettings.Overrides cs ->
  pluginOverride r o = Panic e ->
  exists e', pluginSettings r cs = Panic e'.
Proof.
  intros Ho He. unfold pluginSettings.
  destruct (range_append_from_Panic (pluginOverride r) _ [] o e Ho He) as [e' ->].
  by exists e'.
Qed.

(** C7. The override translation has two outcomes and no third: when
    the type descriptor serialises, the override is returned with the
    serialised descriptor attached; when the serialisation fails, the
    translation panics with that error, and the panic is not recovered
    on the way up, the assembly of the request panics too. When the
    serialiser succeeds on every descriptor, the translation of every
    override returns. *)
Theorem pluginOverride_abort (r : compiler.Result.t) (o : config.Override.t) :
  (forall code,
      json_Marshal (pluginGoType o) = Ok code ->
      exists ov, pluginOverride r o = Ret ov /\ plugin.Override.CodeType ov = code) /\
  (forall e,
      json_Marshal (pluginGoType o) = Err e ->
      pluginOverride r o = Panic e /\
      forall cs : config.CombinedSettings.t Node,
        o ∈ config.CombinedSettings.Overrides cs ->
        exists e', codeGenRequest r cs = Panic e') /\
  ((forall g, exists code, json_Marshal g = Ok code) ->
   forall r' o', exists ov, pluginOverride r' o' = Ret ov).
Proof.
  split; [|split].
  - intros code Hm.
    destruct (pluginOverride_Ok r o code Hm) as (table & column & Hov).
    eexists. split; [exact Hov|reflexivity].
  - intros e Hm. pose proof (pluginOverride_Err r o e Hm) as Hp.
    split; [done|]. intros cs Ho.
    destruct (pluginSettings_Panic r cs o e Ho Hp) as [e' He'].
    exists e'. unfold codeGenRequest. by rewrite He'.
  - intros Htotal r' o'. destruct (Htotal (pluginGoType o')) as [code Hm].
    destruct (pluginOverride_Ok r' o' code Hm) as (table & column & Hov).
    eexists. exact Hov.
Qed.

(** ** The catalog and the queries *)

(** C3. A query column that carries a resolved type is translated with
    that type, its catalog, schema and name copied; a query column
    without one is translated with a type whose name is the raw data
    type of the column and whose catalog and schema are empty. *)
Theorem pluginQueryColumn_type (c : compiler.Column.t) :
  (forall ty,
      compiler.Column.Type_ c = Some ty ->
      plugin.Column.Type_ (pluginQueryColumn c) =
        Some (plugin.Identifier.mk (ast.TypeName.Catalog ty)
                (ast.TypeName.Schema ty) (ast.TypeName.Name ty))) /\
  (compiler.Column.Type_ c = None ->
   plugin.Column.Type_ (pluginQueryColumn c) =
     Some (plugin.Identifier.mk "" "" (compiler.Column.DataType c))).
Proof.
  unfold pluginQueryColumn. simpl. split.
  - by intros ty ->.
  - by intros ->.
Qed.

(** C4 (as amended). In the catalog walk and in the translation of a
    query column, a column without a declared length gets the length
    -1, and a column with a declared length [n], [0 <= n < 2^31], gets
    the length [n], which is not -1. *)
Theorem column_length_translation :
  (forall t c,
      catalog.Column.Length c = None ->
      plugin.Column.Length (pluginCatalog_column t c) = (-1)%Z) /\
  (forall c,
      compiler.Column.Length c = None ->
      plugin.Column.Length (pluginQueryColumn c) = (-1)%Z) /\
  (forall t c n,
      catalog.Column.Length c = Some n -> (0 <= n < 2 ^ 31)%Z ->
      plugin.Column.Length (pluginCatalog_column t c) = n /\
      plugin.Column.Length (pluginCatalog_column t c) <> (-1)%Z) /\
  (forall c n,
      compiler.Column.Length c = Some n -> (0 <= n < 2 ^ 31)%Z ->
      plugin.Column.Length (pluginQueryColumn c) = n /\
      plugin.Column.Length (pluginQueryColumn c) <> (-1)%Z).
Proof.
  unfold pluginCatalog_column, pluginQueryColumn. simpl.
  repeat split; intros.
  - by rewrite H.
  - by rewrite H.
  - rewrite H. apply int32_id. lia.
  - rewrite H, int32_id; lia.
  - rewrite H. apply int32_id. lia.
  - rewrite H, int32_id; lia.
Qed.

(** C5. The translated queries are as many as the compiled ones, and
    the [i]-th has an insert target exactly when the [i]-th compiled
    query has one; the target is then the identifier of that table. *)
Theorem pluginQueries_insert_target (r : compiler.Result.t) :
  length (pluginQueries r) = length (compiler.Result.Queries r) /\
  forall i q,
    compiler.Result.Queries r !! i = Some q ->
    exists pq,
      pluginQueries r !! i = Some pq /\
      (is_Some (plugin.Query.InsertIntoTable pq) <->
       is_Some (compiler.Query.InsertIntoTable q)) /\
      (forall n,
          compiler.Query.InsertIntoTable q = Some n ->
          plugin.Query.InsertIntoTable pq =
            Some (plugin.Identifier.mk (ast.TableName.Catalog n)
                    (ast.TableName.Schema n) (ast.TableName.Name n))) /\
      (compiler.Query.InsertIntoTable q = None ->
       plugin.Query.InsertIntoTable pq = None).
Proof.
  unfold pluginQueries. split; [apply range_append_length|].
  intros i q Hq. exists (pluginQueries_query q).
  split; [by rewrite range_append_lookup, Hq|].
  unfold pluginQueries_query. simpl.
  destruct (compiler.Query.InsertIntoTable q) as [n|].
  - repeat split; intros; simplify_eq; eauto.
  - repeat split; intros; simplify_eq; eauto; by destruct H.
Qed.

(** C6. The translated catalog has the schemas of the compiled catalog,
    as many and in the same order: the [i]-th translated schema is the
    translation of the [i]-th compiled schema and has its name; its
    tables are as many as those of the compiled schema, the [j]-th being
    the translation of the [j]-th compiled table, with its relation; and
    the columns of that table are as many as those of the compiled
    table, the [k]-th being the translation of the [k]-th compiled
    column, with its name. *)
Theorem pluginCatalog_order (c : catalog.Catalog.t) :
  length (plugin.Catalog.Schemas (pluginCatalog c)) =
    length (catalog.Catalog.Schemas c) /\
  forall i s,
    catalog.Catalog.Schemas c !! i = Some s ->
    exists ps,
      plugin.Catalog.Schemas (pluginCatalog c) !! i = Some ps /\
      ps = pluginCatalog_schema s /\
      plugin.Schema.Name ps = catalog.Schema.Name s /\
      length (plugin.Schema.Tables ps) = length (catalog.Schema.Tables s) /\
      forall j t,
        catalog.Schema.Tables s !! j = Some t ->
        exists pt,
          plugin.Schema.Tables ps !! j = Some pt /\
          pt = pluginCatalog_table t /\
          plugin.Table.Rel pt = Some (tableIdentifier (catalog.Table.Rel t)) /\
          length (plugin.Table.Columns pt) = length (catalog.Table.Columns t) /\
          forall k col,
            catalog.Table.Columns t !! k = Some col ->
            exists pc,
              plugin.Table.Columns pt !! k = Some pc /\
              pc = pluginCatalog_column t col /\
              plugin.Column.Name pc = catalog.Column.Name col.
Proof.
  unfold pluginCatalog. simpl. split; [apply range_append_length|].
  intros i s Hs. exists (pluginCatalog_schema s).
  split; [by rewrite range_append_lookup, Hs|]. split; [done|].
  unfold pluginCatalog_schema.
  destruct (pluginCatalog_types (catalog.Schema.Types s)) as [enums cts]. simpl.
  split; [done|]. split; [apply range_append_length|].
  intros j t Ht. exists (pluginCatalog_table t).
  split; [by rewrite range_append_lookup, Ht|]. split; [done|].
  unfold pluginCatalog_table. simpl.
  split; [done|]. split; [apply range_append_length|].
  intros k col Hcol. exists (pluginCatalog_column t col).
  split; [by rewrite range_append_lookup, Hcol|]. done.
Qed.

Lemma codeGenRequest_Ret (r : compiler.Result.t)
    (settings : config.CombinedSettings.t Node) (req : plugin.CodeGenRequest.t) :
  codeGenRequest r settings = Ret req ->
  plugin.CodeGenRequest.Catalog req =
    Some (pluginCatalog (compiler.Result.Catalog r)) /\
  plugin.CodeGenRequest.Queries req = pluginQueries r.
Proof.
  unfold codeGenRequest. destruct (pluginSettings r settings); simpl; [|done].
  intros Hreq. by simplify_eq.
Qed.

Lemma pluginCatalog_column_typed (t : catalog.Table.t) (c : catalog.Column.t) :
  is_Some (plugin.Column.Type_ (pluginCatalog_column t c)).
Proof. unfold pluginCatalog_column. simpl. eauto. Qed.

Lemma pluginQueryColumn_typed (c : compiler.Column.t) :
  is_Some (plugin.Column.Type_ (pluginQueryColumn c)).
Proof.
  unfold pluginQueryColumn. simpl. destruct (compiler.Column.Type_ c); eauto.
Qed.

(** C9. In a request that the assembly returns, every column has a
    type: the columns of every table of every schema of the catalog,
    the result columns of every query, and the column of every
    parameter of every query, which is itself present. *)
Theorem codeGenRequest_columns_typed (r : compiler.Result.t)
    (settings : config.CombinedSettings.t Node) (req : plugin.CodeGenRequest.t) :
  codeGenRequest r settings = Ret req ->
  (forall cat ps pt pc,
      plugin.CodeGenRequest.Catalog req = Some cat ->
      ps ∈ plugin.Catalog.Schemas cat ->
      pt ∈ plugin.Schema.Tables ps ->
      pc ∈ plugin.Table.Columns pt ->
      is_Some (plugin.Column.Type_ pc)) /\
  (forall pq pc,
      pq ∈ plugin.CodeGenRequest.Queries req ->
      pc ∈ plugin.Query.Columns pq ->
      is_Some (plugin.Column.Type_ pc)) /\
  (forall pq pp,
      pq ∈ plugin.CodeGenRequest.Queries req ->
      pp ∈ plugin.Query.Params pq ->
      exists pc,
        plugin.Parameter_.Column pp = Some pc /\
        is_Some (plugin.Column.Type_ pc)).
Proof.
  intros Hreq. apply codeGenRequest_Ret in Hreq as [Hcat Hqs].
  rewrite Hcat, Hqs. split; [|split].
  - intros cat ps pt pc Heq Hps Hpt Hpc. simplify_eq.
    unfold pluginCatalog in Hps. simpl in Hps.
    apply range_append_elem_of in Hps as (s & -> & _).
    unfold pluginCatalog_schema in Hpt.
    destruct (pluginCatalog_types (catalog.Schema.Types s)) as [enums cts].
    simpl in Hpt.
    apply range_append_elem_of in Hpt as (t & -> & _).
    unfold pluginCatalog_table in Hpc. simpl in Hpc.
    apply range_append_elem_of in Hpc as (c & -> & _).
    apply pluginCatalog_column_typed.
  - intros pq pc Hpq Hpc.
    apply range_append_elem_of in Hpq as (q & -> & _).
    unfold pluginQueries_query in Hpc. simpl in Hpc.
    apply range_append_elem_of in Hpc as (c & -> & _).
    apply pluginQueryColumn_typed.
  - intros pq pp Hpq Hpp.
    apply range_append_elem_of in Hpq as (q & -> & _).
    unfold pluginQueries_query in Hpp. simpl in Hpp.
    apply range_append_elem_of in Hpp as (p & -> & _).
    unfold pluginQueryParam. simpl. eexists. split; [reflexivity|].
    apply pluginQueryColumn_typed.
Qed.

(** ** The loop with a body that may panic *)

Lemma range_append_from_inv {A B : Type} (f : A -> outcome B)
    (xs : list A) (out ys : list B) :
  range_append_from f xs out = Ret ys ->
  exists zs, ys = out ++ zs /\ Forall2 (fun x z => f x = Ret z) xs zs.
Proof.
  revert out ys. induction xs as [|x xs IH]; intros out ys Hrun; simpl in Hrun.
  - simplify_eq. exists []. split; [by rewrite app_nil_r|constructor].
  - destruct (f x) as [z|e] eqn:Hx; simpl in Hrun; [|discriminate].
    apply IH in Hrun as (zs & -> & Hzs).
    exists (z :: zs). split; [by rewrite <- app_assoc|by constructor].
Qed.

Lemma range_append_from_total {A B : Type} (f : A -> outcome B)
    (xs : list A) (out : list B) :
  Forall (fun x => exists z, f x = Ret z) xs ->
  exists ys, range_append_from f xs out = Ret ys.
Proof.
  intros Hxs. revert out.
  induction Hxs as [|x xs [z Hx] _ IH]; intros out; simpl.
  - by exists out.
  - rewrite Hx. simpl. apply IH.
Qed.

Lemma range_append_from_first_Panic {A B : Type} (f : A -> outcome B)
    (pre post : list A) (x : A) (out : list B) (e : error) :
  Forall (fun y => exists z, f y = Ret z) pre ->
  f x = Panic e ->
  range_append_from f (pre ++ x :: post) out = Panic e.
Proof.
  intros Hpre Hx. revert out.
  induction Hpre as [|y pre [z Hy] _ IH]; intros out; simpl.
  - by rewrite Hx.
  - rewrite Hy. simpl. apply IH.
Qed.

Lemma range_append_from_ext {A B : Type} (f g : A -> outcome B)
    (xs : list A) (out : list B) :
  (forall x, f x = g x) ->
  range_append_from f xs out = range_append_from g xs out.
Proof.
  intros Hfg. revert out. induction xs as [|x xs IH]; intros out; simpl; [done|].
  rewrite Hfg. destruct (g x); simpl; [apply IH|done].
Qed.

(** ** Overrides, continued *)

Lemma pluginOverride_Ret_iff (r : compiler.Result.t) (o : config.Override.t) :
  (exists ov, pluginOverride r o = Ret ov) <-> serialises o.
Proof.
  unfold serialises. split.
  - intros [ov Hov]. destruct (json_Marshal (pluginGoType o)) as [code|e] eqn:Hm.
    + by exists code.
    + rewrite (pluginOverride_Err r o e Hm) in Hov. discriminate.
  - intros [code Hm].
    destruct (pluginOverride_Ok r o code Hm) as (table & column & Hov).
    eexists. exact Hov.
Qed.

(** What a returned override holds, by the segments of its path. *)
Lemma pluginOverride_Ret_resolved (r : compiler.Result.t)
    (o : config.Override.t) (ov : plugin.Override.t) :
  pluginOverride r o = Ret ov ->
  plugin.Override.Column ov = config.Override.Column o /\
  exists id,
    plugin.Override.Table ov = Some id /\
    match Split (config.Override.Column o) "." with
    | [t; c] =>
        id = plugin.Identifier.mk ""
               (catalog.Catalog.DefaultSchema (compiler.Result.Catalog r)) t /\
        plugin.Override.ColumnName ov = c
    | [s; t; c] =>
        id = plugin.Identifier.mk "" s t /\ plugin.Override.ColumnName ov = c
    | [d; s; t; c] =>
        id = plugin.Identifier.mk d s t /\ plugin.Override.ColumnName ov = c
    | _ =>
        id = plugin.Identifier.mk "" "" "" /\ plugin.Override.ColumnName ov = ""
    end.
Proof.
  unfold pluginOverride. intros Hov.
  destruct (json_Marshal (pluginGoType o)) as [code|e].
  2:{ by destruct (if negb (String.eqb (config.Override.Column o) "") then _ else _). }
  destruct (String.eqb (config.Override.Column o) "") eqn:Hcol; simpl in Hov.
  - apply String.eqb_eq in Hcol. rewrite Hcol, Split_empty.
    simplify_eq. simpl. split; [done|]. eexists. split; [reflexivity|done].
  - destruct (Split (config.Override.Column o) ".")
      as [|a [|b [|c [|d [|e l]]]]] eqn:Hs; simpl in Hov; simplify_eq; simpl;
      (split; [done|]); eexists; (split; [reflexivity|done]).
Qed.

Lemma pluginSettings_Ret_inv (r : compiler.Result.t)
    (cs : config.CombinedSettings.t Node) (st : plugin.Settings.t) :
  pluginSettings r cs = Ret st ->
  Forall2 (fun o ov => pluginOverride r o = Ret ov)
    (config.CombinedSettings.Overrides cs) (plugin.Settings.Overrides st) /\
  exists cg,
    pluginCodegen cs (config.CombinedSettings.Codegen cs) = Ret cg /\
    plugin.Settings.Codegen st = Some cg.
Proof.
  unfold pluginSettings. intros Hst.
  destruct (range_append_from _ _ _) as [ovs|e] eqn:Hovs; simpl in Hst; [|discriminate].
  destruct (pluginCodegen _ _) as [cg|e] eqn:Hcg; simpl in Hst; [|discriminate].
  apply range_append_from_inv in Hovs as (zs & -> & Hzs).
  simplify_eq. simpl. split; [done|]. by exists cg.
Qed.

Lemma codeGenRequest_Ret_settings (r : compiler.Result.t)
    (cs : config.CombinedSettings.t Node) (req : plugin.CodeGenRequest.t) :
  codeGenRequest r cs = Ret req ->
  exists st,
    pluginSettings r cs = Ret st /\ plugin.CodeGenRequest.Settings req = Some st.
Proof.
  unfold codeGenRequest. destruct (pluginSettings r cs) as [st|e]; simpl; [|done].
  intros Hreq. simplify_eq. by exists st.
Qed.

(** X1. The settings that are returned have the overrides of the
    configuration, as many and in the same order: the [i]-th is the
    translation of the [i]-th configured override and keeps its raw
    column path. *)
Theorem pluginSettings_overrides (r : compiler.Result.t)
    (cs : config.CombinedSettings.t Node) (st : plugin.Settings.t) :
  pluginSettings r cs = Ret st ->
  length (plugin.Settings.Overrides st) =
    length (config.CombinedSettings.Overrides cs) /\
  forall i o,
    config.CombinedSettings.Overrides cs !! i = Some o ->
    exists ov,
      plugin.Settings.Overrides st !! i = Some ov /\
      pluginOverride r o = Ret ov /\
      plugin.Override.Column ov = config.Override.Column o.
Proof.
  intros Hst. apply pluginSettings_Ret_inv in Hst as [Hovs _].
  split; [symmetry; by eapply Forall2_length|].
  intros i o Ho.
  destruct (Forall2_lookup_l _ _ _ _ _ Hovs Ho) as (ov & Hov & Hrun).
  exists ov. split; [done|]. split; [done|].
  by apply pluginOverride_Ret_resolved in Hrun as [Hcol _].
Qed.

(** Without a heap, and on a compiled model without nil pointers, the
    assembly returns a request exactly when the descriptor of every
    configured override serialises and the options convert. *)
Lemma codeGenRequest_returns_iff (r : compiler.Result.t)
    (cs : config.CombinedSettings.t Node) :
  (exists req, codeGenRequest r cs = Ret req) <->
  Forall serialises (config.CombinedSettings.Overrides cs) /\
  exists opts,
    YAMLtoJSON (config.Codegen.Options (config.CombinedSettings.Codegen cs)) = Ok opts.
Proof.
  split.
  - intros [req Hreq].
    apply codeGenRequest_Ret_settings in Hreq as (st & Hst & _).
    apply pluginSettings_Ret_inv in Hst as (Hovs & cg & Hcg & _). split.
    + apply Forall_forall. intros o Ho.
      apply list_elem_of_lookup in Ho as [i Hi].
      destruct (Forall2_lookup_l _ _ _ _ _ Hovs Hi) as (ov & _ & Hrun).
      apply (proj1 (pluginOverride_Ret_iff r o)). by exists ov.
    + unfold pluginCodegen in Hcg.
      destruct (YAMLtoJSON _) as [opts|e]; [by exists opts|discriminate].
  - intros [Hovs [opts Hopts]].
    assert (Forall (fun o => exists ov, pluginOverride r o = Ret ov)
              (config.CombinedSettings.Overrides cs)) as Hall.
    { eapply Forall_impl; [exact Hovs|]. intros o Ho. exact (proj2 (pluginOverride_Ret_iff r o) Ho). }
    destruct (range_append_from_total _ _ [] Hall) as [ovs Hrun].
    unfold codeGenRequest, pluginSettings, pluginCodegen.
    rewrite Hrun, Hopts. simpl. by eexists.
Qed.

(** Without a heap, and on a compiled model without nil pointers, the
    first override whose descriptor does not serialise gives the error
    of the panic, and the conversion of the options when there is
    none. *)
Lemma codeGenRequest_first_panic (r : compiler.Result.t)
    (cs : config.CombinedSettings.t Node) :
  (forall pre o post e,
      config.CombinedSettings.Overrides cs = pre ++ o :: post ->
      Forall serialises pre ->
      json_Marshal (pluginGoType o) = Err e ->
      codeGenRequest r cs = Panic e) /\
  (forall e,
      Forall serialises (config.CombinedSettings.Overrides cs) ->
      YAMLtoJSON (config.Codegen.Options (config.CombinedSettings.Codegen cs)) = Err e ->
      codeGenRequest r cs = Panic e).
Proof.
  split.
  - intros pre o post e Hcs Hpre Hm.
    assert (Forall (fun o => exists ov, pluginOverride r o = Ret ov) pre) as Hall.
    { eapply Forall_impl; [exact Hpre|]. intros o' Ho'. exact (proj2 (pluginOverride_Ret_iff r o') Ho'). }
    unfold codeGenRequest, pluginSettings. rewrite Hcs.
    by rewrite (range_append_from_first_Panic _ pre post o [] e Hall
                  (pluginOverride_Err r o e Hm)).
  - intros e Hovs Hopts.
    assert (Forall (fun o => exists ov, pluginOverride r o = Ret ov)
              (config.CombinedSettings.Overrides cs)) as Hall.
    { eapply Forall_impl; [exact Hovs|]. intros o Ho. exact (proj2 (pluginOverride_Ret_iff r o) Ho). }
    destruct (range_append_from_total _ _ [] Hall) as [ovs Hrun].
    unfold codeGenRequest, pluginSettings, pluginCodegen.
    by rewrite Hrun, Hopts.
Qed.

(** X4. Joined with dots, the parts that a returned override resolves
    are its configured path: table and column for a path of two
    segments, schema, table and column for three, catalog, schema,
    table and column for four. The catalog, the table name and the
    column name that it resolves never contain a dot. *)
Theorem pluginOverride_path_round_trip (r : compiler.Result.t)
    (o : config.Override.t) (ov : plugin.Override.t) (id : plugin.Identifier.t) :
  pluginOverride r o = Ret ov ->
  plugin.Override.Table ov = Some id ->
  (length (Split (config.Override.Column o) ".") = 2%nat ->
   String.append (plugin.Identifier.Name id)
     (String "." (plugin.Override.ColumnName ov)) = config.Override.Column o) /\
  (length (Split (config.Override.Column o) ".") = 3%nat ->
   String.append (plugin.Identifier.Schema id)
     (String "." (String.append (plugin.Identifier.Name id)
                    (String "." (plugin.Override.ColumnName ov)))) =
     config.Override.Column o) /\
  (length (Split (config.Override.Column o) ".") = 4%nat ->
   String.append (plugin.Identifier.Catalog id)
     (String "." (String.append (plugin.Identifier.Schema id)
                    (String "." (String.append (plugin.Identifier.Name id)
                                   (String "." (plugin.Override.ColumnName ov)))))) =
     config.Override.Column o) /\
  contains (plugin.Identifier.Catalog id) "." = false /\
  contains (plugin.Identifier.Name id) "." = false /\
  contains (plugin.Override.ColumnName ov) "." = false.
Proof.
  intros Hov Hid.
  apply pluginOverride_Ret_resolved in Hov as (_ & id' & Hid' & Hres).
  rewrite Hid in Hid'. injection Hid' as <-.
  pose proof (Join_Split (config.Override.Column o) ".") as Hjoin.
  pose proof (Split_segments (config.Override.Column o) ".") as Hsegs.
  destruct (Split (config.Override.Column o) ".")
    as [|a [|b [|c [|d [|e l]]]]]; destruct Hres as [-> ->]; simpl in *;
    repeat match goal with
           | H : Forall _ (_ :: _) |- _ => apply Forall_cons in H as [? H]
           end;
    repeat split; intros; simplify_eq; done.
Qed.

(** X5. In a request that the assembly returns, an override whose path
    has two segments has the default schema of the catalog of the same
    request as the schema of its table. *)
Theorem codeGenRequest_default_schema (r : compiler.Result.t)
    (cs : config.CombinedSettings.t Node) (req : plugin.CodeGenRequest.t)
    (st : plugin.Settings.t) (cat : plugin.Catalog.t)
    (ov : plugin.Override.t) (id : plugin.Identifier.t) :
  codeGenRequest r cs = Ret req ->
  plugin.CodeGenRequest.Settings req = Some st ->
  plugin.CodeGenRequest.Catalog req = Some cat ->
  ov ∈ plugin.Settings.Overrides st ->
  length (Split (plugin.Override.Column ov) ".") = 2%nat ->
  plugin.Override.Table ov = Some id ->
  plugin.Identifier.Schema id = plugin.Catalog.DefaultSchema cat.
Proof.
  intros Hreq Hst Hcat Hov Hlen Hid.
  destruct (codeGenRequest_Ret_settings r cs req Hreq) as (st' & Hrun & Hst').
  rewrite Hst in Hst'. injection Hst' as <-.
  apply codeGenRequest_Ret in Hreq as [Hcat' _].
  rewrite Hcat in Hcat'. injection Hcat' as ->.
  apply pluginSettings_Ret_inv in Hrun as [Hovs _].
  apply list_elem_of_lookup in Hov as [i Hi].
  destruct (Forall2_lookup_r _ _ _ _ _ Hovs Hi) as (o & _ & Ho).
  apply pluginOverride_Ret_resolved in Ho as (Hcol & id' & Hid' & Hres).
  rewrite Hid in Hid'. injection Hid' as <-. rewrite Hcol in Hlen.
  destruct (Split (config.Override.Column o) ".")
    as [|a [|b [|c l]]]; simpl in Hlen; try discriminate.
  by destruct Hres as [-> _].
Qed.

Lemma pluginOverride_default_schema (r r' : compiler.Result.t)
    (o : config.Override.t) :
  catalog.Catalog.DefaultSchema (compiler.Result.Catalog r) =
    catalog.Catalog.DefaultSchema (compiler.Result.Catalog r') ->
  pluginOverride r o = pluginOverride r' o.
Proof. intros Hds. unfold pluginOverride. by rewrite Hds. Qed.

(** X6. The settings depend on the compiled result through the default
    schema of its catalog only: for two results with the same default
    schema the translation of the settings has the same outcome,
    whatever their schemas, tables and queries. *)
Theorem pluginSettings_default_schema_only (r r' : compiler.Result.t)
    (cs : config.CombinedSettings.t Node) :
  catalog.Catalog.DefaultSchema (compiler.Result.Catalog r) =
    catalog.Catalog.DefaultSchema (compiler.Result.Catalog r') ->
  pluginSettings r cs = pluginSettings r' cs.
Proof.
  intros Hds. unfold pluginSettings.
  rewrite (range_append_from_ext (pluginOverride r) (pluginOverride r')); [done|].
  intros o. by apply pluginOverride_default_schema.
Qed.

Lemma pluginCodegen_scan_cases (plugins : list config.Plugin.t)
    (s : config.Codegen.t Node) (cg : plugin.Codegen.t) :
  pluginCodegen_scan plugins s cg = cg \/
  exists p,
    p ∈ plugins /\ config.Plugin.Name p = config.Codegen.Plugin s /\
    pluginCodegen_scan plugins s cg =
      {| plugin.Codegen.Out := plugin.Codegen.Out cg;
         plugin.Codegen.Plugin := plugin.Codegen.Plugin cg;
         plugin.Codegen.Options := plugin.Codegen.Options cg;
         plugin.Codegen.Env := config.Plugin.Env p;
         plugin.Codegen.Process := pluginProcess p;
         plugin.Codegen.Wasm := pluginWASM p |}.
Proof.
  induction plugins as [|q plugins IH]; simpl; [by left|].
  destruct (String.eqb (config.Plugin.Name q) (config.Codegen.Plugin s)) eqn:Hq.
  - right. exists q. apply String.eqb_eq in Hq.
    split; [apply list_elem_of_here|]. by split.
  - destruct IH as [IH|(p & Hp & Hname & IH)]; [by left|].
    right. exists p. split; [by apply list_elem_of_further|]. by split.
Qed.

(** X7. A Codegen target that is returned has the output directory and
    the plugin name of the request and the converted options, whatever
    the registry holds; and when it has an environment or a descriptor,
    the registry has an entry of the requested name, from which they
    are taken. *)
Theorem pluginCodegen_invariants (cs : config.CombinedSettings.t Node)
    (s : config.Codegen.t Node) (cg : plugin.Codegen.t) :
  pluginCodegen cs s = Ret cg ->
  plugin.Codegen.Out cg = config.Codegen.Out s /\
  plugin.Codegen.Plugin cg = config.Codegen.Plugin s /\
  YAMLtoJSON (config.Codegen.Options s) = Ok (plugin.Codegen.Options cg) /\
  (plugin.Codegen.Env cg <> [] \/ is_Some (plugin.Codegen.Process cg) \/
   is_Some (plugin.Codegen.Wasm cg) ->
   exists p,
     p ∈ config.Config.Plugins (config.CombinedSettings.Global cs) /\
     config.Plugin.Name p = config.Codegen.Plugin s /\
     plugin.Codegen.Env cg = config.Plugin.Env p /\
     plugin.Codegen.Process cg = pluginProcess p /\
     plugin.Codegen.Wasm cg = pluginWASM p).
Proof.
  unfold pluginCodegen. intros Hcg.
  destruct (YAMLtoJSON (config.Codegen.Options s)) as [opts|e]; simpl in Hcg;
    [|discriminate].
  injection Hcg as <-.
  destruct (pluginCodegen_scan_cases
              (config.Config.Plugins (config.CombinedSettings.Global cs)) s
              {| plugin.Codegen.Out := config.Codegen.Out s;
                 plugin.Codegen.Plugin := config.Codegen.Plugin s;
                 plugin.Codegen.Options := opts;
                 plugin.Codegen.Env := [];
                 plugin.Codegen.Process := None;
                 plugin.Codegen.Wasm := None |})
    as [->|(p & Hp & Hname & ->)]; simpl.
  - repeat split; try done.
    intros [Henv|[[x Hx]|[x Hx]]]; done.
  - repeat split; try done. intros _. by exists p.
Qed.

(** ** The catalog and the queries, continued *)

Lemma int32_fixed (x : Z) : int32 x = x <-> in_int32 x.
Proof.
  unfold in_int32. split.
  - intros <-. apply int32_range.
  - apply int32_id.
Qed.

Lemma int32_sentinel (x : Z) :
  int32 x = (-1)%Z <-> (x mod 2 ^ 32 = 2 ^ 32 - 1)%Z.
Proof.
  unfold int32.
  pose proof (Z.mod_pos_bound (x + 2 ^ 31) (2 ^ 32)) as Hb.
  pose proof (Z.mod_pos_bound x (2 ^ 32)) as Hx.
  pose proof (Z.div_mod x (2 ^ 32)) as Hdx.
  pose proof (Z.div_mod (x + 2 ^ 31) (2 ^ 32)) as Hdy.
  split; intros H; lia.
Qed.

Lemma pluginCatalog_types_from (types : list catalog.Type_)
    (enums : list plugin.Enum.t) (cts : list plugin.CompositeType.t) :
  fold_left
    (fun '(enums, cts) typ =>
       match typ with
       | catalog.EnumType typ =>
           (enums ++ [ {| plugin.Enum.Name := catalog.Enum.Name typ;
                          plugin.Enum.Comment := catalog.Enum.Comment typ;
                          plugin.Enum.Vals := catalog.Enum.Vals typ |} ],
            cts)
       | catalog.CompositeTypeType typ =>
           (enums,
            cts ++ [ {| plugin.CompositeType.Name := catalog.CompositeType.Name typ;
                        plugin.CompositeType.Comment :=
                          catalog.CompositeType.Comment typ |} ])
       | catalog.OtherType => (enums, cts)
       end)
    types (enums, cts) =
  (enums ++ omap enum_of_type types, cts ++ omap composite_of_type types).
Proof.
  revert enums cts. induction types as [|typ types IH]; intros enums cts; simpl.
  - by rewrite !app_nil_r.
  - destruct typ as [e|ct|]; rewrite IH; simpl; by rewrite <- ?app_assoc.
Qed.

Lemma omap_types_length (types : list catalog.Type_) :
  (length (omap enum_of_type types) + length (omap composite_of_type types)
   <= length types)%nat.
Proof.
  induction types as [|typ types IH]; [cbn; lia|].
  destruct typ; cbn in *; lia.
Qed.

(** X8. The enums of a translated schema are the enums among the types
    of the compiled schema, in their order and with their values, and
    its composite types are the composite types among them, in their
    order; a type that is neither is in neither list, so that the two
    lists together are no longer than the list of types. *)
Theorem pluginCatalog_schema_types (s : catalog.Schema.t) :
  plugin.Schema.Enums (pluginCatalog_schema s) =
    omap enum_of_type (catalog.Schema.Types s) /\
  plugin.Schema.CompositeTypes (pluginCatalog_schema s) =
    omap composite_of_type (catalog.Schema.Types s) /\
  (length (plugin.Schema.Enums (pluginCatalog_schema s)) +
   length (plugin.Schema.CompositeTypes (pluginCatalog_schema s))
   <= length (catalog.Schema.Types s))%nat.
Proof.
  unfold pluginCatalog_schema, pluginCatalog_types.
  rewrite pluginCatalog_types_from. simpl.
  split; [done|]. split; [done|]. apply omap_types_length.
Qed.

(** X9. In the translated catalog every column names, as the table that
    owns it, the relation of the table that holds it, and has none of
    what only a query column has: no original name, no flag of a
    parameter, a function call or a slice, no embedded table. *)
Theorem pluginCatalog_columns_owned (c : catalog.Catalog.t)
    (ps : plugin.Schema.t) (pt : plugin.Table.t) (pc : plugin.Column.t) :
  ps ∈ plugin.Catalog.Schemas (pluginCatalog c) ->
  pt ∈ plugin.Schema.Tables ps ->
  pc ∈ plugin.Table.Columns pt ->
  plugin.Column.Table pc = plugin.Table.Rel pt /\
  plugin.Column.OriginalName pc = "" /\
  plugin.Column.IsNamedParam pc = false /\
  plugin.Column.IsFuncCall pc = false /\
  plugin.Column.IsSqlcSlice pc = false /\
  plugin.Column.EmbedTable pc = None.
Proof.
  intros Hps Hpt Hpc.
  unfold pluginCatalog in Hps. simpl in Hps.
  apply range_append_elem_of in Hps as (s & -> & _).
  unfold pluginCatalog_schema in Hpt.
  destruct (pluginCatalog_types (catalog.Schema.Types s)) as [enums cts].
  simpl in Hpt.
  apply range_append_elem_of in Hpt as (t & -> & _).
  unfold pluginCatalog_table in Hpc. simpl in Hpc.
  apply range_append_elem_of in Hpc as (col & -> & _).
  by unfold pluginCatalog_table, pluginCatalog_column.
Qed.

(** X10. A query column that describes a column of a table of the
    catalog is translated to the column that the catalog walk produces
    for it. *)
Theorem pluginQueryColumn_agrees (qc : compiler.Column.t)
    (t : catalog.Table.t) (c : catalog.Column.t) :
  describes qc t c ->
  pluginQueryColumn qc = pluginCatalog_column t c.
Proof.
  intros (Hname & Hty & Hcom & Hnn & Huns & Harr & Hdims & Hlen & Htab &
          Horig & Hnp & Hfc & Hss & Hemb).
  unfold pluginQueryColumn, pluginCatalog_column, tableIdentifier.
  by rewrite Hname, Hty, Hcom, Hnn, Huns, Harr, Hdims, Hlen, Htab,
    Horig, Hnp, Hfc, Hss, Hemb.
Qed.

(** X11. The translated queries keep the order of the compiled ones and
    of what they hold: the [i]-th has the name and the text of the
    [i]-th compiled query, as many columns and as many parameters; its
    [k]-th column is the translation of the [k]-th compiled column, and
    its [k]-th parameter has the translated column of the [k]-th
    compiled parameter and its number, converted. *)
Theorem pluginQueries_order (r : compiler.Result.t) (i : nat)
    (q : compiler.Query.t) :
  compiler.Result.Queries r !! i = Some q ->
  exists pq,
    pluginQueries r !! i = Some pq /\
    plugin.Query.Name pq = compiler.Metadata.Name (compiler.Query.Metadata q) /\
    plugin.Query.Text pq = compiler.Query.SQL q /\
    length (plugin.Query.Columns pq) = length (compiler.Query.Columns q) /\
    length (plugin.Query.Params pq) = length (compiler.Query.Params q) /\
    (forall k col,
        compiler.Query.Columns q !! k = Some col ->
        plugin.Query.Columns pq !! k = Some (pluginQueryColumn col)) /\
    (forall k p,
        compiler.Query.Params q !! k = Some p ->
        exists pp,
          plugin.Query.Params pq !! k = Some pp /\
          plugin.Parameter_.Number pp = int32 (compiler.Parameter_.Number p) /\
          plugin.Parameter_.Column pp =
            Some (pluginQueryColumn (compiler.Parameter_.Column p))).
Proof.
  intros Hq. exists (pluginQueries_query q).
  split; [unfold pluginQueries; by rewrite range_append_lookup, Hq|].
  unfold pluginQueries_query. simpl.
  split; [done|]. split; [done|].
  split; [apply range_append_length|]. split; [apply range_append_length|].
  split.
  - intros k col Hcol. by rewrite range_append_lookup, Hcol.
  - intros k p Hp. exists (pluginQueryParam p).
    split; [by rewrite range_append_lookup, Hp|]. done.
Qed.

(** X12. The numbers that the translation narrows, the array dimensions
    of a column and the number of a parameter, are within the 32 bits
    of the message, and they are the numbers of the source exactly when
    these are within 32 bits. *)
Theorem narrowed_numbers (t : catalog.Table.t) (c : catalog.Column.t)
    (qc : compiler.Column.t) (p : compiler.Parameter_.t) :
  (in_int32 (plugin.Column.ArrayDims (pluginCatalog_column t c)) /\
   (plugin.Column.ArrayDims (pluginCatalog_column t c) = catalog.Column.ArrayDims c
    <-> in_int32 (catalog.Column.ArrayDims c))) /\
  (in_int32 (plugin.Column.ArrayDims (pluginQueryColumn qc)) /\
   (plugin.Column.ArrayDims (pluginQueryColumn qc) = compiler.Column.ArrayDims qc
    <-> in_int32 (compiler.Column.ArrayDims qc))) /\
  (in_int32 (plugin.Parameter_.Number (pluginQueryParam p)) /\
   (plugin.Parameter_.Number (pluginQueryParam p) = compiler.Parameter_.Number p
    <-> in_int32 (compiler.Parameter_.Number p))).
Proof.
  unfold pluginCatalog_column, pluginQueryColumn, pluginQueryParam. simpl.
  split; [|split]; (split; [apply int32_range|apply int32_fixed]).
Qed.

(** X13. The translated length of a column is the sentinel -1 exactly
    when the column has no declared length or its declared length has
    all of its low 32 bits set; this holds in the catalog walk and in
    the translation of a query column. *)
Theorem column_length_sentinel (t : catalog.Table.t) (c : catalog.Column.t)
    (qc : compiler.Column.t) :
  (plugin.Column.Length (pluginCatalog_column t c) = (-1)%Z <->
   catalog.Column.Length c = None \/
   exists n, catalog.Column.Length c = Some n /\ (n mod 2 ^ 32 = 2 ^ 32 - 1)%Z) /\
  (plugin.Column.Length (pluginQueryColumn qc) = (-1)%Z <->
   compiler.Column.Length qc = None \/
   exists n, compiler.Column.Length qc = Some n /\ (n mod 2 ^ 32 = 2 ^ 32 - 1)%Z).
Proof.
  unfold pluginCatalog_column, pluginQueryColumn. simpl. split.
  - destruct (catalog.Column.Length c) as [n|]; split.
    + intros H. right. exists n. split; [done|]. by apply int32_sentinel.
    + intros [H|(m & Hm & H)]; [done|]. simplify_eq. by apply int32_sentinel.
    + by left.
    + done.
  - destruct (compiler.Column.Length qc) as [n|]; split.
    + intros H. right. exists n. split; [done|]. by apply int32_sentinel.
    + intros [H|(m & Hm & H)]; [done|]. simplify_eq. by apply int32_sentinel.
    + by left.
    + done.
Qed.

(** ** The request as a whole *)

Lemma pluginCodegen_scan_split (plugins : list config.Plugin.t)
    (s : config.Codegen.t Node) :
  Forall (other_name s) plugins \/
  exists pre p post,
    plugins = pre ++ p :: post /\ Forall (other_name s) pre /\
    config.Plugin.Name p = config.Codegen.Plugin s.
Proof.
  induction plugins as [|q plugins IH]; [by left|].
  destruct (String.eqb (config.Plugin.Name q) (config.Codegen.Plugin s)) eqn:Hq.
  - right. exists [], q, plugins. apply String.eqb_eq in Hq. by repeat split.
  - apply String.eqb_neq in Hq.
    destruct IH as [IH|(pre & p & post & -> & Hpre & Hp)].
    + left. by constructor.
    + right. exists (q :: pre), p, post. repeat split; [|done]. by constructor.
Qed.

Lemma unique_name (plugins : list config.Plugin.t) (p q : config.Plugin.t) :
  NoDup (config.Plugin.Name <$> plugins) ->
  p ∈ plugins -> q ∈ plugins ->
  config.Plugin.Name p = config.Plugin.Name q -> p = q.
Proof.
  induction plugins as [|x plugins IH]; intros Hnd Hp Hq Hname.
  - by apply elem_of_nil in Hp.
  - rewrite fmap_cons in Hnd. apply NoDup_cons in Hnd as [Hx Hnd].
    apply elem_of_cons in Hp as [->|Hp]; apply elem_of_cons in Hq as [->|Hq].
    + done.
    + exfalso. apply Hx. rewrite Hname. by apply list_elem_of_fmap_2.
    + exfalso. apply Hx. rewrite <- Hname. by apply list_elem_of_fmap_2.
    + by apply IH.
Qed.

(** X14. When no two entries of the registry have the same name, the
    order of the registry does not matter: two settings whose
    registries hold the same entries in different orders give the same
    Codegen target. *)
Theorem pluginCodegen_registry_order (cs cs' : config.CombinedSettings.t Node)
    (s : config.Codegen.t Node) :
  NoDup (config.Plugin.Name <$>
           config.Config.Plugins (config.CombinedSettings.Global cs)) ->
  config.Config.Plugins (config.CombinedSettings.Global cs) ≡ₚ
    config.Config.Plugins (config.CombinedSettings.Global cs') ->
  pluginCodegen cs s = pluginCodegen cs' s.
Proof.
  intros Hnd Hperm. unfold pluginCodegen.
  destruct (YAMLtoJSON (config.Codegen.Options s)) as [opts|e]; simpl; [|done].
  f_equal.
  set (l := config.Config.Plugins (config.CombinedSettings.Global cs)) in *.
  set (l' := config.Config.Plugins (config.CombinedSettings.Global cs')) in *.
  destruct (pluginCodegen_scan_split l s) as [Hnone|(pre & p & post & Hl & Hpre & Hp)].
  - rewrite pluginCodegen_scan_none by done.
    rewrite pluginCodegen_scan_none; [done|]. by rewrite <- Hperm.
  - destruct (pluginCodegen_scan_split l' s)
      as [Hnone|(pre' & p' & post' & Hl' & Hpre' & Hp')].
    + exfalso. rewrite <- Hperm, Hl in Hnone.
      apply Forall_app in Hnone as [_ Hnone].
      apply Forall_cons in Hnone as [Hnone _]. by apply Hnone.
    + assert (p = p') as <-.
      { apply (unique_name l); [done| | |congruence].
        - rewrite Hl. apply elem_of_app. right. apply list_elem_of_here.
        - rewrite Hperm, Hl'. apply elem_of_app. right. apply list_elem_of_here. }
      rewrite Hl, Hl'.
      by rewrite !(pluginCodegen_scan_first _ _ p s _) by done.
Qed.

(** X15. In a request that the assembly returns, the pointers that a
    plugin follows are set: the settings and their Codegen target, the
    table of every override, the catalog and the relation of every
    table of it; and the version is the version of the tool. *)
Theorem codeGenRequest_pointers (r : compiler.Result.t)
    (cs : config.CombinedSettings.t Node) (req : plugin.CodeGenRequest.t) :
  codeGenRequest r cs = Ret req ->
  plugin.CodeGenRequest.SqlcVersion req = info_Version /\
  (exists st,
      plugin.CodeGenRequest.Settings req = Some st /\
      is_Some (plugin.Settings.Codegen st) /\
      forall ov, ov ∈ plugin.Settings.Overrides st ->
                 is_Some (plugin.Override.Table ov)) /\
  (exists cat,
      plugin.CodeGenRequest.Catalog req = Some cat /\
      forall ps pt,
        ps ∈ plugin.Catalog.Schemas cat ->
        pt ∈ plugin.Schema.Tables ps ->
        is_Some (plugin.Table.Rel pt)).
Proof.
  intros Hreq.
  destruct (codeGenRequest_Ret_settings r cs req Hreq) as (st & Hst & Hsome).
  destruct (codeGenRequest_Ret r cs req Hreq) as [Hcat _].
  split; [|split].
  - unfold codeGenRequest in Hreq. rewrite Hst in Hreq. simpl in Hreq.
    by simplify_eq.
  - exists st. split; [done|].
    apply pluginSettings_Ret_inv in Hst as (Hovs & cg & _ & Hcg).
    split; [by exists cg|].
    intros ov Hov. apply list_elem_of_lookup in Hov as [i Hi].
    destruct (Forall2_lookup_r _ _ _ _ _ Hovs Hi) as (o & _ & Ho).
    apply pluginOverride_Ret_resolved in Ho as (_ & id & Hid & _). by exists id.
  - eexists. split; [exact Hcat|]. intros ps pt Hps Hpt.
    unfold pluginCatalog in Hps. simpl in Hps.
    apply range_append_elem_of in Hps as (s & -> & _).
    unfold pluginCatalog_schema in Hpt.
    destruct (pluginCatalog_types (catalog.Schema.Types s)) as [enums cts].
    simpl in Hpt.
    apply range_append_elem_of in Hpt as (t & -> & _).
    unfold pluginCatalog_table. simpl. by eexists.
Qed.

(** ** The heap *)

Lemma lookup_fresh (h k : heap) (i : nat) :
  (h ++ k) !! (length h + i)%nat = k !! i.
Proof. by rewrite lookup_app_r, Nat.add_comm, Nat.add_sub by lia. Qed.

Lemma lookup_fresh_0 (h k : heap) : (h ++ k) !! length h = k !! 0%nat.
Proof. by rewrite <- (lookup_fresh h k 0), Nat.add_0_r. Qed.

Lemma lookup_old (h k : heap) (a : addr) (o : object) :
  h !! a = Some o -> (h ++ k) !! a = Some o.
Proof. apply lookup_app_l_Some. Qed.

Lemma insert_fresh_0 (h k : heap) (o o' : object) :
  <[length h := o']> (h ++ o :: k) = h ++ o' :: k.
Proof.
  rewrite insert_app_r_alt by lia. by rewrite Nat.sub_diag.
Qed.

Lemma traverse_snoc {A B : Type} (f : A -> option B) (xs : list A) (x : A)
    (ys : list B) (y : B) :
  traverse f xs = Some ys -> f x = Some y ->
  traverse f (xs ++ [x]) = Some (ys ++ [y]).
Proof.
  revert ys. induction xs as [|x' xs IH]; intros ys Hxs Hx; simpl in *.
  - simplify_eq. by rewrite Hx.
  - destruct (f x') as [y'|]; [|done].
    destruct (traverse f xs) as [ys'|]; [|done].
    simplify_eq. by rewrite (IH ys').
Qed.

Lemma traverse_impl {A B : Type} (f g : A -> option B) (xs : list A)
    (ys : list B) :
  (forall x y, f x = Some y -> g x = Some y) ->
  traverse f xs = Some ys -> traverse g xs = Some ys.
Proof.
  intros Hfg. revert ys. induction xs as [|x xs IH]; intros ys Hxs; simpl in *.
  - done.
  - destruct (f x) as [y|] eqn:Hx; [|done].
    destruct (traverse f xs) as [ys'|]; [|done].
    by rewrite (Hfg x y Hx), (IH ys').
Qed.

Lemma traverse_id_Some {A : Type} (xs : list A) : traverse id (map Some xs) = Some xs.
Proof. induction xs as [|x xs IH]; simpl; [done|]. by rewrite IH. Qed.

Lemma traverse_map {B C : Type} (f : B -> option C) (g : C -> B) (xs : list C) :
  (forall x, f (g x) = Some x) -> traverse f (map g xs) = Some xs.
Proof.
  intros Hfg. induction xs as [|x xs IH]; simpl; [done|]. by rewrite Hfg, IH.
Qed.

Lemma stable_traverse {V : Type} (load : heap -> addr -> option V) :
  stable load ->
  forall h k l vs,
    traverse (load h) l = Some vs -> traverse (load (h ++ k)) l = Some vs.
Proof.
  intros Hst h k l vs. apply traverse_impl. intros a v. apply Hst.
Qed.

Lemma stable_list {V : Type} (load : heap -> addr -> option V) :
  stable load ->
  forall h k l vs, load_list load h l = Some vs -> load_list load (h ++ k) l = Some vs.
Proof. intros Hst h k l vs. by apply stable_traverse. Qed.

Lemma stable_ptr {V : Type} (load : heap -> addr -> option V) :
  stable load ->
  forall h k p v, load_ptr load h p = Some v -> load_ptr load (h ++ k) p = Some v.
Proof.
  intros Hst h k [a|] v; simpl; [|done].
  destruct (load h a) as [x|] eqn:Ha; [|done].
  by rewrite (Hst h k a x Ha).
Qed.

Ltac stable_cell :=
  let Ho := fresh "Ho" in
  intros ? ? ? ?;
  match goal with |- ?load ?h ?a = _ -> _ => unfold load end;
  match goal with
  | |- context [?h !! ?a] => destruct (h !! a) as [[]|] eqn:Ho; try done
  end;
  rewrite (lookup_old _ _ _ _ Ho).

Lemma stable_Identifier : stable load_Identifier.
Proof. stable_cell. done. Qed.

Lemma stable_Enum : stable load_Enum.
Proof. stable_cell. done. Qed.

Lemma stable_CompositeType : stable load_CompositeType.
Proof. stable_cell. done. Qed.

Lemma stable_Process : stable load_Process.
Proof. stable_cell. done. Qed.

Lemma stable_WASM : stable load_WASM.
Proof. stable_cell. done. Qed.

Lemma stable_Column : stable load_Column.
Proof.
  stable_cell.
  destruct (load_ptr load_Identifier h (cell.Column.Table x)) as [t|] eqn:Ht; [|done].
  destruct (load_ptr load_Identifier h (cell.Column.Type_ x)) as [ty|] eqn:Hty; [|done].
  destruct (load_ptr load_Identifier h (cell.Column.EmbedTable x)) as [e|] eqn:He;
    [|done].
  by rewrite !(stable_ptr _ stable_Identifier h k _ _ Ht),
    !(stable_ptr _ stable_Identifier h k _ _ Hty),
    !(stable_ptr _ stable_Identifier h k _ _ He).
Qed.

Lemma stable_Table : stable load_Table.
Proof.
  stable_cell.
  destruct (load_ptr load_Identifier h (cell.Table.Rel x)) as [rel|] eqn:Hrel; [|done].
  destruct (traverse (load_Column h) (cell.Table.Columns x)) as [cols|] eqn:Hcols;
    [|done].
  by rewrite (stable_ptr _ stable_Identifier h k _ _ Hrel),
    (stable_traverse _ stable_Column h k _ _ Hcols).
Qed.

Lemma stable_Schema : stable load_Schema.
Proof.
  stable_cell.
  destruct (traverse (load_Table h) (cell.Schema.Tables x)) as [ts|] eqn:Hts; [|done].
  destruct (traverse (load_Enum h) (cell.Schema.Enums x)) as [es|] eqn:Hes; [|done].
  destruct (traverse (load_CompositeType h) (cell.Schema.CompositeTypes x))
    as [cts|] eqn:Hcts; [|done].
  by rewrite (stable_traverse _ stable_Table h k _ _ Hts),
    (stable_traverse _ stable_Enum h k _ _ Hes),
    (stable_traverse _ stable_CompositeType h k _ _ Hcts).
Qed.

Lemma stable_Catalog : stable load_Catalog.
Proof.
  stable_cell.
  destruct (traverse (load_Schema h) (cell.Catalog.Schemas x)) as [ss|] eqn:Hss;
    [|done].
  by rewrite (stable_traverse _ stable_Schema h k _ _ Hss).
Qed.

Lemma stable_Override : stable load_Override.
Proof.
  stable_cell.
  destruct (load_ptr load_Identifier h (cell.Override.Table x)) as [t|] eqn:Ht; [|done].
  by rewrite (stable_ptr _ stable_Identifier h k _ _ Ht).
Qed.

Lemma stable_Codegen : stable load_Codegen.
Proof.
  stable_cell.
  destruct (load_ptr load_Process h (cell.Codegen.Process x)) as [p|] eqn:Hp; [|done].
  destruct (load_ptr load_WASM h (cell.Codegen.Wasm x)) as [w|] eqn:Hw; [|done].
  by rewrite (stable_ptr _ stable_Process h k _ _ Hp),
    (stable_ptr _ stable_WASM h k _ _ Hw).
Qed.

Lemma stable_Settings : stable load_Settings.
Proof.
  stable_cell.
  destruct (traverse (load_Override h) (cell.Settings.Overrides x)) as [os|] eqn:Hos;
    [|done].
  destruct (load_ptr load_Codegen h (cell.Settings.Codegen x)) as [cg|] eqn:Hcg;
    [|done].
  by rewrite (stable_traverse _ stable_Override h k _ _ Hos),
    (stable_ptr _ stable_Codegen h k _ _ Hcg).
Qed.

Lemma stable_Parameter : stable load_Parameter.
Proof.
  stable_cell.
  destruct (load_ptr load_Column h (cell.Parameter_.Column x)) as [c|] eqn:Hc; [|done].
  by rewrite (stable_ptr _ stable_Column h k _ _ Hc).
Qed.

Lemma stable_Query : stable load_Query.
Proof.
  stable_cell.
  destruct (traverse (load_Column h) (cell.Query.Columns x)) as [cs|] eqn:Hcs; [|done].
  destruct (traverse (load_Parameter h) (cell.Query.Params x)) as [ps|] eqn:Hps;
    [|done].
  destruct (load_ptr load_Identifier h (cell.Query.InsertIntoTable x)) as [i|] eqn:Hi;
    [|done].
  by rewrite (stable_traverse _ stable_Column h k _ _ Hcs),
    (stable_traverse _ stable_Parameter h k _ _ Hps),
    (stable_ptr _ stable_Identifier h k _ _ Hi).
Qed.

Lemma stable_CodeGenRequest : stable load_CodeGenRequest.
Proof.
  stable_cell.
  destruct (load_ptr load_Settings h (cell.CodeGenRequest.Settings x)) as [s|] eqn:Hs;
    [|done].
  destruct (load_ptr load_Catalog h (cell.CodeGenRequest.Catalog x)) as [c|] eqn:Hc;
    [|done].
  destruct (traverse (load_Query h) (cell.CodeGenRequest.Queries x)) as [qs|] eqn:Hqs;
    [|done].
  by rewrite (stable_ptr _ stable_Settings h k _ _ Hs),
    (stable_ptr _ stable_Catalog h k _ _ Hc),
    (stable_traverse _ stable_Query h k _ _ Hqs).
Qed.

(** ** Runs and the functions without a heap *)

Lemma mbind_Ret {A B : Type} (m : M A) (k : A -> M B) (h h' : heap) (a : A) :
  m h = Ret (a, h') -> mbind m k h = k a h'.
Proof. unfold mbind. by intros ->. Qed.

Lemma mbind_Panic {A B : Type} (m : M A) (k : A -> M B) (h : heap) (e : error) :
  m h = Panic e -> mbind m k h = Panic e.
Proof. unfold mbind. by intros ->. Qed.

Lemma sim_bind {A B V W : Type} (load1 : heap -> A -> option V)
    (load2 : heap -> B -> option W) (m : M A) (k : A -> M B)
    (p : outcome V) (kp : V -> outcome W) (h : heap) :
  sim_at load1 m p h ->
  (forall a v k1,
      p = Ret v -> load1 (h ++ k1) a = Some v ->
      sim_at load2 (k a) (kp v) (h ++ k1)) ->
  sim_at load2 (mbind m k) (obind p kp) h.
Proof.
  intros Hm Hk. destruct p as [v|e]; simpl in *.
  - destruct Hm as (a & k1 & Hrun & Hload).
    specialize (Hk a v k1 eq_refl Hload).
    destruct (kp v) as [w|e]; simpl in *.
    + destruct Hk as (b & k2 & Hrun' & Hload').
      exists b, (k1 ++ k2).
      by rewrite (mbind_Ret _ _ _ _ _ Hrun), app_assoc.
    + by rewrite (mbind_Ret _ _ _ _ _ Hrun).
  - by apply mbind_Panic.
Qed.

Lemma sim_mret {A V : Type} (load : heap -> A -> option V) (a : A) (v : V)
    (h : heap) :
  load h a = Some v -> sim_at load (mret a) (Ret v) h.
Proof. intros Hload. exists a, []. by rewrite app_nil_r. Qed.

Lemma sim_mustM {A : Type} (r : result A) (h : heap) :
  sim_at load_value (mustM r) (must r) h.
Proof.
  destruct r as [a|e]; simpl; [|done].
  exists a, []. by rewrite app_nil_r.
Qed.

Lemma sim_alloc {V : Type} (load : heap -> addr -> option V) (o : object) (v : V)
    (h : heap) :
  load (h ++ [o]) (length h) = Some v -> sim_at load (alloc o) (Ret v) h.
Proof. intros Hload. by exists (length h), [o]. Qed.

Lemma load_Identifier_fresh (h k : heap) (x : plugin.Identifier.t) :
  load_Identifier (h ++ OIdentifier x :: k) (length h) = Some x.
Proof. unfold load_Identifier. by rewrite lookup_fresh_0. Qed.

(** The loop with a body that simulates a function simulates the loop
    of that function. *)
Lemma range_appendM_sim {A V : Type} (load : heap -> addr -> option V)
    (f : A -> M addr) (fp : A -> outcome V) (xs : list A) :
  stable load ->
  (forall x, simulates load (f x) (fp x)) ->
  forall out outv h,
    load_list load h out = Some outv ->
    sim_at (load_list load) (range_appendM f xs out)
      (range_append_from fp xs outv) h.
Proof.
  intros Hst Hf. induction xs as [|x xs IH]; intros out outv h Hout; simpl.
  - by apply sim_mret.
  - apply (sim_bind load (load_list load) _ _ _ _ _ (Hf x h)).
    intros a v k1 _ Hload. apply IH.
    apply traverse_snoc; [|done]. by apply (stable_list load Hst).
Qed.

(** The loop over a slice of pointers: it panics when the body panics
    on one of them. *)
Lemma range_appendM_checked {R X V : Type} (load : heap -> addr -> option V)
    (ck : R -> option X) (fm : R -> M addr) (f : X -> V) (raws : list R) :
  stable load ->
  (forall raw, simulates_checked load (fm raw) (f <$> ck raw)) ->
  forall out outv h,
    load_list load h out = Some outv ->
    match traverse ck raws with
    | Some xs =>
        sim_at (load_list load) (range_appendM fm raws out)
          (Ret (outv ++ (f <$> xs))) h
    | None => exists e, range_appendM fm raws out h = Panic e
    end.
Proof.
  intros Hst Hf. induction raws as [|raw raws IH]; intros out outv h Hout; simpl.
  - rewrite app_nil_r. by apply sim_mret.
  - specialize (Hf raw). destruct (ck raw) as [x|]; simpl in Hf.
    + destruct (Hf h) as (a & k1 & Hrun & Hload).
      rewrite (mbind_Ret _ _ _ _ _ Hrun).
      assert (load_list load (h ++ k1) (out ++ [a]) = Some (outv ++ [f x])) as Hout'.
      { apply traverse_snoc; [|done]. by apply (stable_list load Hst). }
      specialize (IH (out ++ [a]) (outv ++ [f x]) (h ++ k1) Hout').
      destruct (traverse ck raws) as [xs|].
      * destruct IH as (l & k2 & Hrun' & Hload').
        exists l, (k1 ++ k2). rewrite app_assoc. split; [done|].
        rewrite Hload'. f_equal. by rewrite <- app_assoc.
      * done.
    + destruct (Hf h) as [e He]. exists e. by apply mbind_Panic.
Qed.

(** Heaps are kept in the form [h ++ k], and addresses in the form
    [length h + i]; a run is unfolded into its allocations. *)
Ltac heap_norm :=
  repeat first
    [ rewrite length_app
    | rewrite <- app_assoc
    | rewrite <- Nat.add_assoc
    | rewrite lookup_fresh
    | rewrite lookup_fresh_0
    | rewrite insert_fresh_0
    | progress simpl ].

Ltac run_all :=
  unfold mbind, mret, alloc, deref, mustM, assign_Codegen, assign_Column;
  heap_norm.

Lemma check_Result_default_schema (r : option ptr.Result.t) (v : compiler.Result.t) :
  check_Result r = Some v ->
  exists r' c,
    r = Some r' /\ ptr.Result.Catalog r' = Some c /\
    ptr.Catalog.DefaultSchema c =
      catalog.Catalog.DefaultSchema (compiler.Result.Catalog v).
Proof.
  unfold check_Result. destruct r as [r'|]; [|done].
  destruct (check_Catalog (ptr.Result.Catalog r')) as [cv|] eqn:Hc; [|done].
  destruct (traverse check_Query (ptr.Result.Queries r')) as [qs|]; [|done].
  intros Hv. simplify_eq. simpl.
  unfold check_Catalog in Hc.
  destruct (ptr.Result.Catalog r') as [c|] eqn:Hcat; [|done].
  destruct (traverse check_Schema (ptr.Catalog.Schemas c)); [|done].
  simplify_eq. by exists r', c.
Qed.

Lemma pluginOverrideM_sim (r : option ptr.Result.t) (v : compiler.Result.t)
    (o : config.Override.t) :
  check_Result r = Some v ->
  simulates load_Override (pluginOverrideM r o) (pluginOverride v o).
Proof.
  intros Hv h.
  destruct (check_Result_default_schema r v Hv) as (r' & c & -> & Hc & Hds).
  unfold pluginOverrideM, pluginOverride. rewrite <- Hds.
  destruct (json_Marshal (pluginGoType o)) as [code|e].
  - destruct (String.eqb (config.Override.Column o) ""); simpl.
    + run_all.
      eexists _, [_; _]. split; [reflexivity|].
      unfold load_Override. heap_norm. by rewrite load_Identifier_fresh.
    + destruct (Split (config.Override.Column o) ".")
        as [|p0 [|p1 [|p2 [|p3 [|p4 l]]]]]; simpl; run_all;
        rewrite ?Hc; run_all;
        (eexists _, [_; _]; split; [reflexivity|]);
        unfold load_Override; heap_norm; by rewrite load_Identifier_fresh.
  - destruct (String.eqb (config.Override.Column o) ""); simpl.
    + by run_all.
    + destruct (Split (config.Override.Column o) ".")
        as [|p0 [|p1 [|p2 [|p3 [|p4 l]]]]]; simpl; run_all;
        rewrite ?Hc; by run_all.
Qed.

Lemma pluginCodegen_scanM_sim (plugins : list config.Plugin.t)
    (s : config.Codegen.t Node) (c0 : cell.Codegen.t) (h : heap) :
  cell.Codegen.Process c0 = None ->
  cell.Codegen.Wasm c0 = None ->
  exists c' k,
    pluginCodegen_scanM plugins s (length h) (h ++ [OCodegen c0]) =
      Ret (length h, h ++ OCodegen c' :: k) /\
    load_Codegen (h ++ OCodegen c' :: k) (length h) =
      Some (pluginCodegen_scan plugins s
              {| plugin.Codegen.Out := cell.Codegen.Out c0;
                 plugin.Codegen.Plugin := cell.Codegen.Plugin c0;
                 plugin.Codegen.Options := cell.Codegen.Options c0;
                 plugin.Codegen.Env := cell.Codegen.Env c0;
                 plugin.Codegen.Process := None;
                 plugin.Codegen.Wasm := None |}).
Proof.
  intros Hp Hw. induction plugins as [|p plugins IH]; simpl.
  - exists c0, []. split; [done|].
    unfold load_Codegen. heap_norm. by rewrite Hp, Hw.
  - destruct (String.eqb (config.Plugin.Name p) (config.Codegen.Plugin s)); [|done].
    unfold pluginProcessM, pluginWASMM, pluginProcess, pluginWASM.
    destruct (config.Plugin.Process p) as [proc|];
      destruct (config.Plugin.WASM p) as [w|]; run_all;
      (eexists _, _; split; [reflexivity|]);
      unfold load_Codegen, load_Process, load_WASM; heap_norm; done.
Qed.

Lemma pluginCodegenM_sim (cs : config.CombinedSettings.t Node)
    (s : config.Codegen.t Node) :
  simulates load_Codegen (pluginCodegenM cs s) (pluginCodegen cs s).
Proof.
  intros h. unfold pluginCodegenM, pluginCodegen.
  destruct (YAMLtoJSON (config.Codegen.Options s)) as [opts|e]; simpl; [|by run_all].
  unfold mbind at 1. simpl. unfold mbind, alloc.
  destruct (pluginCodegen_scanM_sim
              (config.Config.Plugins (config.CombinedSettings.Global cs)) s
              {| cell.Codegen.Out := config.Codegen.Out s;
                 cell.Codegen.Plugin := config.Codegen.Plugin s;
                 cell.Codegen.Options := opts;
                 cell.Codegen.Env := [];
                 cell.Codegen.Process := None;
                 cell.Codegen.Wasm := None |} h eq_refl eq_refl)
    as (c' & k & Hrun & Hload).
  rewrite Hrun. by exists (length h), (OCodegen c' :: k).
Qed.

Lemma load_Settings_fresh (h : heap) (s : cell.Settings.t) (cg : addr)
    (ovs : list plugin.Override.t) (cgv : plugin.Codegen.t) :
  cell.Settings.Codegen s = Some cg ->
  load_list load_Override h (cell.Settings.Overrides s) = Some ovs ->
  load_Codegen h cg = Some cgv ->
  load_Settings (h ++ [OSettings s]) (length h) =
    Some {| plugin.Settings.Version := cell.Settings.Version s;
            plugin.Settings.Engine := cell.Settings.Engine s;
            plugin.Settings.Schema := cell.Settings.Schema s;
            plugin.Settings.Queries := cell.Settings.Queries s;
            plugin.Settings.Rename := cell.Settings.Rename s;
            plugin.Settings.Overrides := ovs;
            plugin.Settings.Codegen := Some cgv |}.
Proof.
  intros Hcg Hovs Hcgv. unfold load_Settings. heap_norm.
  rewrite (stable_traverse _ stable_Override h _ _ _ Hovs), Hcg. simpl.
  by rewrite (stable_Codegen h _ _ _ Hcgv).
Qed.

Lemma pluginSettingsM_sim (r : option ptr.Result.t) (v : compiler.Result.t)
    (cs : config.CombinedSettings.t Node) :
  check_Result r = Some v ->
  simulates load_Settings (pluginSettingsM r cs) (pluginSettings v cs).
Proof.
  intros Hv h. unfold pluginSettingsM, pluginSettings.
  eapply (sim_bind (load_list load_Override)).
  { apply range_appendM_sim; [apply stable_Override| |done].
    intros o. by apply pluginOverrideM_sim. }
  intros overrides ovs k1 _ Hovs.
  eapply (sim_bind load_Codegen); [apply pluginCodegenM_sim|].
  intros cg cgv k2 _ Hcg. apply sim_alloc.
  eapply load_Settings_fresh; [reflexivity| |exact Hcg].
  by apply (stable_list _ stable_Override).
Qed.

Lemma sim_panics {A : Type} (m : M A) (k : A -> M addr) :
  panics m -> panics (mbind m k).
Proof. intros Hm h. destruct (Hm h) as [e He]. exists e. by apply mbind_Panic. Qed.

Lemma pluginCatalog_columnM_sim (t : ptr.Table.t) (rel : ast.TableName.t)
    (tv : catalog.Table.t) (c : option catalog.Column.t) :
  ptr.Table.Rel t = Some rel ->
  catalog.Table.Rel tv = rel ->
  simulates_checked load_Column (pluginCatalog_columnM t c)
    (pluginCatalog_column tv <$> c).
Proof.
  intros Hrel Htv. destruct c as [c|]; simpl.
  - intros h. unfold pluginCatalog_columnM, pluginCatalog_column.
    run_all. rewrite Hrel, Htv. run_all.
    eexists _, [_; _; _]. split; [reflexivity|].
    unfold load_Column, load_ptr, load_Identifier. by heap_norm.
  - intros h. eexists. by run_all.
Qed.

Lemma load_Table_fresh (h : heap) (t : cell.Table.t) (rel : addr)
    (relv : plugin.Identifier.t) (cols : list plugin.Column.t) :
  cell.Table.Rel t = Some rel ->
  load_Identifier h rel = Some relv ->
  load_list load_Column h (cell.Table.Columns t) = Some cols ->
  load_Table (h ++ [OTable t]) (length h) =
    Some {| plugin.Table.Rel := Some relv;
            plugin.Table.Columns := cols;
            plugin.Table.Comment := cell.Table.Comment t |}.
Proof.
  intros Hrel Hrelv Hcols. unfold load_Table. heap_norm.
  rewrite Hrel. simpl. rewrite (stable_Identifier h _ _ _ Hrelv).
  by rewrite (stable_traverse _ stable_Column h _ _ _ Hcols).
Qed.

Lemma sim_bind_Ret {A B V W : Type} (load1 : heap -> A -> option V)
    (load2 : heap -> B -> option W) (m : M A) (k : A -> M B)
    (v : V) (q : outcome W) (h : heap) :
  sim_at load1 m (Ret v) h ->
  (forall a k1, load1 (h ++ k1) a = Some v -> sim_at load2 (k a) q (h ++ k1)) ->
  sim_at load2 (mbind m k) q h.
Proof.
  intros Hm Hk.
  apply (sim_bind load1 load2 m k (Ret v) (fun _ => q) h Hm).
  intros a v' k1 Hv. injection Hv as <-. apply Hk.
Qed.

Lemma sim_deref {A : Type} (x : A) (h : heap) :
  sim_at load_value (deref (Some x)) (Ret x) h.
Proof. exists x, []. by rewrite app_nil_r. Qed.

Lemma sim_alloc_Identifier (x : plugin.Identifier.t) (h : heap) :
  sim_at load_Identifier (alloc (OIdentifier x)) (Ret x) h.
Proof. apply sim_alloc. apply load_Identifier_fresh. Qed.

Lemma panics_bind_Ret {A B : Type} (m : M A) (k : A -> M B) (h : heap) :
  (forall a h', m h = Ret (a, h') -> exists e, k a h' = Panic e) ->
  exists e, mbind m k h = Panic e.
Proof.
  intros Hk. unfold mbind. destruct (m h) as [[a h']|e]; [by apply Hk|by exists e].
Qed.

Ltac sim_value H := unfold load_value in H; injection H as ->.

Lemma pluginCatalog_tableM_sim (t : option ptr.Table.t) :
  simulates_checked load_Table (pluginCatalog_tableM t)
    (pluginCatalog_table <$> check_Table t).
Proof.
  destruct t as [t|]; [|intros h; eexists; by run_all].
  unfold check_Table. destruct (ptr.Table.Rel t) as [rel|] eqn:Hrel.
  - destruct (traverse id (ptr.Table.Columns t)) as [cols|] eqn:Hcols; simpl.
    + set (tv := {| catalog.Table.Rel := rel;
                    catalog.Table.Columns := cols;
                    catalog.Table.Comment := ptr.Table.Comment t |}).
      intros h. unfold pluginCatalog_tableM.
      eapply sim_bind_Ret; [apply sim_deref|]. intros t' k0 Ht'. sim_value Ht'.
      eapply (sim_bind_Ret (load_list load_Column)).
      { pose proof (range_appendM_checked load_Column id (pluginCatalog_columnM t)
                      (pluginCatalog_column tv) (ptr.Table.Columns t) stable_Column
                      (fun c => pluginCatalog_columnM_sim t rel tv c Hrel eq_refl)
                      [] [] (h ++ k0) eq_refl) as Hloop.
        rewrite Hcols in Hloop. exact Hloop. }
      intros columns k1 Hcolumns. rewrite Hrel.
      eapply sim_bind_Ret; [apply sim_deref|]. intros rel0 k2 Hrel0. sim_value Hrel0.
      eapply sim_bind_Ret; [apply sim_alloc_Identifier|]. intros rel' k3 Hrel'.
      apply sim_alloc. unfold pluginCatalog_table. rewrite range_append_fmap.
      eapply load_Table_fresh; [reflexivity|exact Hrel'|].
      simpl. by do 2 apply (stable_list _ stable_Column).
    + set (tv := {| catalog.Table.Rel := rel;
                    catalog.Table.Columns := [];
                    catalog.Table.Comment := "" |}).
      intros h.
      pose proof (range_appendM_checked load_Column id (pluginCatalog_columnM t)
                    (pluginCatalog_column tv) (ptr.Table.Columns t) stable_Column
                    (fun c => pluginCatalog_columnM_sim t rel tv c Hrel eq_refl)
                    [] [] h eq_refl) as Hloop.
      rewrite Hcols in Hloop. destruct Hloop as [e He].
      exists e. unfold pluginCatalog_tableM.
      rewrite (mbind_Ret _ _ h h t eq_refl). by apply mbind_Panic.
  - simpl. intros h. unfold pluginCatalog_tableM.
    rewrite (mbind_Ret _ _ h h t eq_refl).
    apply panics_bind_Ret. intros l h' _. rewrite Hrel. eexists. by run_all.
Qed.

Lemma load_Enum_fresh (h k : heap) (x : plugin.Enum.t) :
  load_Enum (h ++ OEnum x :: k) (length h) = Some x.
Proof. unfold load_Enum. by rewrite lookup_fresh_0. Qed.

Lemma load_CompositeType_fresh (h k : heap) (x : plugin.CompositeType.t) :
  load_CompositeType (h ++ OCompositeType x :: k) (length h) = Some x.
Proof. unfold load_CompositeType. by rewrite lookup_fresh_0. Qed.

Lemma pluginCatalog_typesM_sim (types : list ptr.Type_) :
  forall enums cts ev cv h,
    load_list load_Enum h enums = Some ev ->
    load_list load_CompositeType h cts = Some cv ->
    match traverse check_Type types with
    | Some tys =>
        sim_at load_types (pluginCatalog_typesM types enums cts)
          (Ret (ev ++ omap enum_of_type tys, cv ++ omap composite_of_type tys)) h
    | None => exists e, pluginCatalog_typesM types enums cts h = Panic e
    end.
Proof.
  induction types as [|typ types IH]; intros enums cts ev cv h Hev Hcv; simpl.
  - rewrite !app_nil_r. apply sim_mret. unfold load_types. simpl.
    by rewrite Hev, Hcv.
  - destruct typ as [[e|]|[ct|]|]; simpl.
    + assert (load_list load_Enum (h ++ [OEnum (plugin.Enum.mk (catalog.Enum.Name e)
                (catalog.Enum.Vals e) (catalog.Enum.Comment e))])
                (enums ++ [length h]) =
              Some (ev ++ [plugin.Enum.mk (catalog.Enum.Name e)
                             (catalog.Enum.Vals e) (catalog.Enum.Comment e)])) as Hev'.
      { apply traverse_snoc; [by apply (stable_list _ stable_Enum)|].
        apply load_Enum_fresh. }
      specialize (IH _ cts _ cv _ Hev'
                    (stable_list _ stable_CompositeType _ _ _ _ Hcv)).
      destruct (traverse check_Type types) as [tys|]; simpl.
      * destruct IH as (res & k & Hrun & Hload).
        rewrite <- app_assoc in Hrun, Hload. simpl in Hrun, Hload.
        eexists res, (_ :: k). run_all. split; [exact Hrun|].
        rewrite Hload. by rewrite <- app_assoc.
      * destruct IH as [e' He']. exists e'. by run_all.
    + eexists. by run_all.
    + assert (load_list load_CompositeType
                (h ++ [OCompositeType (plugin.CompositeType.mk
                         (catalog.CompositeType.Name ct)
                         (catalog.CompositeType.Comment ct))])
                (cts ++ [length h]) =
              Some (cv ++ [plugin.CompositeType.mk (catalog.CompositeType.Name ct)
                             (catalog.CompositeType.Comment ct)])) as Hcv'.
      { apply traverse_snoc; [by apply (stable_list _ stable_CompositeType)|].
        apply load_CompositeType_fresh. }
      specialize (IH enums _ ev _ _ (stable_list _ stable_Enum _ _ _ _ Hev) Hcv').
      destruct (traverse check_Type types) as [tys|]; simpl.
      * destruct IH as (res & k & Hrun & Hload).
        rewrite <- app_assoc in Hrun, Hload. simpl in Hrun, Hload.
        eexists res, (_ :: k). run_all. split; [exact Hrun|].
        rewrite Hload. by rewrite <- app_assoc.
      * destruct IH as [e' He']. exists e'. by run_all.
    + eexists. by run_all.
    + specialize (IH enums cts ev cv h Hev Hcv).
      by destruct (traverse check_Type types) as [tys|].
Qed.

Lemma load_Schema_fresh (h : heap) (s : cell.Schema.t)
    (tables : list plugin.Table.t) (enums : list plugin.Enum.t)
    (cts : list plugin.CompositeType.t) :
  load_list load_Table h (cell.Schema.Tables s) = Some tables ->
  load_list load_Enum h (cell.Schema.Enums s) = Some enums ->
  load_list load_CompositeType h (cell.Schema.CompositeTypes s) = Some cts ->
  load_Schema (h ++ [OSchema s]) (length h) =
    Some {| plugin.Schema.Comment := cell.Schema.Comment s;
            plugin.Schema.Name := cell.Schema.Name s;
            plugin.Schema.Tables := tables;
            plugin.Schema.Enums := enums;
            plugin.Schema.CompositeTypes := cts |}.
Proof.
  intros Ht He Hc. unfold load_Schema. heap_norm.
  by rewrite (stable_traverse _ stable_Table h _ _ _ Ht),
    (stable_traverse _ stable_Enum h _ _ _ He),
    (stable_traverse _ stable_CompositeType h _ _ _ Hc).
Qed.

Lemma stable_types (h k : heap) (l : list addr * list addr)
    (v : list plugin.Enum.t * list plugin.CompositeType.t) :
  load_types h l = Some v -> load_types (h ++ k) l = Some v.
Proof.
  unfold load_types.
  destruct (load_list load_Enum h (fst l)) as [es|] eqn:He; [|done].
  destruct (load_list load_CompositeType h (snd l)) as [cs|] eqn:Hc; [|done].
  by rewrite (stable_list _ stable_Enum _ _ _ _ He),
    (stable_list _ stable_CompositeType _ _ _ _ Hc).
Qed.

Lemma load_types_inv (h : heap) (l : list addr * list addr)
    (es : list plugin.Enum.t) (cs : list plugin.CompositeType.t) :
  load_types h l = Some (es, cs) ->
  load_list load_Enum h (fst l) = Some es /\
  load_list load_CompositeType h (snd l) = Some cs.
Proof.
  unfold load_types.
  destruct (load_list load_Enum h (fst l)) as [es'|]; [|done].
  destruct (load_list load_CompositeType h (snd l)) as [cs'|]; [|done].
  intros Heq. by simplify_eq.
Qed.

Lemma pluginCatalog_schema_eq (s : catalog.Schema.t) :
  pluginCatalog_schema s =
    {| plugin.Schema.Comment := catalog.Schema.Comment s;
       plugin.Schema.Name := catalog.Schema.Name s;
       plugin.Schema.Tables := pluginCatalog_table <$> catalog.Schema.Tables s;
       plugin.Schema.Enums := omap enum_of_type (catalog.Schema.Types s);
       plugin.Schema.CompositeTypes :=
         omap composite_of_type (catalog.Schema.Types s) |}.
Proof.
  unfold pluginCatalog_schema, pluginCatalog_types.
  rewrite pluginCatalog_types_from. simpl. by rewrite range_append_fmap.
Qed.

Lemma pluginCatalog_schemaM_sim (s : option ptr.Schema.t) :
  simulates_checked load_Schema (pluginCatalog_schemaM s)
    (pluginCatalog_schema <$> check_Schema s).
Proof.
  destruct s as [s|]; [|intros h; eexists; by run_all].
  unfold check_Schema.
  destruct (traverse check_Type (ptr.Schema.Types s)) as [tys|] eqn:Htys.
  - destruct (traverse check_Table (ptr.Schema.Tables s)) as [ts|] eqn:Hts; simpl.
    + rewrite pluginCatalog_schema_eq. intros h.
      unfold pluginCatalog_schemaM.
      eapply sim_bind_Ret; [apply sim_deref|]. intros s' k0 Hs'. sim_value Hs'.
      eapply (sim_bind_Ret load_types).
      { pose proof (pluginCatalog_typesM_sim (ptr.Schema.Types s) [] [] [] []
                      (h ++ k0) eq_refl eq_refl) as Htypes.
        rewrite Htys in Htypes. exact Htypes. }
      intros types k1 Htypes. simpl in Htypes.
      apply load_types_inv in Htypes as [Hes Hcs].
      eapply (sim_bind_Ret (load_list load_Table)).
      { pose proof (range_appendM_checked load_Table check_Table
                      pluginCatalog_tableM pluginCatalog_table
                      (ptr.Schema.Tables s) stable_Table
                      pluginCatalog_tableM_sim [] [] ((h ++ k0) ++ k1) eq_refl)
          as Hloop.
        rewrite Hts in Hloop. exact Hloop. }
      intros tables k2 Htables. apply sim_alloc.
      eapply load_Schema_fresh; simpl; [exact Htables| |].
      * by apply (stable_list _ stable_Enum).
      * by apply (stable_list _ stable_CompositeType).
    + intros h. unfold pluginCatalog_schemaM.
      rewrite (mbind_Ret _ _ h h s eq_refl).
      apply panics_bind_Ret. intros types h' _.
      pose proof (range_appendM_checked load_Table check_Table
                    pluginCatalog_tableM pluginCatalog_table
                    (ptr.Schema.Tables s) stable_Table
                    pluginCatalog_tableM_sim [] [] h' eq_refl) as Hloop.
      rewrite Hts in Hloop. destruct Hloop as [e He].
      exists e. by apply mbind_Panic.
  - assert (forall h, exists e,
               pluginCatalog_schemaM (Some s) h = Panic e) as Hpanic.
    { intros h. unfold pluginCatalog_schemaM.
      rewrite (mbind_Ret _ _ h h s eq_refl).
      pose proof (pluginCatalog_typesM_sim (ptr.Schema.Types s) [] [] [] []
                    h eq_refl eq_refl) as Htypes.
      rewrite Htys in Htypes. destruct Htypes as [e He].
      exists e. by apply mbind_Panic. }
    by destruct (traverse check_Table (ptr.Schema.Tables s)).
Qed.

Lemma load_Catalog_fresh (h : heap) (c : cell.Catalog.t)
    (schemas : list plugin.Schema.t) :
  load_list load_Schema h (cell.Catalog.Schemas c) = Some schemas ->
  load_Catalog (h ++ [OCatalog c]) (length h) =
    Some {| plugin.Catalog.Comment := cell.Catalog.Comment c;
            plugin.Catalog.DefaultSchema := cell.Catalog.DefaultSchema c;
            plugin.Catalog.Name := cell.Catalog.Name c;
            plugin.Catalog.Schemas := schemas |}.
Proof.
  intros Hs. unfold load_Catalog. heap_norm.
  by rewrite (stable_traverse _ stable_Schema h _ _ _ Hs).
Qed.

Lemma pluginCatalogM_sim (c : option ptr.Catalog.t) :
  simulates_checked load_Catalog (pluginCatalogM c)
    (pluginCatalog <$> check_Catalog c).
Proof.
  destruct c as [c|]; [|intros h; eexists; by run_all].
  unfold check_Catalog.
  destruct (traverse check_Schema (ptr.Catalog.Schemas c)) as [ss|] eqn:Hss; simpl.
  - unfold pluginCatalog. rewrite range_append_fmap. intros h.
    unfold pluginCatalogM.
    eapply sim_bind_Ret; [apply sim_deref|]. intros c' k0 Hc'. sim_value Hc'.
    eapply (sim_bind_Ret (load_list load_Schema)).
    { pose proof (range_appendM_checked load_Schema check_Schema
                    pluginCatalog_schemaM pluginCatalog_schema
                    (ptr.Catalog.Schemas c) stable_Schema
                    pluginCatalog_schemaM_sim [] [] (h ++ k0) eq_refl) as Hloop.
      rewrite Hss in Hloop. exact Hloop. }
    intros schemas k1 Hschemas. apply sim_alloc.
    by eapply load_Catalog_fresh.
  - intros h. unfold pluginCatalogM.
    rewrite (mbind_Ret _ _ h h c eq_refl).
    pose proof (range_appendM_checked load_Schema check_Schema
                  pluginCatalog_schemaM pluginCatalog_schema
                  (ptr.Catalog.Schemas c) stable_Schema
                  pluginCatalog_schemaM_sim [] [] h eq_refl) as Hloop.
    rewrite Hss in Hloop. destruct Hloop as [e He].
    exists e. by apply mbind_Panic.
Qed.

Lemma pluginQueryColumnM_sim (c : option compiler.Column.t) :
  simulates_checked load_Column (pluginQueryColumnM c) (pluginQueryColumn <$> c).
Proof.
  destruct c as [c|]; simpl; [|intros h; eexists; by run_all].
  intros h. unfold sim_at, pluginQueryColumnM, pluginQueryColumn.
  rewrite (mbind_Ret _ _ h h c eq_refl).
  destruct (compiler.Column.Type_ c) as [ty|];
    destruct (compiler.Column.Table c) as [tab|];
    destruct (compiler.Column.EmbedTable c) as [emb|]; run_all;
    (eexists _, (_ :: _); split; [reflexivity|]);
    unfold load_Column, load_ptr, load_Identifier; by heap_norm.
Qed.

Lemma load_Parameter_fresh (h : heap) (p : cell.Parameter_.t) (c : addr)
    (cv : plugin.Column.t) :
  cell.Parameter_.Column p = Some c ->
  load_Column h c = Some cv ->
  load_Parameter (h ++ [OParameter p]) (length h) =
    Some {| plugin.Parameter_.Number := cell.Parameter_.Number p;
            plugin.Parameter_.Column := Some cv |}.
Proof.
  intros Hc Hcv. unfold load_Parameter. heap_norm. rewrite Hc. simpl.
  by rewrite (stable_Column h _ _ _ Hcv).
Qed.

Lemma pluginQueryParamM_sim (p : ptr.Parameter_.t) :
  simulates_checked load_Parameter (pluginQueryParamM p)
    (pluginQueryParam <$> check_Parameter p).
Proof.
  unfold check_Parameter, pluginQueryParamM.
  pose proof (pluginQueryColumnM_sim (ptr.Parameter_.Column p)) as Hcol.
  destruct (ptr.Parameter_.Column p) as [c|]; simpl in *.
  - intros h. eapply sim_bind_Ret; [apply Hcol|].
    intros column k1 Hcolumn. apply sim_alloc.
    unfold pluginQueryParam. simpl.
    by eapply load_Parameter_fresh.
  - by apply sim_panics.
Qed.

Lemma load_Query_fresh (h : heap) (q : cell.Query.t)
    (columns : list plugin.Column.t) (params : list plugin.Parameter_.t)
    (iit : option plugin.Identifier.t) :
  load_list load_Column h (cell.Query.Columns q) = Some columns ->
  load_list load_Parameter h (cell.Query.Params q) = Some params ->
  load_ptr load_Identifier h (cell.Query.InsertIntoTable q) = Some iit ->
  load_Query (h ++ [OQuery q]) (length h) =
    Some {| plugin.Query.Text := cell.Query.Text q;
            plugin.Query.Name := cell.Query.Name q;
            plugin.Query.Cmd := cell.Query.Cmd q;
            plugin.Query.Columns := columns;
            plugin.Query.Params := params;
            plugin.Query.Comments := cell.Query.Comments q;
            plugin.Query.Filename := cell.Query.Filename q;
            plugin.Query.InsertIntoTable := iit |}.
Proof.
  intros Hc Hp Hi. unfold load_Query. heap_norm.
  by rewrite (stable_traverse _ stable_Column h _ _ _ Hc),
    (stable_traverse _ stable_Parameter h _ _ _ Hp),
    (stable_ptr _ stable_Identifier h _ _ _ Hi).
Qed.

Lemma pluginQueries_query_eq (q : compiler.Query.t) :
  pluginQueries_query q =
    {| plugin.Query.Name := compiler.Metadata.Name (compiler.Query.Metadata q);
       plugin.Query.Cmd := compiler.Metadata.Cmd (compiler.Query.Metadata q);
       plugin.Query.Text := compiler.Query.SQL q;
       plugin.Query.Comments :=
         compiler.Metadata.Comments (compiler.Query.Metadata q);
       plugin.Query.Columns := pluginQueryColumn <$> compiler.Query.Columns q;
       plugin.Query.Params := pluginQueryParam <$> compiler.Query.Params q;
       plugin.Query.Filename :=
         compiler.Metadata.Filename (compiler.Query.Metadata q);
       plugin.Query.InsertIntoTable :=
         tableIdentifier <$> compiler.Query.InsertIntoTable q |}.
Proof.
  unfold pluginQueries_query. rewrite !range_append_fmap.
  by destruct (compiler.Query.InsertIntoTable q).
Qed.

Lemma pluginQueries_queryM_sim (q : option ptr.Query.t) :
  simulates_checked load_Query (pluginQueries_queryM q)
    (pluginQueries_query <$> check_Query q).
Proof.
  destruct q as [q|]; [|intros h; eexists; by run_all].
  unfold check_Query.
  destruct (traverse id (ptr.Query.Columns q)) as [cs|] eqn:Hcs.
  - destruct (traverse check_Parameter (ptr.Query.Params q)) as [ps|] eqn:Hps; simpl.
    + rewrite pluginQueries_query_eq. intros h. unfold pluginQueries_queryM.
      eapply sim_bind_Ret; [apply sim_deref|]. intros q' k0 Hq'. sim_value Hq'.
      eapply (sim_bind_Ret (load_list load_Column)).
      { pose proof (range_appendM_checked load_Column id pluginQueryColumnM
                      pluginQueryColumn (ptr.Query.Columns q) stable_Column
                      pluginQueryColumnM_sim [] [] (h ++ k0) eq_refl) as Hloop.
        rewrite Hcs in Hloop. exact Hloop. }
      intros columns k1 Hcolumns.
      eapply (sim_bind_Ret (load_list load_Parameter)).
      { pose proof (range_appendM_checked load_Parameter check_Parameter
                      pluginQueryParamM pluginQueryParam (ptr.Query.Params q)
                      stable_Parameter pluginQueryParamM_sim [] []
                      ((h ++ k0) ++ k1) eq_refl) as Hloop.
        rewrite Hps in Hloop. exact Hloop. }
      intros params k2 Hparams.
      eapply (sim_bind_Ret (load_ptr load_Identifier) _ _ _
                (tableIdentifier <$> ptr.Query.InsertIntoTable q)).
      { destruct (ptr.Query.InsertIntoTable q) as [n|].
        - eapply sim_bind_Ret; [apply sim_alloc_Identifier|].
          intros a k3 Ha. apply sim_mret. simpl. by rewrite Ha.
        - by apply sim_mret. }
      intros iit k3 Hiit. apply sim_alloc.
      eapply load_Query_fresh; simpl; [| |exact Hiit].
      * by do 2 apply (stable_list _ stable_Column).
      * by apply (stable_list _ stable_Parameter).
    + intros h. unfold pluginQueries_queryM.
      rewrite (mbind_Ret _ _ h h q eq_refl).
      apply panics_bind_Ret. intros columns h' _.
      pose proof (range_appendM_checked load_Parameter check_Parameter
                    pluginQueryParamM pluginQueryParam (ptr.Query.Params q)
                    stable_Parameter pluginQueryParamM_sim [] [] h' eq_refl)
        as Hloop.
      rewrite Hps in Hloop. destruct Hloop as [e He].
      exists e. by apply mbind_Panic.
  - simpl. intros h. unfold pluginQueries_queryM.
    rewrite (mbind_Ret _ _ h h q eq_refl).
    pose proof (range_appendM_checked load_Column id pluginQueryColumnM
                  pluginQueryColumn (ptr.Query.Columns q) stable_Column
                  pluginQueryColumnM_sim [] [] h eq_refl) as Hloop.
    rewrite Hcs in Hloop. destruct Hloop as [e He].
    exists e. by apply mbind_Panic.
Qed.

Lemma pluginQueriesM_sim (r : ptr.Result.t) :
  match traverse check_Query (ptr.Result.Queries r) with
  | Some qs =>
      simulates (load_list load_Query) (pluginQueriesM (Some r))
        (Ret (pluginQueries_query <$> qs))
  | None => panics (pluginQueriesM (Some r))
  end.
Proof.
  destruct (traverse check_Query (ptr.Result.Queries r)) as [qs|] eqn:Hqs.
  - intros h. unfold pluginQueriesM.
    eapply sim_bind_Ret; [apply sim_deref|]. intros r' k0 Hr'. sim_value Hr'.
    pose proof (range_appendM_checked load_Query check_Query pluginQueries_queryM
                  pluginQueries_query (ptr.Result.Queries r) stable_Query
                  pluginQueries_queryM_sim [] [] (h ++ k0) eq_refl) as Hloop.
    rewrite Hqs in Hloop. exact Hloop.
  - intros h. unfold pluginQueriesM.
    rewrite (mbind_Ret _ _ h h r eq_refl).
    pose proof (range_appendM_checked load_Query check_Query pluginQueries_queryM
                  pluginQueries_query (ptr.Result.Queries r) stable_Query
                  pluginQueries_queryM_sim [] [] h eq_refl) as Hloop.
    by rewrite Hqs in Hloop.
Qed.

(** ** The request on the heap *)

Lemma sim_fresh_bind {A V W : Type} (load1 : heap -> A -> option V)
    (load2 : heap -> addr -> option W) (m : M A) (k : A -> M addr)
    (p : outcome V) (kp : V -> outcome W) (h : heap) :
  sim_at load1 m p h ->
  (forall a v k1,
      p = Ret v -> load1 (h ++ k1) a = Some v ->
      sim_fresh_at load2 (k a) (kp v) (h ++ k1)) ->
  sim_fresh_at load2 (mbind m k) (obind p kp) h.
Proof.
  intros Hm Hk. destruct p as [v|e]; simpl in *.
  - destruct Hm as (a & k1 & Hrun & Hload).
    specialize (Hk a v k1 eq_refl Hload).
    destruct (kp v) as [w|e]; simpl in *.
    + destruct Hk as (b & k2 & Hrun' & Hload' & Hfresh).
      exists b, (k1 ++ k2).
      rewrite (mbind_Ret _ _ _ _ _ Hrun), app_assoc.
      split; [done|]. split; [done|].
      rewrite length_app in Hfresh. lia.
    + by rewrite (mbind_Ret _ _ _ _ _ Hrun).
  - by apply mbind_Panic.
Qed.

Lemma sim_fresh_bind_Ret {A V W : Type} (load1 : heap -> A -> option V)
    (load2 : heap -> addr -> option W) (m : M A) (k : A -> M addr)
    (v : V) (q : outcome W) (h : heap) :
  sim_at load1 m (Ret v) h ->
  (forall a k1, load1 (h ++ k1) a = Some v ->
                sim_fresh_at load2 (k a) q (h ++ k1)) ->
  sim_fresh_at load2 (mbind m k) q h.
Proof.
  intros Hm Hk.
  apply (sim_fresh_bind load1 load2 m k (Ret v) (fun _ => q) h Hm).
  intros a v' k1 Hv. injection Hv as <-. apply Hk.
Qed.

Lemma sim_fresh_alloc {V : Type} (load : heap -> addr -> option V) (o : object)
    (v : V) (h : heap) :
  load (h ++ [o]) (length h) = Some v -> sim_fresh_at load (alloc o) (Ret v) h.
Proof. intros Hload. exists (length h), [o]. by repeat split. Qed.

Lemma check_Result_inv (r : option ptr.Result.t) (v : compiler.Result.t) :
  check_Result r = Some v ->
  exists r',
    r = Some r' /\
    check_Catalog (ptr.Result.Catalog r') = Some (compiler.Result.Catalog v) /\
    traverse check_Query (ptr.Result.Queries r') = Some (compiler.Result.Queries v).
Proof.
  unfold check_Result. destruct r as [r'|]; [|done].
  destruct (check_Catalog (ptr.Result.Catalog r')) as [cv|] eqn:Hc; [|done].
  destruct (traverse check_Query (ptr.Result.Queries r')) as [qs|] eqn:Hqs; [|done].
  intros Hv. simplify_eq. by exists r'.
Qed.

Lemma load_CodeGenRequest_fresh (h : heap) (r : cell.CodeGenRequest.t)
    (s c : addr) (sv : plugin.Settings.t) (cv : plugin.Catalog.t)
    (qs : list plugin.Query.t) :
  cell.CodeGenRequest.Settings r = Some s ->
  cell.CodeGenRequest.Catalog r = Some c ->
  load_Settings h s = Some sv ->
  load_Catalog h c = Some cv ->
  load_list load_Query h (cell.CodeGenRequest.Queries r) = Some qs ->
  load_CodeGenRequest (h ++ [ORequest r]) (length h) =
    Some {| plugin.CodeGenRequest.Settings := Some sv;
            plugin.CodeGenRequest.Catalog := Some cv;
            plugin.CodeGenRequest.Queries := qs;
            plugin.CodeGenRequest.SqlcVersion := cell.CodeGenRequest.SqlcVersion r |}.
Proof.
  intros Hs Hc Hsv Hcv Hqs. unfold load_CodeGenRequest. heap_norm.
  rewrite Hs, Hc. simpl.
  by rewrite (stable_Settings h _ _ _ Hsv), (stable_Catalog h _ _ _ Hcv),
    (stable_traverse _ stable_Query h _ _ _ Hqs).
Qed.

(** On a compiled model none of whose pointers is nil where the shim
    dereferences it, the assembly on the heap does what the assembly
    without a heap does, and the request is a new cell. *)
Lemma codeGenRequestM_sim (r : option ptr.Result.t) (v : compiler.Result.t)
    (cs : config.CombinedSettings.t Node) (h : heap) :
  check_Result r = Some v ->
  sim_fresh_at load_CodeGenRequest (codeGenRequestM r cs) (codeGenRequest v cs) h.
Proof.
  intros Hv. destruct (check_Result_inv r v Hv) as (r' & Hr & Hc & Hqs).
  unfold codeGenRequestM, codeGenRequest.
  eapply (sim_fresh_bind load_Settings); [by apply pluginSettingsM_sim|].
  intros s sv k1 _ Hs. rewrite Hr.
  eapply sim_fresh_bind_Ret; [apply sim_deref|]. intros r0 k2 Hr0. sim_value Hr0.
  eapply (sim_fresh_bind_Ret load_Catalog).
  { pose proof (pluginCatalogM_sim (ptr.Result.Catalog r')) as Hcat.
    rewrite Hc in Hcat. apply Hcat. }
  intros c k3 Hcat.
  eapply (sim_fresh_bind_Ret (load_list load_Query)).
  { pose proof (pluginQueriesM_sim r') as Hq. rewrite Hqs in Hq. apply Hq. }
  intros queries k4 Hqueries.
  apply sim_fresh_alloc. unfold pluginQueries. rewrite range_append_fmap.
  eapply load_CodeGenRequest_fresh; [reflexivity|reflexivity| | |exact Hqueries].
  - by do 3 apply stable_Settings.
  - by apply stable_Catalog.
Qed.

(** On a compiled model with a nil pointer where the shim dereferences
    one, the assembly panics. *)
Lemma codeGenRequestM_nil (r : option ptr.Result.t)
    (cs : config.CombinedSettings.t Node) :
  check_Result r = None -> panics (codeGenRequestM r cs).
Proof.
  intros Hr h. unfold codeGenRequestM.
  apply panics_bind_Ret. intros s h1 _.
  destruct r as [r'|]; [|eexists; by run_all].
  rewrite (mbind_Ret _ _ h1 h1 r' eq_refl).
  unfold check_Result in Hr.
  pose proof (pluginCatalogM_sim (ptr.Result.Catalog r')) as Hcat.
  destruct (check_Catalog (ptr.Result.Catalog r')) as [cv|]; simpl in Hcat.
  - apply panics_bind_Ret. intros c h2 _.
    pose proof (pluginQueriesM_sim r') as Hq.
    destruct (traverse check_Query (ptr.Result.Queries r')) as [qs|]; [done|].
    destruct (Hq h2) as [e He]. exists e. by apply mbind_Panic.
  - destruct (Hcat h1) as [e He]. exists e. by apply mbind_Panic.
Qed.

(** What a run of the assembly that returns has done. *)
Lemma codeGenRequestM_Ret (r : option ptr.Result.t)
    (cs : config.CombinedSettings.t Node) (h h' : heap) (a : addr) :
  codeGenRequestM r cs h = Ret (a, h') ->
  exists v req k,
    check_Result r = Some v /\ codeGenRequest v cs = Ret req /\
    h' = h ++ k /\ load_CodeGenRequest h' a = Some req /\
    (length h <= a)%nat.
Proof.
  intros Hrun. destruct (check_Result r) as [v|] eqn:Hv.
  - pose proof (codeGenRequestM_sim r v cs h Hv) as Hsim.
    destruct (codeGenRequest v cs) as [req|e] eqn:Hreq; simpl in Hsim.
    + destruct Hsim as (a' & k & Hrun' & Hload & Hfresh).
      rewrite Hrun in Hrun'. injection Hrun' as -> ->.
      by exists v, req, k.
    + rewrite Hrun in Hsim. discriminate.
  - destruct (codeGenRequestM_nil r cs Hv h) as [e He].
    rewrite Hrun in He. discriminate.
Qed.

Lemma load_CodeGenRequest_lt (h : heap) (a : addr) (req : plugin.CodeGenRequest.t) :
  load_CodeGenRequest h a = Some req -> (a < length h)%nat.
Proof.
  unfold load_CodeGenRequest. destruct (h !! a) as [o|] eqn:Ho; [|done].
  intros _. by apply lookup_lt_Some in Ho.
Qed.

(** C8. Two runs of the assembly on the same compiled result, the same
    combined settings and the same version, from whatever heaps, that
    return, return requests that are equal once read back from the
    heap, field by field at every depth. When the second run starts in
    the heap that the first has left, as in one run of the process,
    its request is another cell than the first request, and the first
    request still reads the same after it. *)
Theorem codeGenRequestM_deep_equal (r : option ptr.Result.t)
    (cs : config.CombinedSettings.t Node) (h1 h1' h2 h2' : heap) (a1 a2 : addr) :
  codeGenRequestM r cs h1 = Ret (a1, h1') ->
  codeGenRequestM r cs h2 = Ret (a2, h2') ->
  (exists req,
      load_CodeGenRequest h1' a1 = Some req /\
      load_CodeGenRequest h2' a2 = Some req) /\
  (h2 = h1' ->
   a1 <> a2 /\ load_CodeGenRequest h2' a1 = load_CodeGenRequest h1' a1).
Proof.
  intros Hrun1 Hrun2.
  apply codeGenRequestM_Ret in Hrun1
    as (v1 & req1 & k1 & Hv1 & Hreq1 & -> & Hload1 & Hfresh1).
  apply codeGenRequestM_Ret in Hrun2
    as (v2 & req2 & k2 & Hv2 & Hreq2 & -> & Hload2 & Hfresh2).
  rewrite Hv1 in Hv2. injection Hv2 as <-.
  rewrite Hreq1 in Hreq2. injection Hreq2 as <-.
  split; [by exists req1|].
  intros ->. split.
  - apply load_CodeGenRequest_lt in Hload1. lia.
  - rewrite Hload1. by apply stable_CodeGenRequest.
Qed.

(** X2. From whatever heap, the assembly returns a request exactly when
    no pointer of the compiled result that the shim dereferences is
    nil, the descriptor of every configured override serialises and
    the options convert. *)
Theorem codeGenRequestM_returns_iff (r : option ptr.Result.t)
    (cs : config.CombinedSettings.t Node) (h : heap) :
  (exists a h', codeGenRequestM r cs h = Ret (a, h')) <->
  (exists v, check_Result r = Some v) /\
  Forall serialises (config.CombinedSettings.Overrides cs) /\
  exists opts,
    YAMLtoJSON (config.Codegen.Options (config.CombinedSettings.Codegen cs))
      = Ok opts.
Proof.
  split.
  - intros (a & h' & Hrun).
    apply codeGenRequestM_Ret in Hrun as (v & req & k & Hv & Hreq & _).
    split; [by exists v|].
    apply (proj1 (codeGenRequest_returns_iff v cs)). by exists req.
  - intros ([v Hv] & Hovs & Hopts).
    destruct (proj2 (codeGenRequest_returns_iff v cs) (conj Hovs Hopts))
      as [req Hreq].
    pose proof (codeGenRequestM_sim r v cs h Hv) as Hsim.
    rewrite Hreq in Hsim. destruct Hsim as (a & k & Hrun & _).
    by exists a, (h ++ k).
Qed.

Lemma Split_two_nonempty (s : string) :
  length (Split s ".") = 2%nat -> String.eqb s "" = false.
Proof.
  intros Hlen. destruct (String.eqb s "") eqn:Hs; [|done].
  apply String.eqb_eq in Hs. by rewrite Hs in Hlen.
Qed.

(** X3. On a compiled result none of whose dereferenced pointers is
    nil: when the descriptor of an override does not serialise and
    those of the overrides before it do, the assembly panics with the
    error of that override, whatever the options and the overrides
    after it; when every descriptor serialises and the options do not
    convert, it panics with the error of the conversion. On a compiled
    result that is nil or has a nil catalog, with a first override
    whose path has two segments, it panics with the error of the nil
    pointer, before anything is serialised. *)
Theorem codeGenRequestM_first_panic (r : option ptr.Result.t)
    (cs : config.CombinedSettings.t Node) (h : heap) :
  (forall v,
      check_Result r = Some v ->
      (forall pre o post e,
          config.CombinedSettings.Overrides cs = pre ++ o :: post ->
          Forall serialises pre ->
          json_Marshal (pluginGoType o) = Err e ->
          codeGenRequestM r cs h = Panic e) /\
      (forall e,
          Forall serialises (config.CombinedSettings.Overrides cs) ->
          YAMLtoJSON (config.Codegen.Options (config.CombinedSettings.Codegen cs))
            = Err e ->
          codeGenRequestM r cs h = Panic e)) /\
  (forall o post,
      config.CombinedSettings.Overrides cs = o :: post ->
      length (Split (config.Override.Column o) ".") = 2%nat ->
      r = None \/ (exists r', r = Some r' /\ ptr.Result.Catalog r' = None) ->
      codeGenRequestM r cs h = Panic nil_dereference).
Proof.
  split.
  - intros v Hv.
    pose proof (codeGenRequestM_sim r v cs h Hv) as Hsim.
    destruct (codeGenRequest_first_panic v cs) as [Hfirst Hopts]. split.
    + intros pre o post e Hcs Hpre Hm.
      by rewrite (Hfirst pre o post e Hcs Hpre Hm) in Hsim.
    + intros e Hovs Hyaml. by rewrite (Hopts e Hovs Hyaml) in Hsim.
  - intros o post Hcs Hlen Hnil.
    unfold codeGenRequestM, pluginSettingsM. rewrite Hcs. simpl.
    do 3 apply mbind_Panic. unfold pluginOverrideM.
    rewrite (Split_two_nonempty _ Hlen), Hlen. simpl.
    apply mbind_Panic.
    destruct Hnil as [->|(r' & -> & Hcat)]; [done|].
    rewrite (mbind_Ret _ _ h h r' eq_refl), Hcat. by apply mbind_Panic.
Qed.

(** A compiled model with every pointer set has no nil pointer. *)
Lemma check_point_Table (t : catalog.Table.t) : check_Table (point_Table t) = Some t.
Proof.
  unfold check_Table, point_Table. simpl. rewrite traverse_id_Some. by destruct t.
Qed.

Lemma check_point_Type (typ : catalog.Type_) : check_Type (point_Type typ) = Some typ.
Proof. by destruct typ. Qed.

Lemma check_point_Schema (s : catalog.Schema.t) :
  check_Schema (point_Schema s) = Some s.
Proof.
  unfold check_Schema, point_Schema. simpl.
  rewrite (traverse_map check_Table point_Table _ check_point_Table).
  rewrite (traverse_map check_Type point_Type _ check_point_Type).
  by destruct s.
Qed.

Lemma check_point_Catalog (c : catalog.Catalog.t) :
  check_Catalog (point_Catalog c) = Some c.
Proof.
  unfold check_Catalog, point_Catalog. simpl.
  rewrite (traverse_map check_Schema point_Schema _ check_point_Schema).
  by destruct c.
Qed.

Lemma check_point_Parameter (p : compiler.Parameter_.t) :
  check_Parameter (point_Parameter p) = Some p.
Proof. by destruct p. Qed.

Lemma check_point_Query (q : compiler.Query.t) : check_Query (point_Query q) = Some q.
Proof.
  unfold check_Query, point_Query. simpl. rewrite traverse_id_Some.
  rewrite (traverse_map check_Parameter point_Parameter _ check_point_Parameter).
  by destruct q.
Qed.

Lemma check_point_Result (r : compiler.Result.t) :
  check_Result (point_Result r) = Some r.
Proof.
  unfold check_Result, point_Result.
  pose proof (check_point_Catalog (compiler.Result.Catalog r)) as Hc.
  pose proof (traverse_map check_Query point_Query (compiler.Result.Queries r)
                check_point_Query) as Hq.
  cbn [ptr.Result.Catalog ptr.Result.Queries].
  rewrite Hc, Hq. by destruct r.
Qed.

(** The embedding without pointers and without a heap is the embedding
    on the heap, for the compiled models that have every pointer set. *)
Lemma codeGenRequestM_point (r : compiler.Result.t)
    (cs : config.CombinedSettings.t Node) (h : heap) :
  sim_fresh_at load_CodeGenRequest (codeGenRequestM (point_Result r) cs)
    (codeGenRequest r cs) h.
Proof. apply codeGenRequestM_sim. apply check_point_Result. Qed.

End Shim.

Arguments other_name {Node} s q.
Arguments pluginCodegen {Node} YAMLtoJSON cs s.
Arguments pluginSettings {Node} YAMLtoJSON json_Marshal r cs.
Arguments codeGenRequest {Node} YAMLtoJSON json_Marshal info_Version r settings.
Arguments codeGenRequestM {Node} YAMLtoJSON json_Marshal info_Version r settings.

(** ** Runs on the sample inputs *)

Lemma sample_bare_first :
  Forall (other_name (config.CombinedSettings.Codegen sample_py_settings))
    [sample_bare_plugin].
Proof. repeat constructor. unfold other_name. simpl. discriminate. Qed.

Lemma sample_registry_without_golang :
  Forall (other_name (config.CombinedSettings.Codegen sample_go_settings))
    (config.Config.Plugins (config.CombinedSettings.Global sample_go_settings)).
Proof. repeat constructor; unfold other_name; simpl; discriminate. Qed.

(** The target [gen-py] of the sample registry comes from the process
    entry, the first of the two entries of that name; the target
    [golang], a name that the registry does not have, has no
    descriptor. *)
Lemma pluginCodegen_target_witness :
  (exists cg,
      pluginCodegen sample_YAMLtoJSON sample_py_settings
        (config.CombinedSettings.Codegen sample_py_settings) = Ret cg /\
      plugin.Codegen.Env cg = ["PATH"] /\
      exactly_one_descriptor cg) /\
  pluginCodegen sample_YAMLtoJSON sample_go_settings
    (config.CombinedSettings.Codegen sample_go_settings) =
    Ret {| plugin.Codegen.Out := "gen";
           plugin.Codegen.Plugin := "golang";
           plugin.Codegen.Options := [];
           plugin.Codegen.Env := [];
           plugin.Codegen.Process := None;
           plugin.Codegen.Wasm := None |}.
Proof.
  split.
  - destruct (pluginCodegen_target (list Byte.byte) sample_YAMLtoJSON
                sample_py_settings
                (config.CombinedSettings.Codegen sample_py_settings) [] eq_refl)
      as [Hmatch _].
    destruct (Hmatch [sample_bare_plugin] sample_process_plugin
                [sample_wasm_plugin; sample_double_plugin] eq_refl
                sample_bare_first eq_refl)
      as (cg & Hcg & Henv & _ & _ & Hone).
    exists cg. split; [exact Hcg|]. split; [exact Henv|].
    apply Hone. left. split; [eexists; reflexivity|reflexivity].
  - destruct (pluginCodegen_target (list Byte.byte) sample_YAMLtoJSON
                sample_go_settings
                (config.CombinedSettings.Codegen sample_go_settings) [] eq_refl)
      as [_ Hnone].
    exact (Hnone sample_registry_without_golang).
Defined.

(** C1, as stated, fails on the entries [gen-kt] and [gen-rs] of the
    sample registry: each has the requested name, and the target has
    neither descriptor for the first and both for the second. It fails
    also on the second entry of the name [gen-py], whose environment is
    not the one of the target. *)
Lemma pluginCodegen_not_exactly_one :
  (sample_wasm_plugin ∈ config.Config.Plugins
                           (config.CombinedSettings.Global sample_py_settings) /\
   config.Plugin.Name sample_wasm_plugin =
     config.Codegen.Plugin (config.CombinedSettings.Codegen sample_py_settings) /\
   exists cg,
     pluginCodegen sample_YAMLtoJSON sample_py_settings
       (config.CombinedSettings.Codegen sample_py_settings) = Ret cg /\
     plugin.Codegen.Env cg <> config.Plugin.Env sample_wasm_plugin) /\
  (sample_bare_plugin ∈ config.Config.Plugins
                           (config.CombinedSettings.Global sample_kt_settings) /\
   config.Plugin.Name sample_bare_plugin =
     config.Codegen.Plugin (config.CombinedSettings.Codegen sample_kt_settings) /\
   exists cg,
     pluginCodegen sample_YAMLtoJSON sample_kt_settings
       (config.CombinedSettings.Codegen sample_kt_settings) = Ret cg /\
     plugin.Codegen.Process cg = None /\ plugin.Codegen.Wasm cg = None /\
     ~ exactly_one_descriptor cg) /\
  (sample_double_plugin ∈ config.Config.Plugins
                             (config.CombinedSettings.Global sample_rs_settings) /\
   config.Plugin.Name sample_double_plugin =
     config.Codegen.Plugin (config.CombinedSettings.Codegen sample_rs_settings) /\
   exists cg,
     pluginCodegen sample_YAMLtoJSON sample_rs_settings
       (config.CombinedSettings.Codegen sample_rs_settings) = Ret cg /\
     is_Some (plugin.Codegen.Process cg) /\ is_Some (plugin.Codegen.Wasm cg) /\
     ~ exactly_one_descriptor cg).
Proof.
  split; [|split].
  - split; [unfold sample_py_settings, sample_registry; simpl; set_solver|].
    split; [reflexivity|].
    eexists. split; [reflexivity|]. simpl. discriminate.
  - split; [unfold sample_kt_settings, sample_registry; simpl; set_solver|].
    split; [reflexivity|].
    eexists. split; [reflexivity|]. simpl.
    split; [reflexivity|]. split; [reflexivity|].
    unfold exactly_one_descriptor. simpl.
    intros [[[x Hx] _]|[_ [x Hx]]]; discriminate.
  - split; [unfold sample_rs_settings, sample_registry; simpl; set_solver|].
    split; [reflexivity|].
    eexists. split; [reflexivity|]. simpl.
    split; [eexists; reflexivity|]. split; [eexists; reflexivity|].
    unfold exactly_one_descriptor. simpl.
    intros [[_ H]|[H _]]; discriminate.
Qed.

(** With the two entries after it exchanged for none, the target
    [gen-py] is the same. *)
Lemma pluginCodegen_first_match_witness :
  pluginCodegen sample_YAMLtoJSON
    (sample_settings [sample_bare_plugin; sample_process_plugin] "gen-py")
    (config.CombinedSettings.Codegen sample_py_settings) =
  pluginCodegen sample_YAMLtoJSON sample_py_settings
    (config.CombinedSettings.Codegen sample_py_settings).
Proof.
  apply (pluginCodegen_first_match (list Byte.byte) sample_YAMLtoJSON
           sample_py_settings
           (sample_settings [sample_bare_plugin; sample_process_plugin] "gen-py")
           (config.CombinedSettings.Codegen sample_py_settings) []
           [sample_bare_plugin] [sample_wasm_plugin; sample_double_plugin] []
           sample_process_plugin eq_refl sample_bare_first eq_refl eq_refl eq_refl).
Defined.

(** The path [public.orders.id] has three segments. *)
Lemma pluginOverride_column_path_witness :
  exists ov,
    pluginOverride sample_Marshal sample_result (sample_override "public.orders.id")
      = Ret ov /\
    plugin.Override.Table ov = Some (plugin.Identifier.mk "" "public" "orders") /\
    plugin.Override.ColumnName ov = "id".
Proof.
  destruct (pluginOverride_column_path sample_Marshal sample_result
              (sample_override "public.orders.id")
              (list_byte_of_string "UUID") eq_refl)
    as (ov & Hov & _ & H3 & _).
  exists ov. split; [exact Hov|].
  exact (H3 "public" "orders" "id" eq_refl).
Defined.

(** The sample serialiser succeeds on every descriptor, so that every
    override is translated. *)
Lemma pluginOverride_abort_witness :
  exists ov,
    pluginOverride sample_Marshal sample_result (sample_override "orders.id") = Ret ov.
Proof.
  destruct (pluginOverride_abort (list Byte.byte) sample_YAMLtoJSON sample_Marshal
              "v1.30.0" sample_result (sample_override "orders.id"))
    as (_ & _ & Htotal).
  apply Htotal. intros g. eexists. reflexivity.
Defined.

(** With the serialiser that fails, the translation of an override
    panics, and so does the assembly of the request. *)
Lemma pluginOverride_abort_failing :
  pluginOverride failing_Marshal sample_result (sample_override "orders.id") =
    Panic "json: unsupported type" /\
  codeGenRequest sample_YAMLtoJSON failing_Marshal "v1.30.0" sample_result
    sample_py_settings = Panic "json: unsupported type".
Proof. split; reflexivity. Qed.

(** A query column with a resolved type. *)
Lemma pluginQueryColumn_type_witness :
  plugin.Column.Type_
    (pluginQueryColumn (sample_query_column "id" None (Some (sample_type "uuid")))) =
  Some (plugin.Identifier.mk "" "pg_catalog" "uuid").
Proof.
  destruct (pluginQueryColumn_type
              (sample_query_column "id" None (Some (sample_type "uuid"))))
    as [Hsome _].
  exact (Hsome (sample_type "uuid") eq_refl).
Defined.

(** A declared length of 0 is kept, and is not the sentinel. *)
Lemma column_length_translation_witness :
  plugin.Column.Length (pluginQueryColumn (sample_query_column "id" (Some 0%Z) None))
    = 0%Z /\
  plugin.Column.Length (pluginQueryColumn (sample_query_column "id" (Some 0%Z) None))
    <> (-1)%Z.
Proof.
  destruct column_length_translation as (_ & _ & _ & Hq).
  apply (Hq (sample_query_column "id" (Some 0%Z) None) 0%Z eq_refl). lia.
Defined.

(** C4, as stated, fails at the declared length [2^32 - 1], a value of
    [int] that is not negative: the translated length is -1, in the
    catalog walk and in the translation of a query column, as it is for
    a column without a declared length. *)
Lemma column_length_wraps :
  is_int 4294967295 /\ (0 <= 4294967295)%Z /\
  plugin.Column.Length
    (pluginCatalog_column sample_table
       (sample_catalog_column "body" (Some 4294967295%Z))) = (-1)%Z /\
  plugin.Column.Length
    (pluginQueryColumn (sample_query_column "body" (Some 4294967295%Z) None))
    = (-1)%Z /\
  plugin.Column.Length
    (pluginQueryColumn (sample_query_column "body" (Some 4294967295%Z) None)) =
  plugin.Column.Length
    (pluginQueryColumn (sample_query_column "body" None None)).
Proof.
  split; [unfold is_int; lia|]. split; [lia|].
  split; [reflexivity|]. split; reflexivity.
Qed.

(** The first sample query is an insert into [orders]. *)
Lemma pluginQueries_insert_target_witness :
  exists pq,
    pluginQueries sample_result !! 0%nat = Some pq /\
    plugin.Query.InsertIntoTable pq =
      Some (plugin.Identifier.mk "" "public" "orders").
Proof.
  destruct (pluginQueries_insert_target sample_result) as [_ Hq].
  destruct (Hq 0%nat (sample_query "CreateOrder" (Some (sample_rel "orders"))) eq_refl)
    as (pq & Hpq & _ & Hsome & _).
  exists pq. split; [exact Hpq|].
  exact (Hsome (sample_rel "orders") eq_refl).
Defined.

(** The second column of the table of the sample catalog. *)
Lemma pluginCatalog_order_witness :
  exists ps pt pc,
    plugin.Catalog.Schemas (pluginCatalog sample_catalog) !! 0%nat = Some ps /\
    plugin.Schema.Tables ps !! 0%nat = Some pt /\
    plugin.Table.Columns pt !! 1%nat = Some pc /\
    plugin.Column.Name pc = "ref".
Proof.
  destruct (pluginCatalog_order sample_catalog) as [_ Hs].
  destruct (Hs 0%nat _ eq_refl) as (ps & Hps & _ & _ & _ & Ht).
  destruct (Ht 0%nat sample_table eq_refl) as (pt & Hpt & _ & _ & _ & Hc).
  destruct (Hc 1%nat (sample_catalog_column "ref" (Some 12%Z)) eq_refl)
    as (pc & Hpc & _ & Hname).
  exists ps, pt, pc. repeat split; assumption.
Defined.

(** The column of the parameter of the first sample query has a type,
    although the compiled column has none. *)
Lemma codeGenRequest_columns_typed_witness :
  exists req,
    codeGenRequest sample_YAMLtoJSON sample_Marshal "v1.30.0" sample_result
      sample_py_settings = Ret req /\
    forall pq pc,
      pq ∈ plugin.CodeGenRequest.Queries req ->
      pc ∈ plugin.Query.Columns pq ->
      is_Some (plugin.Column.Type_ pc).
Proof.
  eexists. split; [reflexivity|].
  apply (codeGenRequest_columns_typed (list Byte.byte) sample_YAMLtoJSON
           sample_Marshal "v1.30.0" sample_result sample_py_settings).
  reflexivity.
Defined.

(** ** Further runs on the sample inputs *)

(** The second override of the sample settings. *)
Lemma pluginSettings_overrides_witness :
  exists st ov,
    pluginSettings sample_YAMLtoJSON sample_Marshal sample_result sample_py_settings
      = Ret st /\
    plugin.Settings.Overrides st !! 1%nat = Some ov /\
    plugin.Override.Column ov = "mydb.public.orders.id".
Proof.
  eexists. 
  destruct (pluginSettings_overrides (list Byte.byte) sample_YAMLtoJSON sample_Marshal
              sample_result sample_py_settings _ eq_refl) as [_ Hov].
  destruct (Hov 1%nat (sample_override "mydb.public.orders.id") eq_refl)
    as (ov & Hlook & _ & Hcol).
  exists ov. split; [reflexivity|]. split; [exact Hlook|exact Hcol].
Defined.

Lemma sample_overrides_serialise :
  Forall (serialises sample_Marshal)
    (config.CombinedSettings.Overrides sample_py_settings).
Proof. repeat constructor; eexists; reflexivity. Qed.

(** The path [mydb.public.orders.id] is put together again. *)
Lemma pluginOverride_path_round_trip_witness :
  exists ov id,
    pluginOverride sample_Marshal sample_result
      (sample_override "mydb.public.orders.id") = Ret ov /\
    plugin.Override.Table ov = Some id /\
    String.append (plugin.Identifier.Catalog id)
      (String "." (String.append (plugin.Identifier.Schema id)
                     (String "." (String.append (plugin.Identifier.Name id)
                                    (String "." (plugin.Override.ColumnName ov))))))
      = "mydb.public.orders.id".
Proof.
  eexists. eexists. split; [reflexivity|]. split; [reflexivity|].
  refine (proj1 (proj2 (proj2
            (pluginOverride_path_round_trip sample_Marshal sample_result
               (sample_override "mydb.public.orders.id") _ _ _ _))) _);
    reflexivity.
Defined.

(** The first override of the sample settings has the default schema
    of the sample catalog. *)
Lemma codeGenRequest_default_schema_witness :
  exists req st cat ov id,
    codeGenRequest sample_YAMLtoJSON sample_Marshal "v1.30.0" sample_result
      sample_py_settings = Ret req /\
    plugin.CodeGenRequest.Settings req = Some st /\
    plugin.CodeGenRequest.Catalog req = Some cat /\
    plugin.Settings.Overrides st !! 0%nat = Some ov /\
    plugin.Override.Table ov = Some id /\
    plugin.Identifier.Schema id = plugin.Catalog.DefaultSchema cat.
Proof.
  do 5 eexists.
  split; [reflexivity|]. split; [reflexivity|]. split; [reflexivity|].
  split; [reflexivity|]. split; [reflexivity|].
  eapply (codeGenRequest_default_schema (list Byte.byte) sample_YAMLtoJSON
            sample_Marshal "v1.30.0" sample_result sample_py_settings);
    [reflexivity|reflexivity|reflexivity|apply list_elem_of_here
    |reflexivity|reflexivity].
Defined.

(** The settings are the same for the sample result and for a result
    that has its default schema only. *)
Lemma pluginSettings_default_schema_only_witness :
  pluginSettings sample_YAMLtoJSON sample_Marshal sample_result sample_py_settings =
  pluginSettings sample_YAMLtoJSON sample_Marshal sample_bare_result sample_py_settings.
Proof.
  apply (pluginSettings_default_schema_only (list Byte.byte) sample_YAMLtoJSON
           sample_Marshal sample_result sample_bare_result sample_py_settings).
  reflexivity.
Defined.

(** The target [gen-py] has an environment, and the registry has an
    entry of that name. *)
Lemma pluginCodegen_invariants_witness :
  exists p,
    p ∈ sample_registry /\ config.Plugin.Name p = "gen-py" /\
    config.Plugin.Env p = ["PATH"].
Proof.
  destruct (pluginCodegen_invariants (list Byte.byte) sample_YAMLtoJSON
              sample_py_settings
              (config.CombinedSettings.Codegen sample_py_settings) _ eq_refl)
    as (_ & _ & _ & Hentry).
  destruct Hentry as (p & Hp & Hname & Henv & _).
  - left. discriminate.
  - exists p. split; [exact Hp|]. split; [exact Hname|].
    symmetry. exact Henv.
Defined.

(** The column [ref] of the table of the sample catalog. *)
Lemma pluginCatalog_columns_owned_witness :
  plugin.Column.Table (pluginCatalog_column sample_table
                         (sample_catalog_column "ref" (Some 12%Z))) =
    plugin.Table.Rel (pluginCatalog_table sample_table).
Proof.
  refine (proj1 (pluginCatalog_columns_owned sample_catalog _ _ _ _ _ _)).
  - apply list_elem_of_here.
  - apply list_elem_of_here.
  - apply list_elem_of_further, list_elem_of_here.
Defined.

Lemma sample_ref_column_describes :
  describes sample_ref_column sample_table (sample_catalog_column "ref" (Some 12%Z)).
Proof. repeat split. Qed.

(** The query column of [ref] and the catalog column [ref]. *)
Lemma pluginQueryColumn_agrees_witness :
  pluginQueryColumn sample_ref_column =
  pluginCatalog_column sample_table (sample_catalog_column "ref" (Some 12%Z)).
Proof.
  apply (pluginQueryColumn_agrees sample_ref_column sample_table
           (sample_catalog_column "ref" (Some 12%Z))).
  exact sample_ref_column_describes.
Defined.

(** The second sample query. *)
Lemma pluginQueries_order_witness :
  exists pq,
    pluginQueries sample_result !! 1%nat = Some pq /\
    plugin.Query.Name pq = "GetOrder" /\
    length (plugin.Query.Params pq) = 1%nat.
Proof.
  destruct (pluginQueries_order sample_result 1%nat (sample_query "GetOrder" None)
              eq_refl) as (pq & Hpq & Hname & _ & _ & Hparams & _).
  exists pq. split; [exact Hpq|]. split; [exact Hname|exact Hparams].
Defined.

(** A parameter with the number [2^32 + 1] is translated with the
    number 1. *)
Lemma narrowed_numbers_witness :
  plugin.Parameter_.Number
    (pluginQueryParam
       {| compiler.Parameter_.Number := 4294967297;
          compiler.Parameter_.Column := sample_ref_column |}) <> 4294967297%Z.
Proof.
  destruct (narrowed_numbers sample_table (sample_catalog_column "ref" None)
              sample_ref_column
              {| compiler.Parameter_.Number := 4294967297;
                 compiler.Parameter_.Column := sample_ref_column |})
    as (_ & _ & _ & Hnum).
  intros Heq. apply Hnum in Heq. unfold in_int32 in Heq. simpl in Heq. lia.
Defined.

(** A declared length of 12 is not translated to the sentinel. *)
Lemma column_length_sentinel_witness :
  plugin.Column.Length (pluginQueryColumn sample_ref_column) <> (-1)%Z.
Proof.
  destruct (column_length_sentinel sample_table (sample_catalog_column "ref" None)
              sample_ref_column) as [_ Hq].
  intros Heq. apply Hq in Heq as [Hnone|(n & Hn & Hmod)].
  - discriminate.
  - injection Hn as <-. vm_compute in Hmod. discriminate.
Defined.

Lemma sample_unique_names :
  NoDup (config.Plugin.Name <$> sample_unique_registry).
Proof. apply (bool_decide_unpack _). vm_compute. exact I. Qed.

(** The target [gen-py] for a registry and for the registry with its
    first two entries exchanged. *)
Lemma pluginCodegen_registry_order_witness :
  pluginCodegen sample_YAMLtoJSON (sample_settings sample_unique_registry "gen-py")
    (config.CombinedSettings.Codegen sample_py_settings) =
  pluginCodegen sample_YAMLtoJSON (sample_settings sample_swapped_registry "gen-py")
    (config.CombinedSettings.Codegen sample_py_settings).
Proof.
  apply (pluginCodegen_registry_order (list Byte.byte) sample_YAMLtoJSON
           (sample_settings sample_unique_registry "gen-py")
           (sample_settings sample_swapped_registry "gen-py")
           (config.CombinedSettings.Codegen sample_py_settings)).
  - exact sample_unique_names.
  - apply perm_swap.
Defined.

(** The request for the samples has its settings and its version. *)
Lemma codeGenRequest_pointers_witness :
  exists req,
    codeGenRequest sample_YAMLtoJSON sample_Marshal "v1.30.0" sample_result
      sample_py_settings = Ret req /\
    plugin.CodeGenRequest.SqlcVersion req = "v1.30.0" /\
    is_Some (plugin.CodeGenRequest.Settings req).
Proof.
  eexists. split; [reflexivity|].
  destruct (codeGenRequest_pointers (list Byte.byte) sample_YAMLtoJSON sample_Marshal
              "v1.30.0" sample_result sample_py_settings _ eq_refl)
    as (Hversion & (st & Hst & _) & _).
  split; [exact Hversion|]. exists st. exact Hst.
Defined.

(** ** Runs on the heap *)

(** Two runs of the assembly on the samples, the second one in the
    heap that the first one leaves. *)
Lemma codeGenRequestM_deep_equal_witness :
  exists a1 h1 a2 h2 req,
    codeGenRequestM sample_YAMLtoJSON sample_Marshal "v1.30.0"
      (point_Result sample_result) sample_py_settings [] = Ret (a1, h1) /\
    codeGenRequestM sample_YAMLtoJSON sample_Marshal "v1.30.0"
      (point_Result sample_result) sample_py_settings h1 = Ret (a2, h2) /\
    a1 <> a2 /\
    load_CodeGenRequest h1 a1 = Some req /\
    load_CodeGenRequest h2 a1 = Some req /\
    load_CodeGenRequest h2 a2 = Some req.
Proof.
  do 5 eexists.
  split; [vm_compute; reflexivity|].
  split; [vm_compute; reflexivity|].
  match goal with
  | |- ?a1 <> ?a2 /\ load_CodeGenRequest ?h1 _ = _ /\
       load_CodeGenRequest ?h2 _ = _ /\ _ =>
      destruct (codeGenRequestM_deep_equal (list Byte.byte) sample_YAMLtoJSON
                  sample_Marshal "v1.30.0" (point_Result sample_result)
                  sample_py_settings [] h1 h1 h2 a1 a2 eq_refl eq_refl)
        as [(req & Hreq1 & Hreq2) Hseq]
  end.
  destruct (Hseq eq_refl) as [Hne Hsame].
  split; [exact Hne|].
  split; [vm_compute; reflexivity|].
  split; [rewrite Hsame; vm_compute; reflexivity|].
  rewrite Hreq2, <- Hreq1. vm_compute. reflexivity.
Defined.

(** The assembly on the samples returns; with a nil column in a table
    of the catalog, or with a nil catalog, it panics at the nil
    pointer. *)
Lemma codeGenRequestM_returns_iff_witness :
  (exists a h',
      codeGenRequestM sample_YAMLtoJSON sample_Marshal "v1.30.0"
        (point_Result sample_result) sample_py_settings [] = Ret (a, h')) /\
  ~ (exists a h',
        codeGenRequestM sample_YAMLtoJSON sample_Marshal "v1.30.0"
          sample_nil_column sample_py_settings [] = Ret (a, h')).
Proof.
  split.
  - apply (proj2 (codeGenRequestM_returns_iff (list Byte.byte) sample_YAMLtoJSON
                    sample_Marshal "v1.30.0" (point_Result sample_result)
                    sample_py_settings [])).
    split; [eexists; reflexivity|].
    split; [exact sample_overrides_serialise|]. eexists. reflexivity.
  - intros Hrun.
    apply (proj1 (codeGenRequestM_returns_iff (list Byte.byte) sample_YAMLtoJSON
                    sample_Marshal "v1.30.0" sample_nil_column
                    sample_py_settings [])) in Hrun.
    destruct Hrun as [[v Hv] _]. vm_compute in Hv. discriminate.
Defined.

Lemma codeGenRequestM_nil_column :
  codeGenRequestM sample_YAMLtoJSON sample_Marshal "v1.30.0"
    sample_nil_column sample_py_settings [] = Panic nil_dereference.
Proof. reflexivity. Qed.

(** The second of three overrides is refused, and the conversion of
    the options fails as well: the panic is the one of the override.
    With a nil catalog and the override [orders.id], the panic is the
    one of the nil pointer, although the serialiser fails as well. *)
Lemma codeGenRequestM_first_panic_witness :
  codeGenRequestM failing_YAMLtoJSON picky_Marshal "v1.30.0"
    (point_Result sample_result) sample_refused_settings [] =
    Panic "json: unsupported type" /\
  codeGenRequestM failing_YAMLtoJSON sample_Marshal "v1.30.0"
    (point_Result sample_result) sample_py_settings [] =
    Panic "yaml: unmarshal errors" /\
  codeGenRequestM sample_YAMLtoJSON failing_Marshal "v1.30.0"
    sample_nil_catalog sample_py_settings [] = Panic nil_dereference.
Proof.
  split; [|split].
  - destruct (codeGenRequestM_first_panic (list Byte.byte) failing_YAMLtoJSON
                picky_Marshal "v1.30.0" (point_Result sample_result)
                sample_refused_settings []) as [Hchecked _].
    destruct (Hchecked sample_result eq_refl) as [Hfirst _].
    apply (Hfirst [sample_override "orders.id"] sample_refused_override
             [sample_override "public.orders.id"] _ eq_refl); [|reflexivity].
    repeat constructor. eexists. reflexivity.
  - destruct (codeGenRequestM_first_panic (list Byte.byte) failing_YAMLtoJSON
                sample_Marshal "v1.30.0" (point_Result sample_result)
                sample_py_settings []) as [Hchecked _].
    destruct (Hchecked sample_result eq_refl) as [_ Hopts].
    apply Hopts; [exact sample_overrides_serialise|reflexivity].
  - destruct (codeGenRequestM_first_panic (list Byte.byte) sample_YAMLtoJSON
                failing_Marshal "v1.30.0" sample_nil_catalog
                sample_py_settings []) as [_ Hnil].
    apply (Hnil (sample_override "orders.id")
             [sample_override "mydb.public.orders.id"] eq_refl eq_refl).
    right. eexists. split; reflexivity.
Defined.
